(** * Arbitrage detection engine: a shallow embedding of [src/core.ts],
    the earlier evaluator kept in the repository and the two
    [calculateArbitrage] entry points, with the properties of the
    specification stated and settled against them.

    Numbers.  A JavaScript number is modelled by [num]: an exact rational
    or one of the three special values.  Rationals stand for IEEE doubles
    (binary rounding of the arithmetic itself is not modelled; the decimal
    rounding the program performs explicitly is).  Signed zero is not
    modelled.  Every operation returns a reduced fraction, so that results
    can be compared with [=].  Where a statement depends on the side of 1 an
    unrounded sum falls on, or on the last digit of an unrounded quotient,
    it is given with a margin ([slack], [band], a cent) that covers the
    binary rounding, so that it holds of the doubles as of the rationals.

    Objects.  A JavaScript object used as a dictionary is the association
    list of its own properties in enumeration order (array-index keys in
    ascending order first, then the other keys in creation order); reading
    a key that is not an own property falls back on [Object.prototype]; a
    [Set<string>] is a duplicate-free list in insertion order.

    Effects.  Reading a property of [undefined] raises a [TypeError]: the
    catalogue functions therefore live in the [result] monad.  Console
    output and the timestamp of the final report are left out. *)

From Stdlib Require Import List String Ascii Bool NArith ZArith QArith Qround Qabs Lia Lqa.
From Stdlib Require Import Sorted Permutation.
Import ListNotations.

Local Open Scope string_scope.
Local Open Scope Q_scope.

(* ================================================================= *)
(** ** JavaScript numbers *)

Module JsNum.

Inductive num : Type :=
| Fin (q : Q)
| PInf
| NInf
| NaN.

Definition nneg (a : num) : num :=
  match a with
  | Fin x => Fin (Qred (- x))
  | PInf => NInf
  | NInf => PInf
  | NaN => NaN
  end.

Definition nadd (a b : num) : num :=
  match a, b with
  | NaN, _ | _, NaN => NaN
  | Fin x, Fin y => Fin (Qred (x + y))
  | PInf, NInf | NInf, PInf => NaN
  | PInf, _ | _, PInf => PInf
  | NInf, _ | _, NInf => NInf
  end.

Definition nsub (a b : num) : num := nadd a (nneg b).

(** Sign of an infinite product or quotient with a finite factor [x]:
    [None] when [x] is zero. *)
Definition signed_inf (positive : bool) (x : Q) : option num :=
  match x ?= 0 with
  | Eq => None
  | Gt => Some (if positive then PInf else NInf)
  | Lt => Some (if positive then NInf else PInf)
  end.

Definition nmul (a b : num) : num :=
  match a, b with
  | NaN, _ | _, NaN => NaN
  | Fin x, Fin y => Fin (Qred (x * y))
  | PInf, Fin x | Fin x, PInf =>
      match signed_inf true x with Some r => r | None => NaN end
  | NInf, Fin x | Fin x, NInf =>
      match signed_inf false x with Some r => r | None => NaN end
  | PInf, PInf | NInf, NInf => PInf
  | PInf, NInf | NInf, PInf => NInf
  end.

(** Division: [x / 0] is an infinity of the sign of [x], [0 / 0] is NaN. *)
Definition ndiv (a b : num) : num :=
  match a, b with
  | NaN, _ | _, NaN => NaN
  | Fin x, Fin y =>
      match y ?= 0 with
      | Eq => match signed_inf true x with Some r => r | None => NaN end
      | _ => Fin (Qred (x / y))
      end
  | Fin _, PInf | Fin _, NInf => Fin 0
  | PInf, Fin y => match y ?= 0 with Lt => NInf | _ => PInf end
  | NInf, Fin y => match y ?= 0 with Lt => PInf | _ => NInf end
  | _, _ => NaN
  end.

(** [x < y] on finite numbers. *)
Definition qlt (x y : Q) : bool :=
  match x ?= y with Lt => true | _ => false end.

(** [a < b]; false as soon as one side is NaN. *)
Definition nlt (a b : num) : bool :=
  match a, b with
  | NaN, _ | _, NaN => false
  | Fin x, Fin y => match x ?= y with Lt => true | _ => false end
  | NInf, NInf => false
  | NInf, _ => true
  | _, PInf => match a with PInf => false | _ => true end
  | _, _ => false
  end.

(** [a >= b]; false as soon as one side is NaN. *)
Definition nge (a b : num) : bool :=
  match a, b with
  | NaN, _ | _, NaN => false
  | Fin x, Fin y => match x ?= y with Lt => false | _ => true end
  | PInf, _ => true
  | _, NInf => true
  | _, _ => false
  end.

Definition ngt (a b : num) : bool := nlt b a.

(** *** Decimal rounding *)

Definition pow10 (d : nat) : Z := (10 ^ Z.of_nat d)%Z.

(** Nearest multiple of [10^-d] of a rational, the larger one on a tie. *)
Definition round_half_up (d : nat) (q : Q) : Q :=
  Qred (inject_Z (Qfloor (q * inject_Z (pow10 d) + (1 # 2))) / inject_Z (pow10 d)).

(** [Number.prototype.toFixed(d)] read back with [parseFloat]: the sign is
    set aside, the magnitude is rounded to the nearest multiple of [10^-d]
    (the larger on a tie), and the sign is put back. *)
Definition roundQ (d : nat) (q : Q) : Q :=
  match q ?= 0 with
  | Lt => Qred (- round_half_up d (- q))
  | _ => round_half_up d q
  end.

Definition toFixed (d : nat) (a : num) : num :=
  match a with
  | Fin q => Fin (roundQ d q)
  | other => other
  end.

(** Modelled from the spec: [roundTo4] and [roundTo2] are imported by
    [core.ts] from [./utils], whose copy in the sources does not define
    them.  The specification says that probabilities and the total are
    rounded to 4 decimal places and percentages and stakes to 2 decimal
    places: they are rounding to the nearest multiple of [10^-4] and
    [10^-2]. *)
Definition roundTo4 (a : num) : num := toFixed 4 a.
Definition roundTo2 (a : num) : num := toFixed 2 a.

End JsNum.
Export JsNum.

(* ================================================================= *)
(** ** Objects, sets and exceptions *)

Module Js.

(** An object used as a dictionary: its own properties, in enumeration
    order. *)
Definition obj (V : Type) : Type := list (string * V).

(** The own property [k], if there is one. *)
Fixpoint get {V : Type} (k : string) (o : obj V) : option V :=
  match o with
  | [] => None
  | (k', v) :: rest => if String.eqb k k' then Some v else get k rest
  end.

Definition keys {V : Type} (o : obj V) : list string := map fst o.

Definition mem (x : string) (s : list string) : bool :=
  existsb (String.eqb x) s.

(** [Set.prototype.add]. *)
Definition add (s : list string) (x : string) : list string :=
  if mem x s then s else s ++ [x].

(** The names every plain object inherits from [Object.prototype]. *)
Definition prototypeMembers : list string :=
  ["constructor"; "hasOwnProperty"; "isPrototypeOf"; "propertyIsEnumerable";
   "toLocaleString"; "toString"; "valueOf"; "__proto__";
   "__defineGetter__"; "__defineSetter__"; "__lookupGetter__"; "__lookupSetter__"].

(** What [o[k]] evaluates to: the own property, or else a member of
    [Object.prototype] (a function, or the prototype itself for
    [__proto__]: truthy, and without any of the fields of the data model),
    or else [undefined]. *)
Inductive member (V : Type) : Type :=
| Own (v : V)
| Inherited
| Missing.
Arguments Own {V} v.
Arguments Inherited {V}.
Arguments Missing {V}.

Definition lookup {V : Type} (k : string) (o : obj V) : member V :=
  match get k o with
  | Some v => Own v
  | None => if mem k prototypeMembers then Inherited else Missing
  end.

(** *** The order of own keys *)

Definition digit (c : ascii) : option N :=
  let n := N_of_ascii c in
  if ((48 <=? n) && (n <=? 57))%N then Some (n - 48)%N else None.

Fixpoint digits (s : string) (acc : N) : option N :=
  match s with
  | EmptyString => Some acc
  | String c rest =>
      match digit c with
      | Some d => digits rest (acc * 10 + d)%N
      | None => None
      end
  end.

(** The array index a key stands for: a canonical decimal numeral (no
    leading zero) of value at most [2^32 - 2]. *)
Definition arrayIndex (k : string) : option N :=
  match k with
  | EmptyString => None
  | String c rest =>
      if Ascii.eqb c "0"%char && negb (String.eqb rest "") then None
      else
        match digits k 0 with
        | Some n => if (n <? 4294967295)%N then Some n else None
        | None => None
        end
  end.

(** A new array-index key goes before the first key that is not an array
    index or is a larger one. *)
Fixpoint place {V : Type} (i : N) (k : string) (v : V) (o : obj V) : obj V :=
  match o with
  | [] => [(k, v)]
  | (k', v') :: rest =>
      match arrayIndex k' with
      | Some j => if (j <? i)%N then (k', v') :: place i k v rest
                  else (k, v) :: (k', v') :: rest
      | None => (k, v) :: (k', v') :: rest
      end
  end.

Fixpoint overwrite {V : Type} (k : string) (v : V) (o : obj V) : obj V :=
  match o with
  | [] => []
  | (k', v') :: rest =>
      if String.eqb k k' then (k, v) :: rest else (k', v') :: overwrite k v rest
  end.

(** [o[k] = v] for an object [v]: an existing own property is overwritten
    in place; a new one takes its place in the enumeration order; and
    assigning to [__proto__] replaces the prototype and creates no own
    property. *)
Definition set {V : Type} (k : string) (v : V) (o : obj V) : obj V :=
  if String.eqb k "__proto__" then o
  else if mem k (keys o) then overwrite k v o
  else
    match arrayIndex k with
    | Some i => place i k v o
    | None => (o ++ [(k, v)])%list
    end.

(** [xs.slice(0, n)] for an integer [n]: the first [n] elements, and for a
    negative [n] all but the last [-n]. *)
Definition slice0 {A : Type} (n : Z) (xs : list A) : list A :=
  if (n <? 0)%Z then firstn (List.length xs - Z.to_nat (- n)) xs
  else firstn (Z.to_nat n) xs.

Inductive result (A : Type) : Type :=
| Ok (a : A)
| Throw (message : string).
Arguments Ok {A} a.
Arguments Throw {A} message.

Definition bind {A B : Type} (r : result A) (k : A -> result B) : result B :=
  match r with
  | Ok a => k a
  | Throw m => Throw m
  end.

(** [xs.forEach] (or [for ... of]) threading a state; the first exception
    ends the loop. *)
Fixpoint forEach {A S : Type} (body : S -> A -> result S) (xs : list A) (s : S)
  : result S :=
  match xs with
  | [] => Ok s
  | x :: rest => bind (body s x) (forEach body rest)
  end.

(** Stable sort with a JavaScript comparator; [after a b] says that the
    comparator is positive on [(a, b)], that is, [a] goes after [b]. *)
Fixpoint insert {A : Type} (after : A -> A -> bool) (x : A) (l : list A) : list A :=
  match l with
  | [] => [x]
  | y :: rest => if after x y then y :: insert after x rest else x :: y :: rest
  end.

Definition sort {A : Type} (after : A -> A -> bool) (l : list A) : list A :=
  fold_right (insert after) [] l.

End Js.
Export Js.

Notation "x <- r ;; k" := (bind r (fun x => k))
  (at level 61, r at next level, right associativity).

(* ================================================================= *)
(** ** Data model ([src/types.ts]) *)

(** Only the fields the analysis reads are kept: [bookmakerOutcomeId],
    [changedAt], [limit], [playerName], [bookmakerMarketId],
    [bookmakerFixtureId] and [fixturePath] are never consulted. *)

Record Player : Type := mkPlayer {
  active : bool;
  price : Q
}.

Record Outcome : Type := mkOutcome {
  players : obj Player
}.

Record Market : Type := mkMarket {
  outcomes : obj Outcome
}.

Record Bookmaker : Type := mkBookmaker {
  bookmakerIsActive : bool;
  markets : obj Market
}.

Record OddsData : Type := mkOddsData {
  fixtureId : string;
  participant1Name : string;
  participant2Name : string;
  sportName : string;
  tournamentName : string;
  bookmakerOdds : obj Bookmaker
}.

(** [{ bookmaker, odds }]: a best-odds entry and an [OddsOption]. *)
Record OddsOption : Type := mkOddsOption {
  bookmaker : string;
  odds : Q
}.

(** An element of [ArbitrageOpportunity.outcomes].  [outcomeId] is [None]
    for JavaScript's [undefined], which [evaluateCombinations] stores when a
    combination is longer than the list of outcome ids it is given. *)
Record OutcomeQuote : Type := mkOutcomeQuote {
  q_outcomeId : option string;
  q_bookmaker : string;
  q_odds : Q;
  impliedProbability : num
}.

Record Bet : Type := mkBet {
  b_outcomeId : option string;
  b_bookmaker : string;
  betPercentage : num;
  requiredStake : num
}.

Record ArbitrageOpportunity : Type := mkOpportunity {
  market : string;
  opp_outcomes : list OutcomeQuote;
  totalImpliedProbability : num;
  arbitragePercentage : num;
  betDistribution : list Bet
}.

Record Fixture : Type := mkFixture {
  f_fixtureId : string;
  participant1 : string;
  participant2 : string;
  tournament : string;
  sport : string
}.

Record Analysis : Type := mkAnalysis {
  analyzedMarkets : nat;
  totalActiveBookmakers : nat;
  totalOpportunities : nat;
  opportunities : list ArbitrageOpportunity
}.

(** The [timestamp] of the report is the clock's and is left out. *)
Record ArbitrageAnalysisResult : Type := mkResult {
  fixture : Fixture;
  analysis : Analysis
}.

(** The options of [analyzeMarketTopK].  A missing number is [None]; the
    numbers themselves are integers. *)
Record AnalyzeOptions : Type := mkOptions {
  topk : option Z;
  maxResults : option Z;
  verbose : bool;
  includeBetDistribution : bool
}.

(* ================================================================= *)
(** ** [src/core.ts] *)

Module Core.

Definition undefined_markets : string :=
  "Cannot read properties of undefined (reading 'markets')".

(** The message of the TypeError raised by [undefined[k]]. *)
Definition undefined_reading (k : string) : string :=
  "Cannot read properties of undefined (reading '" ++ k ++ "')".

(** The message of the TypeError raised by [Object.keys(undefined)]. *)
Definition not_an_object : string := "Cannot convert undefined or null to object".

(** [oddsData.bookmakerOdds[bookmakerName].markets], of which the callers
    read a property or take the keys at once.  (For a name that is only a
    member of [Object.prototype] the TypeError is raised one step later and
    with another message; the model does not tell the two apart.) *)
Definition marketsOf (oddsData : OddsData) (bookmakerName : string)
  : result (obj Market) :=
  match get bookmakerName (bookmakerOdds oddsData) with
  | Some b => Ok (markets b)
  | None => Throw undefined_markets
  end.

Definition getActiveBookmakers (oddsData : OddsData) : list string :=
  map fst (filter (fun e => bookmakerIsActive (snd e)) (bookmakerOdds oddsData)).

Definition getAllMarkets (oddsData : OddsData) (activeBookmakers : list string)
  : result (list string) :=
  forEach
    (fun allMarkets bookmakerName =>
       ms <- marketsOf oddsData bookmakerName ;;
       Ok (fold_left add (keys ms) allMarkets))
    activeBookmakers [].

Definition getMarketOutcomes (marketId : string) (oddsData : OddsData)
  (activeBookmakers : list string) : result (list string) :=
  forEach
    (fun marketOutcomes bookmakerName =>
       ms <- marketsOf oddsData bookmakerName ;;
       match lookup marketId ms with
       | Own m => Ok (fold_left add (keys (outcomes m)) marketOutcomes)
       | Inherited => Throw not_an_object
       | Missing => Ok marketOutcomes
       end)
    activeBookmakers [].

(** The inner loop of [findBestOdds]: one bookmaker's quote against the
    running [(bestOdd, bestBookmaker)]. *)
Definition bestStep (marketId outcomeId : string) (oddsData : OddsData)
  (best : Q * string) (bookmakerName : string) : result (Q * string) :=
  ms <- marketsOf oddsData bookmakerName ;;
  match lookup marketId ms with
  | Own m =>
      match lookup outcomeId (outcomes m) with
      | Own outcome =>
          match get "0" (players outcome) with
          | Some player =>
              if active player && qlt (fst best) (price player)
              then Ok (price player, bookmakerName)
              else Ok best
          | None => Ok best
          end
      | Inherited => Throw (undefined_reading "0")
      | Missing => Ok best
      end
  | Inherited => Throw (undefined_reading outcomeId)
  | Missing => Ok best
  end.

Definition findBestOdds (marketId : string) (marketOutcomes : list string)
  (oddsData : OddsData) (activeBookmakers : list string)
  : result (obj OddsOption) :=
  forEach
    (fun bestOdds outcomeId =>
       best <- forEach (bestStep marketId outcomeId oddsData)
                 activeBookmakers (0, "") ;;
       if String.eqb (snd best) ""
       then Ok bestOdds
       else Ok (set outcomeId (mkOddsOption (snd best) (fst best)) bestOdds))
    marketOutcomes [].

Definition sumNum (l : list num) : num := fold_left nadd l (Fin 0).

Definition calculateArbitrageForMarket (marketId : string)
  (bestOdds : obj OddsOption) : option ArbitrageOpportunity :=
  let impliedProbabilities :=
    map (fun e =>
           mkOutcomeQuote (Some (fst e)) (bookmaker (snd e)) (odds (snd e))
             (roundTo4 (ndiv (Fin 1) (Fin (odds (snd e))))))
        bestOdds in
  let totalImpliedProbability :=
    roundTo4 (sumNum (map impliedProbability impliedProbabilities)) in
  if nge totalImpliedProbability (Fin 1) then None
  else
    let arbitragePercentage :=
      roundTo2 (nmul (ndiv (nsub (Fin 1) totalImpliedProbability)
                           totalImpliedProbability) (Fin 100)) in
    let betDistribution :=
      map (fun item =>
             let betPercentage :=
               roundTo2 (nmul (ndiv (impliedProbability item)
                                    totalImpliedProbability) (Fin 100)) in
             mkBet (q_outcomeId item) (q_bookmaker item)
               betPercentage betPercentage)
          impliedProbabilities in
    Some (mkOpportunity marketId impliedProbabilities totalImpliedProbability
            arbitragePercentage betDistribution).

Definition analyzeMarket (marketId : string) (oddsData : OddsData)
  (activeBookmakers : list string) : result (option ArbitrageOpportunity) :=
  marketOutcomes <- getMarketOutcomes marketId oddsData activeBookmakers ;;
  if (List.length marketOutcomes <? 2)%nat then Ok None
  else
    bestOdds <- findBestOdds marketId marketOutcomes oddsData activeBookmakers ;;
    if negb (List.length (keys bestOdds) =? List.length marketOutcomes)%nat then Ok None
    else Ok (calculateArbitrageForMarket marketId bestOdds).

(** [market?.outcomes[outcomeId]?.players["0"]] for
    [market = ms[marketId]]: the optional chaining stops at [undefined], not
    at an inherited member. *)
Definition quoteOf (ms : obj Market) (marketId outcomeId : string)
  : result (option Player) :=
  match lookup marketId ms with
  | Own m =>
      match lookup outcomeId (outcomes m) with
      | Own outcome => Ok (get "0" (players outcome))
      | Inherited => Throw (undefined_reading "0")
      | Missing => Ok None
      end
  | Inherited => Throw (undefined_reading outcomeId)
  | Missing => Ok None
  end.

Definition oddsDescending (a b : OddsOption) : bool :=
  qlt 0 (odds b - odds a).

Definition buildTopOutcomeOddsMap (marketId : string) (oddsData : OddsData)
  (activeBookmakers : list string) (topK : Z) : result (obj (list OddsOption)) :=
  marketOutcomes <- getMarketOutcomes marketId oddsData activeBookmakers ;;
  forEach
    (fun outcomesOdds outcomeId =>
       allOdds <-
         forEach
           (fun (allOdds : list OddsOption) bookmakerName =>
              ms <- marketsOf oddsData bookmakerName ;;
              quote <- quoteOf ms marketId outcomeId ;;
              match quote with
              | Some player =>
                  if active player && qlt 1 (price player)
                  then Ok (allOdds ++ [mkOddsOption bookmakerName (price player)])%list
                  else Ok allOdds
              | None => Ok allOdds
              end)
           activeBookmakers [] ;;
       Ok (set outcomeId (slice0 topK (sort oddsDescending allOdds)) outcomesOdds))
    marketOutcomes [].

(** The product generator; the warning it prints when it gives up is left
    out. *)
Definition generateCombinations {T : Type} (arrays : list (list T))
  (maxCombinations : Z) : list (list T) :=
  let totalCombinations :=
    fold_left (fun acc curr => (acc * List.length curr)%nat) arrays 1%nat in
  if (maxCombinations <? Z.of_nat totalCombinations)%Z then []
  else
    fold_left
      (fun acc curr => flat_map (fun a => map (fun b => (a ++ [b])%list) curr) acc)
      arrays [[]].

(** [xs.map((x, i) => f(x, i))] *)
Fixpoint mapi_from {A B : Type} (f : A -> nat -> B) (i : nat) (xs : list A)
  : list B :=
  match xs with
  | [] => []
  | x :: rest => f x i :: mapi_from f (S i) rest
  end.

Definition mapi {A B : Type} (f : A -> nat -> B) (xs : list A) : list B :=
  mapi_from f 0 xs.

Definition impliedSumOf (combo : list OddsOption) : num :=
  fold_left (fun sum option => nadd sum (ndiv (Fin 1) (Fin (odds option))))
    combo (Fin 0).

(** The body of the loop of [evaluateCombinations]: the opportunity pushed
    for one combination, if any. *)
Definition evaluateCombination (marketId : string) (outcomeIds : list string)
  (combo : list OddsOption) (includeBetDistribution : bool)
  : option ArbitrageOpportunity :=
  let impliedSum := impliedSumOf combo in
  if nlt impliedSum (Fin 1) then
    let arbitragePercentage :=
      nmul (ndiv (nsub (Fin 1) impliedSum) impliedSum) (Fin 100) in
    let outcomes :=
      mapi (fun option i =>
              mkOutcomeQuote (nth_error outcomeIds i) (bookmaker option)
                (odds option) (toFixed 4 (ndiv (Fin 1) (Fin (odds option)))))
           combo in
    let betDistribution :=
      if includeBetDistribution then
        map (fun item =>
               mkBet (q_outcomeId item) (q_bookmaker item)
                 (toFixed 2 (nmul (ndiv (impliedProbability item) impliedSum)
                                  (Fin 100)))
                 (toFixed 2 (nmul (ndiv (impliedProbability item) impliedSum)
                                  (Fin 100))))
            outcomes
      else [] in
    Some (mkOpportunity marketId outcomes (toFixed 4 impliedSum)
            (toFixed 2 arbitragePercentage) betDistribution)
  else None.

Definition evaluateCombinations (marketId : string) (outcomeIds : list string)
  (combos : list (list OddsOption)) (includeBetDistribution : bool)
  : list ArbitrageOpportunity :=
  fold_left
    (fun opportunities combo =>
       match evaluateCombination marketId outcomeIds combo includeBetDistribution with
       | Some opportunity => (opportunities ++ [opportunity])%list
       | None => opportunities
       end)
    combos [].

(** [x || d] on an optional integer: a missing value and zero are falsy. *)
Definition orDefault (x : option Z) (d : Z) : Z :=
  match x with
  | Some 0%Z | None => d
  | Some v => v
  end.

Definition clamp (lo hi x : Z) : Z := Z.min (Z.max x lo) hi.

Definition arbitrageDescending (a b : ArbitrageOpportunity) : bool :=
  nlt (Fin 0) (nsub (arbitragePercentage b) (arbitragePercentage a)).

Definition analyzeMarketTopK (marketId : string) (oddsData : OddsData)
  (activeBookmakers : list string) (options : AnalyzeOptions)
  : result (list ArbitrageOpportunity) :=
  let topk := clamp 1 3 (orDefault (topk options) 3) in
  let maxResults := clamp 1 5 (orDefault (maxResults options) 5) in
  outcomeOdds <- buildTopOutcomeOddsMap marketId oddsData activeBookmakers topk ;;
  let outcomeIds := keys outcomeOdds in
  let oddsArrays :=
    map (fun oId => match get oId outcomeOdds with Some l => l | None => [] end)
        outcomeIds in
  let allCombinations := generateCombinations oddsArrays 10000%Z in
  let opportunities :=
    evaluateCombinations marketId outcomeIds allCombinations
      (includeBetDistribution options) in
  let sorted := sort arbitrageDescending opportunities in
  Ok (slice0 maxResults sorted).

(** The options [analyzeMarketTopK] takes when none are given. *)
Definition defaultOptions : AnalyzeOptions :=
  mkOptions (Some 3%Z) (Some 5%Z) false false.

End Core.

(* ================================================================= *)
(** ** The earlier evaluator ([src/unnamed/part_003], lines 159-200) *)

Module Legacy.

Definition calculateArbitrageForMarket (marketId : string)
  (bestOdds : obj OddsOption) : option ArbitrageOpportunity :=
  let impliedProbabilities :=
    map (fun e =>
           mkOutcomeQuote (Some (fst e)) (bookmaker (snd e)) (odds (snd e))
             (ndiv (Fin 1) (Fin (odds (snd e)))))
        bestOdds in
  let totalImpliedProbability :=
    Core.sumNum (map impliedProbability impliedProbabilities) in
  if nge totalImpliedProbability (Fin 1) then None
  else
    let arbitragePercentage :=
      nmul (ndiv (nsub (Fin 1) totalImpliedProbability)
                 totalImpliedProbability) (Fin 100) in
    let betDistribution :=
      map (fun item =>
             let betPercentage :=
               nmul (ndiv (impliedProbability item) totalImpliedProbability)
                    (Fin 100) in
             mkBet (q_outcomeId item) (q_bookmaker item)
               betPercentage betPercentage)
          impliedProbabilities in
    Some (mkOpportunity marketId impliedProbabilities totalImpliedProbability
            arbitragePercentage betDistribution).

End Legacy.

(* ================================================================= *)
(** ** The entry points *)

(** [calculateArbitrage] is modelled from the point where the snapshot has
    been loaded: its argument is the value of [await loadOddsData(...)]. *)

Definition noBookmakerOdds : string :=
  "No bookmaker odds data available. The fixture may have finished or not started yet.".

(** The [catch] clause that wraps the whole body. *)
Definition rethrow {A : Type} (r : result A) : result A :=
  match r with
  | Ok a => Ok a
  | Throw m => Throw ("Arbitrage calculation failed: " ++ m)
  end.

Definition summary (oddsData : OddsData) : Fixture :=
  mkFixture (fixtureId oddsData) (participant1Name oddsData)
    (participant2Name oddsData) (tournamentName oddsData) (sportName oddsData).

Definition report (oddsData : OddsData) (allMarkets activeBookmakers : list string)
  (arbitrageOpportunities : list ArbitrageOpportunity) : ArbitrageAnalysisResult :=
  mkResult (summary oddsData)
    (mkAnalysis (List.length allMarkets) (List.length activeBookmakers)
       (List.length arbitrageOpportunities) arbitrageOpportunities).

(** [src/src/index.ts] *)
Module Index.

Definition calculateArbitrage (oddsData : OddsData)
  : result ArbitrageAnalysisResult :=
  rethrow
    (if (List.length (keys (bookmakerOdds oddsData)) =? 0)%nat
     then Throw noBookmakerOdds
     else
       let activeBookmakers := Core.getActiveBookmakers oddsData in
       allMarkets <- Core.getAllMarkets oddsData activeBookmakers ;;
       arbitrageOpportunities <-
         forEach
           (fun (found : list ArbitrageOpportunity) marketId =>
              opportunity <- Core.analyzeMarket marketId oddsData activeBookmakers ;;
              match opportunity with
              | Some o => Ok (found ++ [o])%list
              | None => Ok found
              end)
           allMarkets [] ;;
       Ok (report oddsData allMarkets activeBookmakers arbitrageOpportunities)).

End Index.

(** [src/unnamed/part_002]: the entry point with the top-K switch. *)
Module IndexTopK.

Definition useTopK (topk : option Z) : bool :=
  match topk with
  | Some k => negb (k =? 0)%Z && (1 <? k)%Z
  | None => false
  end.

Definition calculateArbitrage (oddsData : OddsData) (topk : option Z)
  : result ArbitrageAnalysisResult :=
  rethrow
    (if (List.length (keys (bookmakerOdds oddsData)) =? 0)%nat
     then Throw noBookmakerOdds
     else
       let activeBookmakers := Core.getActiveBookmakers oddsData in
       allMarkets <- Core.getAllMarkets oddsData activeBookmakers ;;
       arbitrageOpportunities <-
         (if useTopK topk then
            forEach
              (fun (found : list ArbitrageOpportunity) marketId =>
                 opportunity <-
                   Core.analyzeMarketTopK marketId oddsData activeBookmakers
                     (mkOptions (Some (Core.orDefault topk 3)) (Some 20%Z) true true) ;;
                 if (0 <? List.length opportunity)%nat
                 then Ok (found ++ opportunity)%list
                 else Ok found)
              allMarkets []
          else
            forEach
              (fun (found : list ArbitrageOpportunity) marketId =>
                 opportunity <- Core.analyzeMarket marketId oddsData activeBookmakers ;;
                 match opportunity with
                 | Some o => Ok (found ++ [o])%list
                 | None => Ok found
                 end)
              allMarkets []) ;;
       Ok (report oddsData allMarkets activeBookmakers arbitrageOpportunities)).

End IndexTopK.

(* ================================================================= *)
(** ** The arithmetic of the specification, on rationals *)

Module Math.

(** [a] is the finite number of value [q]. *)
Definition is_fin (a : num) (q : Q) : Prop := exists x, a = Fin x /\ x == q.

Definition unit10 (d : nat) : Q := inject_Z (pow10 d).

(** Half a unit in the last place kept: [0.00005] for 4 places, [0.005]
    for 2. *)
Definition half_ulp (d : nat) : Q := (1 # 2) * / unit10 d.

Definition Qsum (l : list Q) : Q := fold_right Qplus 0 l.

(** Total implied probability of the chosen prices: the sum of [1 / price]. *)
Definition impliedTotal (prices : list Q) : Q := Qsum (map Qinv prices).

(** The implied probability of one price at 4 decimal places, and the sum
    of these. *)
Definition impliedAt4 (p : Q) : Q := roundQ 4 (/ p).
Definition roundedTotal (prices : list Q) : Q := Qsum (map impliedAt4 prices).

(** [(1 - total) / total * 100], which is [(1 / total - 1) * 100]. *)
Definition profitPercent (total : Q) : Q := (1 - total) / total * 100.

(** [share / total * 100] *)
Definition stakePercent (share total : Q) : Q := share / total * 100.

Definition count (n : nat) : Q := inject_Z (Z.of_nat n).

Definition pricesOfBest (bestOdds : obj OddsOption) : list Q :=
  map (fun e => odds (snd e)) bestOdds.

Definition pricesOf (combo : list OddsOption) : list Q := map odds combo.

Definition reportedOdds (o : ArbitrageOpportunity) : list Q :=
  map q_odds (opp_outcomes o).

Definition stakes (o : ArbitrageOpportunity) : list num :=
  map betPercentage (betDistribution o).

Definition positive (prices : list Q) : Prop := Forall (fun p => 0 < p) prices.

(** A non-negative whole number of units of the [d]-th decimal place. *)
Definition multiple (d : nat) (q : Q) : Prop :=
  exists z, (0 <= z)%Z /\ q == inject_Z z * / unit10 d.

(** The sum of the stake percentages of an opportunity. *)
Definition stakeSum (o : ArbitrageOpportunity) : num := Core.sumNum (stakes o).

(** The [impliedProbabilities] array of [calculateArbitrageForMarket]. *)
Definition bestQuotes (bestOdds : obj OddsOption) : list OutcomeQuote :=
  map (fun e =>
         mkOutcomeQuote (Some (fst e)) (bookmaker (snd e)) (odds (snd e))
           (roundTo4 (ndiv (Fin 1) (Fin (odds (snd e))))))
      bestOdds.

(** The same array in the earlier evaluator. *)
Definition legacyQuotes (bestOdds : obj OddsOption) : list OutcomeQuote :=
  map (fun e =>
         mkOutcomeQuote (Some (fst e)) (bookmaker (snd e)) (odds (snd e))
           (ndiv (Fin 1) (Fin (odds (snd e)))))
      bestOdds.

(** An element of the [outcomes] array of [evaluateCombinations]. *)
Definition quoteAt (outcomeIds : list string) (option : OddsOption) (i : nat)
  : OutcomeQuote :=
  mkOutcomeQuote (nth_error outcomeIds i) (bookmaker option) (odds option)
    (toFixed 4 (ndiv (Fin 1) (Fin (odds option)))).

(** The loop of [evaluateCombinations], combination by combination. *)
Definition pushed (marketId : string) (outcomeIds : list string) (flag : bool)
  (combo : list OddsOption) : list ArbitrageOpportunity :=
  match Core.evaluateCombination marketId outcomeIds combo flag with
  | Some o => [o]
  | None => []
  end.

Definition product (sizes : list nat) : nat := fold_right Nat.mul 1%nat sizes.

Definition sizes {T : Type} (arrays : list (list T)) : list nat :=
  map (@List.length T) arrays.

(** [c] picks one element from each list, in order. *)
Definition choice {T : Type} (c : list T) (arrays : list (list T)) : Prop :=
  Forall2 (fun x l => In x l) c arrays.

(** One round of the product: every partial assignment extended by every
    candidate of the next list. *)
Definition extend {T : Type} (acc : list (list T)) (curr : list T) : list (list T) :=
  flat_map (fun a => map (fun b => (a ++ [b])%list) curr) acc.

(** The width, around a total of 1, within which the decimal rounding of
    [n] implied probabilities can change the side the total falls on:
    [n * 0.0001]. *)
Definition band (n : nat) : Q := count n * (1 # 10000).



End Math.
Import Math.

(* ================================================================= *)
(** ** Sample inputs *)

Module Samples.

Definition at_ (b : string) (p : Q) : OddsOption := mkOddsOption b p.

(** Three outcomes at 3.0 each: the exact total is 1. *)
Definition threeThrees : obj OddsOption :=
  [("1", at_ "x" 3); ("2", at_ "x" 3); ("3", at_ "x" 3)].

(** Two outcomes at 3.0 each. *)
Definition twoThrees : obj OddsOption := [("1", at_ "x" 3); ("2", at_ "y" 3)].

(** 2.0 against 2.0001: the exact total is just below 1. *)
Definition nearEven : obj OddsOption :=
  [("1", at_ "x" 2); ("2", at_ "y" (20001 # 10000))].

Definition nearEvenCombo : list OddsOption := map snd nearEven.
Definition twoThreesCombo : list OddsOption := map snd twoThrees.

(** Eighteen outcomes at 20.0 each. *)
Definition eighteenAtTwenty : obj OddsOption :=
  map (fun k => (k, at_ "x" 20))
    ["1"; "2"; "3"; "4"; "5"; "6"; "7"; "8"; "9"; "10"; "11"; "12"; "13"; "14";
     "15"; "16"; "17"; "18"].

(** Two outcomes at 30.0 each. *)
Definition twoThirties : list OddsOption := [at_ "x" 30; at_ "y" 30].

Definition quote (a : bool) (p : Q) : Outcome := mkOutcome [("0", mkPlayer a p)].

Definition snapshot (bookmakers : obj Bookmaker) : OddsData :=
  mkOddsData "test_fixture_123" "Team A" "Team B" "Soccer" "Test League" bookmakers.

(** The single-outcome fixture of [tests/core.test.ts]: one active
    bookmaker, market 101, one outcome at 1.5. *)
Definition singleOutcomeData : OddsData :=
  snapshot
    [("bookmaker1", mkBookmaker true [("101", mkMarket [("101", quote true (3 # 2))])])].

(** One active bookmaker quoting 0.9 and 2.5 on the two outcomes of
    market 101. *)
Definition belowEvens : OddsData :=
  snapshot
    [("bookmaker1",
      mkBookmaker true
        [("101", mkMarket [("101", quote true (9 # 10)); ("102", quote true (5 # 2))])])].

(** Two active bookmakers, two outcomes, every price above 2. *)
Definition generous : OddsData :=
  snapshot
    [("bookmaker1",
      mkBookmaker true
        [("101", mkMarket [("101", quote true (22 # 10)); ("102", quote true (23 # 10))])]);
     ("bookmaker2",
      mkBookmaker true
        [("101", mkMarket [("101", quote true (24 # 10)); ("102", quote true (25 # 10))])])].

(** No bookmaker at all. *)
Definition emptySnapshot : OddsData := snapshot [].

(** The "No Active Bookmakers" edge case of the sample script. *)
Definition inactiveOnly : OddsData :=
  snapshot [("inactive_bookmaker", mkBookmaker false [])].

(** One active bookmaker that carries no market. *)
Definition activeWithoutMarkets : OddsData :=
  snapshot [("bookmaker1", mkBookmaker true [])].

Definition withLimits (k r : option Z) : AnalyzeOptions := mkOptions k r false true.

(** The one opportunity of a market without outcomes. *)
Definition emptyOpportunity (marketId : string) : ArbitrageOpportunity :=
  mkOpportunity marketId [] (Fin 0) PInf [].

End Samples.
Import Samples.

(* ================================================================= *)
(** ** Definitions for the catalogue, the selections and the entry points *)

Module Catalogue.

(** The bookmaker name is a key of the snapshot's mapping. *)
Definition known (oddsData : OddsData) (bookmakerName : string) : Prop :=
  get bookmakerName (bookmakerOdds oddsData) <> None.

(** The id is not the name of a member of [Object.prototype]. *)
Definition plain (id : string) : Prop := mem id prototypeMembers = false.

(** No market id and no outcome id of the snapshot is the name of a member
    of [Object.prototype]. *)
Definition plainSnapshot (oddsData : OddsData) : Prop :=
  Forall
    (fun e =>
       Forall
         (fun me =>
            plain (fst me) /\ Forall (fun oe => plain (fst oe)) (outcomes (snd me)))
         (markets (snd e)))
    (bookmakerOdds oddsData).

(** The common shape of the loops of [getAllMarkets] and
    [getMarketOutcomes]: the ids [ids ms] of each listed bookmaker are added
    to the set. *)
Definition collect (oddsData : OddsData) (ids : obj Market -> result (list string))
  (acc : list string) (bookmakerName : string) : result (list string) :=
  ms <- Core.marketsOf oddsData bookmakerName ;;
  found <- ids ms ;;
  Ok (fold_left add found acc).

(** The loop can read the bookmaker: it is in the snapshot and [ids]
    returns on its markets. *)
Definition reads (oddsData : OddsData) (ids : obj Market -> result (list string))
  (bookmakerName : string) : Prop :=
  exists b l, get bookmakerName (bookmakerOdds oddsData) = Some b /\
              ids (markets b) = Ok l.

(** The outcome ids a bookmaker carries for a market. *)
Definition outcomeIdsOf (marketId : string) (ms : obj Market) : result (list string) :=
  match lookup marketId ms with
  | Own m => Ok (keys (outcomes m))
  | Inherited => Throw Core.not_an_object
  | Missing => Ok []
  end.

(** [getMarketOutcomes] can read the market from the bookmaker: the
    bookmaker is in the snapshot, and the market id is an own key of its
    markets or no key at all, inherited ones included. *)
Definition readable (oddsData : OddsData) (marketId bookmakerName : string) : Prop :=
  exists b, get bookmakerName (bookmakerOdds oddsData) = Some b /\
            lookup marketId (markets b) <> Inherited.

End Catalogue.
Import Catalogue.

Module Samples3.

(** [mockOddsData] of [tests/core.test.ts], its inactive bookmaker given a
    market of its own. *)
Definition mockOddsData : OddsData :=
  snapshot
    [("bookmaker1",
      mkBookmaker true
        [("101", mkMarket [("101", quote true (25 # 10)); ("102", quote true (25 # 10))])]);
     ("bookmaker2",
      mkBookmaker true
        [("101", mkMarket [("101", quote true (21 # 10)); ("102", quote true (21 # 10))])]);
     ("inactive_bookmaker",
      mkBookmaker false
        [("202", mkMarket [("201", quote true 3)])])].

(** Two active bookmakers on market 101: the first carries outcome 102
    only, the second outcomes 101 and 102, so that the outcomes are met in
    the order 102, 101. *)
Definition unordered : OddsData :=
  snapshot
    [("bookmaker1",
      mkBookmaker true [("101", mkMarket [("102", quote true (21 # 10))])]);
     ("bookmaker2",
      mkBookmaker true
        [("101", mkMarket [("101", quote true (22 # 10)); ("102", quote true (23 # 10))])])].


End Samples3.
Import Samples3.

Module Selection.

(** The quote of a bookmaker on an outcome of a market: player ["0"] of
    the outcome, if the bookmaker, the market, the outcome and the player
    are all there, as own properties. *)
Definition quoteFor (oddsData : OddsData) (marketId outcomeId bookmakerName : string)
  : option Player :=
  match get bookmakerName (bookmakerOdds oddsData) with
  | Some b =>
      match get marketId (markets b) with
      | Some m =>
          match get outcomeId (outcomes m) with
          | Some outcome => get "0" (players outcome)
          | None => None
          end
      | None => None
      end
  | None => None
  end.

(** The bookmaker quotes price [p] on the outcome, and the quote is
    active. *)
Definition offers (oddsData : OddsData) (marketId outcomeId bookmakerName : string)
  (p : Q) : Prop :=
  exists player,
    quoteFor oddsData marketId outcomeId bookmakerName = Some player /\
    active player = true /\ price player = p.

(** One bookmaker's quote against the running best of [findBestOdds]. *)
Definition better (oddsData : OddsData) (marketId outcomeId : string)
  (best : Q * string) (bookmakerName : string) : Q * string :=
  match quoteFor oddsData marketId outcomeId bookmakerName with
  | Some player =>
      if active player && qlt (fst best) (price player)
      then (price player, bookmakerName)
      else best
  | None => best
  end.

(** What the inner loop of [findBestOdds] maintains, [seen] being the
    bookmakers already visited. *)
Definition leading (oddsData : OddsData) (marketId outcomeId : string)
  (seen : list string) (best : Q * string) : Prop :=
  (forall n p, In n seen -> offers oddsData marketId outcomeId n p -> p <= fst best) /\
  (best = (0, "") \/
   (In (snd best) seen /\ offers oddsData marketId outcomeId (snd best) (fst best) /\
    0 < fst best)).

(** The selection of [findBestOdds] for one outcome. *)
Definition selected (oddsData : OddsData) (marketId : string) (names : list string)
  (outcomeId : string) (s : OddsOption) : Prop :=
  bookmaker s <> "" /\ In (bookmaker s) names /\
  offers oddsData marketId outcomeId (bookmaker s) (odds s) /\
  0 < odds s /\
  forall n p, In n names -> offers oddsData marketId outcomeId n p -> p <= odds s.

(** The body of the outer loop of [findBestOdds]. *)
Definition selectOutcome (oddsData : OddsData) (marketId : string)
  (names : list string) (bestOdds : obj OddsOption) (outcomeId : string)
  : result (obj OddsOption) :=
  best <- forEach (Core.bestStep marketId outcomeId oddsData) names (0, "") ;;
  if String.eqb (snd best) ""
  then Ok bestOdds
  else Ok (set outcomeId (mkOddsOption (snd best) (fst best)) bestOdds).

End Selection.
Import Selection.

Module Ranking.

(** The quotes that [buildTopOutcomeOddsMap] collects for an outcome, in
    bookmaker order: active and priced above 1. *)
Definition candidates (oddsData : OddsData) (marketId outcomeId : string)
  (names : list string) : list OddsOption :=
  flat_map
    (fun n =>
       match quoteFor oddsData marketId outcomeId n with
       | Some player =>
           if active player && qlt 1 (price player)
           then [mkOddsOption n (price player)]
           else []
       | None => []
       end)
    names.

(** Prices in descending order. *)
Definition descending (l : list OddsOption) : Prop :=
  StronglySorted (fun a b => odds b <= odds a) l.

(** The candidate list kept for an outcome. *)
Definition ranked (oddsData : OddsData) (marketId : string) (names : list string)
  (topK : Z) (outcomeId : string) : list OddsOption :=
  slice0 topK (sort Core.oddsDescending (candidates oddsData marketId outcomeId names)).

(** The body of the inner loop of [buildTopOutcomeOddsMap]. *)
Definition collectQuote (oddsData : OddsData) (marketId outcomeId : string)
  (allOdds : list OddsOption) (bookmakerName : string) : result (list OddsOption) :=
  ms <- Core.marketsOf oddsData bookmakerName ;;
  quote <- Core.quoteOf ms marketId outcomeId ;;
  match quote with
  | Some player =>
      if active player && qlt 1 (price player)
      then Ok (allOdds ++ [mkOddsOption bookmakerName (price player)])%list
      else Ok allOdds
  | None => Ok allOdds
  end.

(** The body of its outer loop. *)
Definition rankOutcome (oddsData : OddsData) (marketId : string)
  (names : list string) (topK : Z) (outcomesOdds : obj (list OddsOption))
  (outcomeId : string) : result (obj (list OddsOption)) :=
  allOdds <- forEach (collectQuote oddsData marketId outcomeId) names [] ;;
  Ok (set outcomeId (slice0 topK (sort Core.oddsDescending allOdds)) outcomesOdds).

(** The quote of an opportunity is, for the outcome it is filed under, an
    active quote of a listed bookmaker priced above 1. *)
Definition quoted (oddsData : OddsData) (marketId : string) (names : list string)
  (outcomeId : string) (q : OutcomeQuote) : Prop :=
  q_outcomeId q = Some outcomeId /\
  In (q_bookmaker q) names /\
  offers oddsData marketId outcomeId (q_bookmaker q) (q_odds q) /\
  1 < q_odds q.

End Ranking.
Import Ranking.

Module Shape.

(** A percentage that can be compared: a finite number or [+Infinity]. *)
Definition comparable (a : num) : Prop :=
  match a with
  | Fin _ | PInf => True
  | NInf | NaN => False
  end.

(** Opportunities with the best percentage first. *)
Definition bestFirst (l : list ArbitrageOpportunity) : Prop :=
  StronglySorted
    (fun a b => nge (arbitragePercentage a) (arbitragePercentage b) = true) l.

End Shape.
Import Shape.

Module Entry.

(** The body of the single-best loop of [calculateArbitrage]. *)
Definition collectSingle (oddsData : OddsData) (names : list string)
  (found : list ArbitrageOpportunity) (marketId : string)
  : result (list ArbitrageOpportunity) :=
  opportunity <- Core.analyzeMarket marketId oddsData names ;;
  match opportunity with
  | Some o => Ok (found ++ [o])%list
  | None => Ok found
  end.

(** The options [calculateArbitrage] passes to [analyzeMarketTopK]. *)
Definition entryOptions (topk : option Z) : AnalyzeOptions :=
  mkOptions (Some (Core.orDefault topk 3)) (Some 20%Z) true true.

(** The body of its top-K loop. *)
Definition collectTopK (oddsData : OddsData) (names : list string) (topk : option Z)
  (found : list ArbitrageOpportunity) (marketId : string)
  : result (list ArbitrageOpportunity) :=
  opportunity <- Core.analyzeMarketTopK marketId oddsData names (entryOptions topk) ;;
  if (0 <? List.length opportunity)%nat
  then Ok (found ++ opportunity)%list
  else Ok found.

End Entry.
Import Entry.

(* ================================================================= *)
(** ** Finite numbers and decimal rounding *)

Module NumFacts.

Lemma is_fin_Fin (q : Q) : is_fin (Fin q) q.
Proof. exists q; split; [reflexivity | apply Qeq_refl]. Qed.

Lemma is_fin_eq (a : num) (p q : Q) : is_fin a p -> p == q -> is_fin a q.
Proof.
  intros (x & -> & Hx) Hpq. exists x; split; [reflexivity|].
  now rewrite Hx.
Qed.

Lemma is_fin_unique (a : num) (p q : Q) : is_fin a p -> is_fin a q -> p == q.
Proof.
  intros (x & -> & Hx) (y & Hy & Hq). injection Hy as <-.
  now rewrite <- Hx, <- Hq.
Qed.

Lemma nadd_fin (a b : num) (p q : Q) :
  is_fin a p -> is_fin b q -> is_fin (nadd a b) (p + q).
Proof.
  intros (x & -> & Hx) (y & -> & Hy). cbn [nadd].
  exists (Qred (x + y)); split; [reflexivity|].
  now rewrite Qred_correct, Hx, Hy.
Qed.

Lemma nsub_fin (a b : num) (p q : Q) :
  is_fin a p -> is_fin b q -> is_fin (nsub a b) (p - q).
Proof.
  intros (x & -> & Hx) (y & -> & Hy). cbn [nsub nadd nneg].
  eexists; split; [reflexivity|].
  now rewrite !Qred_correct, Hx, Hy.
Qed.

Lemma nmul_fin (a b : num) (p q : Q) :
  is_fin a p -> is_fin b q -> is_fin (nmul a b) (p * q).
Proof.
  intros (x & -> & Hx) (y & -> & Hy). cbn [nmul].
  eexists; split; [reflexivity|].
  now rewrite Qred_correct, Hx, Hy.
Qed.

Lemma ndiv_fin (a b : num) (p q : Q) :
  is_fin a p -> is_fin b q -> ~ q == 0 -> is_fin (ndiv a b) (p / q).
Proof.
  intros (x & -> & Hx) (y & -> & Hy) Hq. cbn [ndiv].
  destruct (Qcompare_spec y 0) as [E | L | G].
  - exfalso. apply Hq. now rewrite <- Hy.
  - eexists; split; [reflexivity|]. now rewrite Qred_correct, Hx, Hy.
  - eexists; split; [reflexivity|]. now rewrite Qred_correct, Hx, Hy.
Qed.

Lemma qlt_true (x y : Q) : qlt x y = true <-> x < y.
Proof.
  unfold qlt. rewrite Qlt_alt. destruct (x ?= y); split; congruence.
Qed.

Lemma nlt_fin (a b : num) (p q : Q) :
  is_fin a p -> is_fin b q -> (nlt a b = true <-> p < q).
Proof.
  intros (x & -> & Hx) (y & -> & Hy). cbn [nlt].
  rewrite <- Hx, <- Hy, Qlt_alt. destruct (x ?= y); split; congruence.
Qed.

Lemma nge_fin (a b : num) (p q : Q) :
  is_fin a p -> is_fin b q -> (nge a b = true <-> q <= p).
Proof.
  intros (x & -> & Hx) (y & -> & Hy). cbn [nge].
  rewrite <- Hx, <- Hy, Qge_alt. destruct (x ?= y); split; congruence.
Qed.

Lemma nge_false_fin (a b : num) (p q : Q) :
  is_fin a p -> is_fin b q -> (nge a b = false <-> p < q).
Proof.
  intros Ha Hb. pose proof (nge_fin a b p q Ha Hb) as H.
  destruct (nge a b); split; intro K; try congruence.
  - apply Qlt_not_le in K. exfalso. apply K, H. reflexivity.
  - apply Qnot_le_lt. intro L. apply H in L. discriminate.
Qed.

Lemma unit10_pos (d : nat) : 0 < unit10 d.
Proof.
  unfold unit10, pow10. change 0 with (inject_Z 0). rewrite <- Zlt_Qlt.
  apply Z.pow_pos_nonneg; lia.
Qed.

Lemma half_ulp_pos (d : nat) : 0 < half_ulp d.
Proof.
  unfold half_ulp. pose proof (Qinv_lt_0_compat _ (unit10_pos d)). nra.
Qed.

Lemma round_half_up_eq (d : nat) (x : Q) :
  round_half_up d x == inject_Z (Qfloor (x * unit10 d + (1 # 2))) * / unit10 d.
Proof. unfold round_half_up. rewrite Qred_correct. reflexivity. Qed.

Lemma round_half_up_upper (d : nat) (x : Q) :
  round_half_up d x <= x + half_ulp d.
Proof.
  rewrite round_half_up_eq. unfold half_ulp.
  pose proof (unit10_pos d) as Hc.
  pose proof (Qinv_lt_0_compat _ Hc) as Hi.
  pose proof (Qfloor_le (x * unit10 d + (1 # 2))) as Hf.
  apply Qmult_le_compat_r with (z := / unit10 d) in Hf; [|lra].
  setoid_replace ((x * unit10 d + (1 # 2)) * / unit10 d)
    with (x + (1 # 2) * / unit10 d) in Hf by (field; lra).
  exact Hf.
Qed.

Lemma round_half_up_lower (d : nat) (x : Q) :
  x - half_ulp d < round_half_up d x.
Proof.
  rewrite round_half_up_eq. unfold half_ulp.
  pose proof (unit10_pos d) as Hc.
  pose proof (Qinv_lt_0_compat _ Hc) as Hi.
  pose proof (Qlt_floor (x * unit10 d + (1 # 2))) as Hf.
  rewrite inject_Z_plus in Hf. change (inject_Z 1) with 1 in Hf.
  apply Qmult_lt_compat_r with (z := / unit10 d) in Hf; [|lra].
  setoid_replace ((x * unit10 d + (1 # 2)) * / unit10 d)
    with (x + (1 # 2) * / unit10 d) in Hf by (field; lra).
  lra.
Qed.

Lemma roundQ_nonneg_eq (d : nat) (x : Q) :
  0 <= x -> roundQ d x = round_half_up d x.
Proof.
  intros Hx. unfold roundQ.
  destruct (Qcompare_spec x 0) as [E | L | G]; try reflexivity. lra.
Qed.

Lemma roundQ_upper (d : nat) (x : Q) : roundQ d x <= x + half_ulp d.
Proof.
  unfold roundQ. destruct (Qcompare_spec x 0) as [E | L | G].
  - apply round_half_up_upper.
  - rewrite Qred_correct. pose proof (round_half_up_lower d (- x)). lra.
  - apply round_half_up_upper.
Qed.

Lemma roundQ_lower (d : nat) (x : Q) : x - half_ulp d <= roundQ d x.
Proof.
  unfold roundQ. destruct (Qcompare_spec x 0) as [E | L | G].
  - pose proof (round_half_up_lower d x). lra.
  - rewrite Qred_correct. pose proof (round_half_up_upper d (- x)). lra.
  - pose proof (round_half_up_lower d x). lra.
Qed.

Lemma round_half_up_compat (d : nat) (x y : Q) :
  x == y -> round_half_up d x = round_half_up d y.
Proof.
  intros H. unfold round_half_up. apply Qred_complete.
  rewrite (Qfloor_comp (x * inject_Z (pow10 d) + (1 # 2))
                       (y * inject_Z (pow10 d) + (1 # 2))); [reflexivity|].
  now rewrite H.
Qed.

Lemma roundQ_compat (d : nat) (x y : Q) : x == y -> roundQ d x = roundQ d y.
Proof.
  intros H. unfold roundQ. rewrite (Qcompare_comp x y H 0 0 (Qeq_refl 0)).
  destruct (y ?= 0).
  - now apply round_half_up_compat.
  - apply Qred_complete.
    rewrite (round_half_up_compat d (- x) (- y)); [reflexivity|]. now rewrite H.
  - now apply round_half_up_compat.
Qed.

Lemma round_half_up_nonneg (d : nat) (x : Q) : 0 <= x -> 0 <= round_half_up d x.
Proof.
  intros Hx. rewrite round_half_up_eq.
  pose proof (unit10_pos d) as Hc.
  pose proof (Qinv_lt_0_compat _ Hc) as Hi.
  assert (0 <= Qfloor (x * unit10 d + (1 # 2)))%Z as Hz.
  { rewrite <- (Qfloor_Z 0). apply Qfloor_resp_le. change (inject_Z 0) with 0.
    assert (0 <= x * unit10 d) by (apply Qmult_le_0_compat; lra). lra. }
  apply Qmult_le_0_compat; [|lra].
  change 0 with (inject_Z 0). now rewrite <- Zle_Qle.
Qed.

Lemma roundQ_nonneg (d : nat) (x : Q) : 0 <= x -> 0 <= roundQ d x.
Proof.
  intros Hx. rewrite roundQ_nonneg_eq by exact Hx. now apply round_half_up_nonneg.
Qed.

(** A multiple of the unit is its own rounding. *)
Lemma round_half_up_multiple (d : nat) (z : Z) :
  round_half_up d (inject_Z z * / unit10 d) == inject_Z z * / unit10 d.
Proof.
  rewrite round_half_up_eq.
  pose proof (unit10_pos d) as Hc.
  assert (E : inject_Z z * / unit10 d * unit10 d + (1 # 2) == inject_Z z + (1 # 2))
    by (field; lra).
  rewrite (Qfloor_comp _ _ E).
  assert (F : Qfloor (inject_Z z + (1 # 2)) = z).
  { pose proof (Qfloor_le (inject_Z z + (1 # 2))) as H1.
    pose proof (Qlt_floor (inject_Z z + (1 # 2))) as H2.
    rewrite inject_Z_plus in H2. change (inject_Z 1) with 1 in H2.
    assert (inject_Z (Qfloor (inject_Z z + (1 # 2))) < inject_Z (z + 1)) as A
      by (rewrite inject_Z_plus; change (inject_Z 1) with 1; lra).
    assert (z <= Qfloor (inject_Z z + (1 # 2)))%Z as B.
    { rewrite <- (Qfloor_Z z) at 1. apply Qfloor_resp_le. lra. }
    rewrite <- Zlt_Qlt in A. lia. }
  rewrite F. reflexivity.
Qed.

Lemma round_half_up_is_multiple (d : nat) (x : Q) :
  exists z, (0 <= x -> (0 <= z)%Z) /\ round_half_up d x == inject_Z z * / unit10 d.
Proof.
  exists (Qfloor (x * unit10 d + (1 # 2))). split.
  - intros Hx. rewrite <- (Qfloor_Z 0). apply Qfloor_resp_le.
    pose proof (unit10_pos d). change (inject_Z 0) with 0.
    assert (0 <= x * unit10 d) by (apply Qmult_le_0_compat; lra). lra.
  - apply round_half_up_eq.
Qed.

Lemma half_ulp_2 : half_ulp 2 == 1 # 200.
Proof. vm_compute. reflexivity. Qed.

Lemma half_ulp_4 : half_ulp 4 == 1 # 20000.
Proof. vm_compute. reflexivity. Qed.

Lemma round_half_up_mono (d : nat) (x y : Q) :
  x <= y -> round_half_up d x <= round_half_up d y.
Proof.
  intros H. rewrite !round_half_up_eq.
  pose proof (unit10_pos d) as Hc.
  pose proof (Qinv_lt_0_compat _ Hc) as Hi.
  apply Qmult_le_compat_r; [|lra].
  rewrite <- Zle_Qle. apply Qfloor_resp_le.
  assert (x * unit10 d <= y * unit10 d) by (apply Qmult_le_compat_r; lra).
  lra.
Qed.


End NumFacts.
Import NumFacts.

(* ================================================================= *)
(** ** Sums of rationals *)

Module MathFacts.

Lemma Qsum_app (l1 l2 : list Q) : Qsum (l1 ++ l2) == Qsum l1 + Qsum l2.
Proof.
  unfold Qsum. induction l1 as [|x l1 IH]; cbn [app fold_right].
  - lra.
  - rewrite IH. lra.
Qed.

Lemma Qsum_nonneg (l : list Q) : Forall (fun x => 0 <= x) l -> 0 <= Qsum l.
Proof.
  unfold Qsum. induction 1 as [|x l Hx _ IH]; cbn [fold_right]; cbv beta in *; lra.
Qed.

Lemma Qsum_pos (l : list Q) : l <> [] -> Forall (fun x => 0 < x) l -> 0 < Qsum l.
Proof.
  intros Hne H. destruct H as [|x l Hx Hl]; [congruence|].
  assert (0 <= Qsum l).
  { apply Qsum_nonneg. eapply Forall_impl; [|exact Hl]. intros; cbv beta in *; lra. }
  unfold Qsum in *. cbn [fold_right]. cbv beta in Hx. lra.
Qed.

Lemma Qsum_scale (l : list Q) (c : Q) :
  Qsum (map (fun x => x * c) l) == Qsum l * c.
Proof.
  unfold Qsum. induction l as [|x l IH]; cbn [map fold_right]; [lra|].
  rewrite IH. lra.
Qed.

(** Two families of numbers that stay within [e] of one another have sums
    within [n * e]. *)
Lemma Qsum_close (f g : Q -> Q) (e : Q) (l : list Q) :
  (forall x, In x l -> f x - g x <= e /\ g x - f x <= e) ->
  Qsum (map f l) - Qsum (map g l) <= count (List.length l) * e /\
  Qsum (map g l) - Qsum (map f l) <= count (List.length l) * e.
Proof.
  unfold count, Qsum. induction l as [|x l IH]; intros H.
  - cbn [map fold_right List.length]. change (inject_Z (Z.of_nat 0)) with 0. lra.
  - cbn [map fold_right List.length].
    rewrite Nat2Z.inj_succ, <- Z.add_1_r, inject_Z_plus.
    change (inject_Z 1) with 1.
    destruct (H x (or_introl eq_refl)) as [H1 H2].
    destruct IH as [I1 I2]; [intros y Hy; apply H; now right|].
    split; lra.
Qed.

Lemma multiple_0 (d : nat) : multiple d 0.
Proof. exists 0%Z. split; [lia|]. change (inject_Z 0) with 0. lra. Qed.

Lemma multiple_plus (d : nat) (p q : Q) :
  multiple d p -> multiple d q -> multiple d (p + q).
Proof.
  intros (a & Ha & Hp) (b & Hb & Hq). exists (a + b)%Z. split; [lia|].
  rewrite inject_Z_plus, Hp, Hq. lra.
Qed.

Lemma multiple_nonneg (d : nat) (q : Q) : multiple d q -> 0 <= q.
Proof.
  intros (z & Hz & ->). apply Qmult_le_0_compat.
  - change 0 with (inject_Z 0). now rewrite <- Zle_Qle.
  - pose proof (Qinv_lt_0_compat _ (unit10_pos d)). lra.
Qed.

Lemma multiple_sum (d : nat) (l : list Q) :
  Forall (multiple d) l -> multiple d (Qsum l).
Proof.
  unfold Qsum. induction 1 as [|x l Hx _ IH]; cbn [fold_right].
  - apply multiple_0.
  - now apply multiple_plus.
Qed.

Lemma roundQ_of_nonneg_multiple (d : nat) (x : Q) :
  0 <= x -> multiple d (roundQ d x).
Proof.
  intros Hx. rewrite roundQ_nonneg_eq by exact Hx.
  destruct (round_half_up_is_multiple d x) as (z & Hz & E).
  exists z. split; [now apply Hz | exact E].
Qed.

(** Rounding leaves a multiple of the unit as it is. *)
Lemma roundQ_multiple (d : nat) (q : Q) : multiple d q -> roundQ d q == q.
Proof.
  intros H. pose proof (multiple_nonneg d q H) as Hq.
  destruct H as (z & Hz & E).
  rewrite (roundQ_compat d q _ E).
  rewrite roundQ_nonneg_eq.
  - rewrite round_half_up_multiple. now rewrite E.
  - rewrite <- E. exact Hq.
Qed.

Lemma impliedAt4_multiple (p : Q) : 0 < p -> multiple 4 (impliedAt4 p).
Proof.
  intros Hp. apply roundQ_of_nonneg_multiple.
  pose proof (Qinv_lt_0_compat _ Hp). lra.
Qed.

Lemma roundedTotal_multiple (prices : list Q) :
  positive prices -> multiple 4 (roundedTotal prices).
Proof.
  intros H. apply multiple_sum. apply Forall_map.
  eapply Forall_impl; [|exact H]. intros p Hp. now apply impliedAt4_multiple.
Qed.

Lemma roundedTotal_nonneg (prices : list Q) :
  positive prices -> 0 <= roundedTotal prices.
Proof. intros H. eapply multiple_nonneg, roundedTotal_multiple, H. Qed.

Lemma impliedTotal_pos (prices : list Q) :
  prices <> [] -> positive prices -> 0 < impliedTotal prices.
Proof.
  intros Hne H. apply Qsum_pos.
  - destruct prices; [congruence | discriminate].
  - apply Forall_map. eapply Forall_impl; [|exact H].
    intros p Hp. now apply Qinv_lt_0_compat.
Qed.


(** The rounded total stays within [n * 0.00005] of the exact one. *)
Lemma roundedTotal_close (prices : list Q) :
  roundedTotal prices - impliedTotal prices <= count (List.length prices) * half_ulp 4 /\
  impliedTotal prices - roundedTotal prices <= count (List.length prices) * half_ulp 4.
Proof.
  apply (Qsum_close impliedAt4 Qinv). intros p _. unfold impliedAt4.
  pose proof (roundQ_upper 4 (/ p)). pose proof (roundQ_lower 4 (/ p)).
  split; lra.
Qed.

Lemma Qsum_shares (xs : list Q) (T : Q) :
  Qsum (map (fun x => stakePercent x T) xs) == Qsum xs * (/ T * 100).
Proof.
  unfold Qsum, stakePercent. induction xs as [|x xs IH]; cbn [map fold_right].
  - ring.
  - rewrite IH. unfold Qdiv. ring.
Qed.

(** Exact shares of a positive total add up to 100. *)
Lemma shares_sum_100 (xs : list Q) (T : Q) :
  0 < T -> Qsum xs == T -> Qsum (map (fun x => stakePercent x T) xs) == 100.
Proof.
  intros HT E. rewrite Qsum_shares, E. field. lra.
Qed.

Lemma count_nonneg (n : nat) : 0 <= count n.
Proof. unfold count. change 0 with (inject_Z 0). rewrite <- Zle_Qle. lia. Qed.


(** Half a unit of the fourth decimal per outcome is within the band. *)
Lemma half_band (n : nat) : count n * (1 # 20000) <= band n.
Proof. unfold band. pose proof (count_nonneg n). lra. Qed.


End MathFacts.
Import MathFacts.

(* ================================================================= *)
(** ** The evaluators on positive prices *)

Module EvaluatorFacts.

Lemma toFixed_fin (d : nat) (a : num) (q : Q) :
  is_fin a q -> is_fin (toFixed d a) (roundQ d q).
Proof.
  intros (x & -> & Hx). cbn [toFixed]. exists (roundQ d x). split; [reflexivity|].
  rewrite (roundQ_compat d x q Hx). reflexivity.
Qed.

Lemma inverse_fin (p : Q) : 0 < p -> is_fin (ndiv (Fin 1) (Fin p)) (/ p).
Proof.
  intros Hp. eapply is_fin_eq.
  - apply ndiv_fin; [apply is_fin_Fin | apply is_fin_Fin | lra].
  - unfold Qdiv. lra.
Qed.

Lemma fold_nadd_fin (l : list num) (qs : list Q) :
  Forall2 is_fin l qs ->
  forall a q0, is_fin a q0 -> is_fin (fold_left nadd l a) (q0 + Qsum qs).
Proof.
  unfold Qsum. induction 1 as [|x q l qs Hx _ IH]; intros a q0 Ha; cbn [fold_left fold_right].
  - eapply is_fin_eq; [exact Ha | lra].
  - eapply is_fin_eq; [apply IH, nadd_fin; eassumption | lra].
Qed.

Lemma sumNum_fin (l : list num) (qs : list Q) :
  Forall2 is_fin l qs -> is_fin (Core.sumNum l) (Qsum qs).
Proof.
  intros H. unfold Core.sumNum. eapply is_fin_eq.
  - apply (fold_nadd_fin l qs H (Fin 0) 0), is_fin_Fin.
  - lra.
Qed.

Lemma impliedSumOf_fin (combo : list OddsOption) :
  positive (pricesOf combo) ->
  is_fin (Core.impliedSumOf combo) (impliedTotal (pricesOf combo)).
Proof.
  unfold Core.impliedSumOf, impliedTotal, pricesOf, positive, Qsum.
  assert (G : forall a q0, is_fin a q0 ->
            Forall (fun p => 0 < p) (map odds combo) ->
            is_fin (fold_left
                      (fun sum option => nadd sum (ndiv (Fin 1) (Fin (odds option))))
                      combo a)
                   (q0 + fold_right Qplus 0 (map Qinv (map odds combo)))).
  { induction combo as [|o combo IH]; intros a q0 Ha Hpos; cbn [fold_left map fold_right].
    - eapply is_fin_eq; [exact Ha | lra].
    - cbn [map] in Hpos. inversion Hpos as [|? ? Ho Hrest]; subst.
      eapply is_fin_eq.
      + apply IH; [|exact Hrest]. apply nadd_fin; [exact Ha | now apply inverse_fin].
      + lra. }
  intros Hpos. eapply is_fin_eq; [apply (G (Fin 0) 0 (is_fin_Fin 0) Hpos) | lra].
Qed.

Lemma mapi_from_map {A B C : Type} (f : A -> nat -> B) (g : B -> C) (h : A -> C)
  (xs : list A) :
  (forall x i, g (f x i) = h x) ->
  forall i, map g (Core.mapi_from f i xs) = map h xs.
Proof.
  intros H. induction xs as [|x xs IH]; intros i; cbn [Core.mapi_from map].
  - reflexivity.
  - now rewrite H, IH.
Qed.

Lemma mapi_length {A B : Type} (f : A -> nat -> B) (xs : list A) :
  forall i, List.length (Core.mapi_from f i xs) = List.length xs.
Proof.
  induction xs as [|x xs IH]; intros i; cbn [Core.mapi_from List.length].
  - reflexivity.
  - now rewrite IH.
Qed.

Lemma evaluateCombinations_flat (marketId : string) (outcomeIds : list string)
  (combos : list (list OddsOption)) (flag : bool) :
  Core.evaluateCombinations marketId outcomeIds combos flag
  = flat_map (pushed marketId outcomeIds flag) combos.
Proof.
  unfold Core.evaluateCombinations.
  assert (G : forall acc,
    fold_left
      (fun opportunities combo =>
         match Core.evaluateCombination marketId outcomeIds combo flag with
         | Some opportunity => (opportunities ++ [opportunity])%list
         | None => opportunities
         end) combos acc
    = (acc ++ flat_map (pushed marketId outcomeIds flag) combos)%list).
  { induction combos as [|c combos IH]; intros acc; cbn [fold_left flat_map].
    - now rewrite app_nil_r.
    - rewrite IH. unfold pushed at 2.
      destruct (Core.evaluateCombination marketId outcomeIds c flag).
      + now rewrite <- app_assoc.
      + reflexivity. }
  apply (G []).
Qed.

Lemma In_evaluateCombinations (marketId : string) (outcomeIds : list string)
  (combos : list (list OddsOption)) (flag : bool) (o : ArbitrageOpportunity) :
  In o (Core.evaluateCombinations marketId outcomeIds combos flag) <->
  exists combo, In combo combos /\
    Core.evaluateCombination marketId outcomeIds combo flag = Some o.
Proof.
  rewrite evaluateCombinations_flat, in_flat_map. unfold pushed.
  split; intros (combo & Hin & H); exists combo; (split; [exact Hin|]).
  - destruct (Core.evaluateCombination marketId outcomeIds combo flag).
    + destruct H as [->|[]]. reflexivity.
    + destruct H.
  - rewrite H. now left.
Qed.

End EvaluatorFacts.
Import EvaluatorFacts.

Module SingleBest.

Lemma quotes_odds (bestOdds : obj OddsOption) :
  map q_odds (bestQuotes bestOdds) = pricesOfBest bestOdds.
Proof. unfold bestQuotes, pricesOfBest. rewrite map_map. reflexivity. Qed.

Lemma quotes_fin (bestOdds : obj OddsOption) :
  positive (pricesOfBest bestOdds) ->
  Forall2 is_fin (map impliedProbability (bestQuotes bestOdds))
    (map impliedAt4 (pricesOfBest bestOdds)).
Proof.
  unfold bestQuotes, pricesOfBest, positive.
  induction bestOdds as [|e rest IH]; intros H; cbn [map] in *.
  - constructor.
  - inversion H as [|? ? He Hrest]; subst. constructor.
    + cbn [impliedProbability]. unfold roundTo4, impliedAt4.
      now apply toFixed_fin, inverse_fin.
    + now apply IH.
Qed.

Lemma total_fin (bestOdds : obj OddsOption) :
  positive (pricesOfBest bestOdds) ->
  is_fin (roundTo4 (Core.sumNum (map impliedProbability (bestQuotes bestOdds))))
    (roundedTotal (pricesOfBest bestOdds)).
Proof.
  intros H. eapply is_fin_eq.
  - apply toFixed_fin, sumNum_fin, quotes_fin, H.
  - apply roundQ_multiple, roundedTotal_multiple, H.
Qed.

(** What [calculateArbitrageForMarket] returns on positive prices, in
    terms of the rounded total [T] of the prices. *)
Lemma calculate_spec (marketId : string) (bestOdds : obj OddsOption) :
  positive (pricesOfBest bestOdds) ->
  let T := roundedTotal (pricesOfBest bestOdds) in
  (1 <= T /\ Core.calculateArbitrageForMarket marketId bestOdds = None) \/
  (T < 1 /\
   exists o,
     Core.calculateArbitrageForMarket marketId bestOdds = Some o /\
     reportedOdds o = pricesOfBest bestOdds /\
     is_fin (totalImpliedProbability o) T /\
     (0 < T -> is_fin (arbitragePercentage o) (roundQ 2 (profitPercent T))) /\
     (0 < T ->
      Forall2 is_fin (stakes o)
        (map (fun p => roundQ 2 (stakePercent (impliedAt4 p) T))
             (pricesOfBest bestOdds)))).
Proof.
  intros Hpos T.
  pose proof (total_fin bestOdds Hpos) as HT. fold T in HT.
  pose proof (quotes_fin bestOdds Hpos) as HQ.
  unfold Core.calculateArbitrageForMarket. cbv zeta. fold (bestQuotes bestOdds).
  set (total := roundTo4 (Core.sumNum (map impliedProbability (bestQuotes bestOdds)))) in *.
  destruct (nge total (Fin 1)) eqn:E.
  - left. split; [|reflexivity].
    now apply (nge_fin total (Fin 1) T 1 HT (is_fin_Fin 1)).
  - right. split; [now apply (nge_false_fin total (Fin 1) T 1 HT (is_fin_Fin 1))|].
    eexists. split; [reflexivity|].
    unfold reportedOdds, stakes.
    cbn [opp_outcomes totalImpliedProbability arbitragePercentage betDistribution].
    split; [apply quotes_odds|]. split; [exact HT|]. split.
    + intros HT0. unfold roundTo2, profitPercent.
      apply toFixed_fin, nmul_fin; [|apply is_fin_Fin].
      apply ndiv_fin; [|exact HT|lra].
      apply nsub_fin; [apply is_fin_Fin | exact HT].
    + intros HT0. rewrite map_map. cbn [betPercentage].
      clear E. revert HQ. generalize (bestQuotes bestOdds) as qs.
      generalize (pricesOfBest bestOdds) as ps.
      intros ps qs. revert ps.
      induction qs as [|q qs IH]; intros ps HQ; cbn [map] in *.
      * inversion HQ; subst. destruct ps; [constructor | discriminate].
      * destruct ps as [|p ps]; cbn [map] in HQ; inversion HQ; subst.
        cbn [map]. constructor; [|now apply IH].
        unfold roundTo2, stakePercent.
        apply toFixed_fin, nmul_fin; [|apply is_fin_Fin].
        apply ndiv_fin; [assumption | exact HT | lra].
Qed.

End SingleBest.

Module TopK.

Lemma quoteAt_fin (outcomeIds : list string) (combo : list OddsOption) :
  positive (pricesOf combo) ->
  forall i,
    Forall2 is_fin
      (map impliedProbability (Core.mapi_from (quoteAt outcomeIds) i combo))
      (map impliedAt4 (pricesOf combo)).
Proof.
  unfold pricesOf, positive.
  induction combo as [|o combo IH]; intros H i; cbn [map Core.mapi_from] in *.
  - constructor.
  - inversion H as [|? ? Ho Hrest]; subst. constructor.
    + cbn [quoteAt impliedProbability]. unfold impliedAt4.
      now apply toFixed_fin, inverse_fin.
    + now apply IH.
Qed.

(** What the loop body of [evaluateCombinations] pushes for one
    combination of positive prices, in terms of their exact total [S]. *)
Lemma evaluate_spec (marketId : string) (outcomeIds : list string)
  (combo : list OddsOption) (flag : bool) :
  positive (pricesOf combo) ->
  let S := impliedTotal (pricesOf combo) in
  (1 <= S /\ Core.evaluateCombination marketId outcomeIds combo flag = None) \/
  (S < 1 /\
   exists o,
     Core.evaluateCombination marketId outcomeIds combo flag = Some o /\
     reportedOdds o = pricesOf combo /\
     is_fin (totalImpliedProbability o) (roundQ 4 S) /\
     (0 < S -> is_fin (arbitragePercentage o) (roundQ 2 (profitPercent S))) /\
     (flag = false -> betDistribution o = []) /\
     (flag = true -> 0 < S ->
      Forall2 is_fin (stakes o)
        (map (fun p => roundQ 2 (stakePercent (impliedAt4 p) S)) (pricesOf combo)))).
Proof.
  intros Hpos S.
  pose proof (impliedSumOf_fin combo Hpos) as HS. fold S in HS.
  pose proof (quoteAt_fin outcomeIds combo Hpos 0%nat) as HQ.
  unfold Core.evaluateCombination. cbv zeta. unfold Core.mapi.
  fold (quoteAt outcomeIds).
  set (sum := Core.impliedSumOf combo) in *.
  destruct (nlt sum (Fin 1)) eqn:E.
  - right. split; [now apply (nlt_fin sum (Fin 1) S 1 HS (is_fin_Fin 1))|].
    eexists. split; [reflexivity|].
    unfold reportedOdds, stakes.
    cbn [opp_outcomes totalImpliedProbability arbitragePercentage betDistribution].
    split; [|split; [|split; [|split]]].
    + apply mapi_from_map. reflexivity.
    + now apply toFixed_fin.
    + intros HS0. unfold profitPercent.
      apply toFixed_fin, nmul_fin; [|apply is_fin_Fin].
      apply ndiv_fin; [|exact HS|lra].
      apply nsub_fin; [apply is_fin_Fin | exact HS].
    + intros ->. reflexivity.
    + intros -> HS0. rewrite map_map. cbn [betPercentage].
      clear E. revert HQ.
      generalize (Core.mapi_from (quoteAt outcomeIds) 0 combo) as qs.
      generalize (pricesOf combo) as ps.
      intros ps qs. revert ps.
      induction qs as [|q qs IH]; intros ps HQ; cbn [map] in *.
      * inversion HQ; subst. destruct ps; [constructor | discriminate].
      * destruct ps as [|p ps]; cbn [map] in HQ; inversion HQ; subst.
        cbn [map]. constructor; [|now apply IH].
        unfold stakePercent.
        apply toFixed_fin, nmul_fin; [|apply is_fin_Fin].
        apply ndiv_fin; [assumption | exact HS | lra].
  - left. split; [|reflexivity].
    destruct (Qlt_le_dec S 1) as [L|G]; [|exact G].
    apply (nlt_fin sum (Fin 1) S 1 HS (is_fin_Fin 1)) in L. congruence.
Qed.

End TopK.

Module LegacyFacts.

Lemma legacy_quotes_fin (bestOdds : obj OddsOption) :
  positive (pricesOfBest bestOdds) ->
  Forall2 is_fin (map impliedProbability (legacyQuotes bestOdds))
    (map Qinv (pricesOfBest bestOdds)).
Proof.
  unfold legacyQuotes, pricesOfBest, positive.
  induction bestOdds as [|e rest IH]; intros H; cbn [map] in *.
  - constructor.
  - inversion H as [|? ? He Hrest]; subst. constructor.
    + cbn [impliedProbability]. now apply inverse_fin.
    + now apply IH.
Qed.

(** What the earlier evaluator returns on positive prices, in terms of
    their exact total [S]. *)
Lemma legacy_calculate_spec (marketId : string) (bestOdds : obj OddsOption) :
  positive (pricesOfBest bestOdds) ->
  let S := impliedTotal (pricesOfBest bestOdds) in
  (1 <= S /\ Legacy.calculateArbitrageForMarket marketId bestOdds = None) \/
  (S < 1 /\
   exists o,
     Legacy.calculateArbitrageForMarket marketId bestOdds = Some o /\
     is_fin (totalImpliedProbability o) S /\
     (0 < S -> is_fin (arbitragePercentage o) (profitPercent S))).
Proof.
  intros Hpos S.
  pose proof (sumNum_fin _ _ (legacy_quotes_fin bestOdds Hpos)) as HS.
  fold (impliedTotal (pricesOfBest bestOdds)) in HS. fold S in HS.
  unfold Legacy.calculateArbitrageForMarket. cbv zeta. fold (legacyQuotes bestOdds).
  set (total := Core.sumNum (map impliedProbability (legacyQuotes bestOdds))) in *.
  destruct (nge total (Fin 1)) eqn:E.
  - left. split; [|reflexivity].
    now apply (nge_fin total (Fin 1) S 1 HS (is_fin_Fin 1)).
  - right. split; [now apply (nge_false_fin total (Fin 1) S 1 HS (is_fin_Fin 1))|].
    eexists. split; [reflexivity|].
    cbn [totalImpliedProbability arbitragePercentage].
    split; [exact HS|].
    intros HS0. unfold profitPercent.
    apply nmul_fin; [|apply is_fin_Fin].
    apply ndiv_fin; [|exact HS|lra].
    apply nsub_fin; [apply is_fin_Fin | exact HS].
Qed.

End LegacyFacts.

(* ================================================================= *)
(** ** Stake percentages *)

Module StakeFacts.

(** Drift of the rounded shares in single-best mode. *)
Lemma single_best_drift (ps : list Q) :
  positive ps -> 0 < roundedTotal ps ->
  Qabs (Qsum (map (fun p => roundQ 2 (stakePercent (impliedAt4 p) (roundedTotal ps))) ps)
        - 100)
  <= count (List.length ps) * (1 # 200).
Proof.
  intros Hpos HT. set (T := roundedTotal ps) in *.
  pose proof (Qsum_close (fun p => roundQ 2 (stakePercent (impliedAt4 p) T))
                (fun p => stakePercent (impliedAt4 p) T) (half_ulp 2) ps) as [U L].
  { intros p _. cbv beta.
    pose proof (roundQ_upper 2 (stakePercent (impliedAt4 p) T)).
    pose proof (roundQ_lower 2 (stakePercent (impliedAt4 p) T)).
    split; lra. }
  assert (E : Qsum (map (fun p => stakePercent (impliedAt4 p) T) ps) == 100).
  { rewrite <- (map_map impliedAt4 (fun x => stakePercent x T)).
    apply shares_sum_100; [exact HT | reflexivity]. }
  rewrite E, half_ulp_2 in U, L.
  apply Qabs_Qle_condition. split; lra.
Qed.

(** Drift of the rounded shares in top-K mode: the shares are taken from
    the 4-decimal probabilities but divided by the exact total. *)
Lemma top_k_drift (ps : list Q) :
  positive ps -> 0 < impliedTotal ps ->
  Qabs (Qsum (map (fun p => roundQ 2 (stakePercent (impliedAt4 p) (impliedTotal ps))) ps)
        - 100)
  <= count (List.length ps) * ((1 # 200) * (1 + / impliedTotal ps)).
Proof.
  intros Hpos HS. set (S := impliedTotal ps) in *.
  pose proof (Qinv_lt_0_compat _ HS) as Hi.
  pose proof (Qsum_close (fun p => roundQ 2 (stakePercent (impliedAt4 p) S))
                (fun p => stakePercent (/ p) S)
                (half_ulp 2 + half_ulp 4 * (/ S * 100)) ps) as [U L].
  { intros p _. cbv beta.
    pose proof (roundQ_upper 2 (stakePercent (impliedAt4 p) S)) as A.
    pose proof (roundQ_lower 2 (stakePercent (impliedAt4 p) S)) as B.
    pose proof (roundQ_upper 4 (/ p)) as C.
    pose proof (roundQ_lower 4 (/ p)) as D.
    fold (impliedAt4 p) in C, D.
    assert (K : 0 <= / S * 100) by lra.
    assert (X : stakePercent (impliedAt4 p) S - stakePercent (/ p) S
                <= half_ulp 4 * (/ S * 100)).
    { setoid_replace (stakePercent (impliedAt4 p) S - stakePercent (/ p) S)
        with ((impliedAt4 p - / p) * (/ S * 100))
        by (unfold stakePercent, Qdiv; ring).
      apply Qmult_le_compat_r; lra. }
    assert (Y : stakePercent (/ p) S - stakePercent (impliedAt4 p) S
                <= half_ulp 4 * (/ S * 100)).
    { setoid_replace (stakePercent (/ p) S - stakePercent (impliedAt4 p) S)
        with ((/ p - impliedAt4 p) * (/ S * 100))
        by (unfold stakePercent, Qdiv; ring).
      apply Qmult_le_compat_r; lra. }
    split; lra. }
  assert (E : Qsum (map (fun p => stakePercent (/ p) S) ps) == 100).
  { rewrite <- (map_map Qinv (fun x => stakePercent x S)).
    apply shares_sum_100; [exact HS | reflexivity]. }
  rewrite E, half_ulp_2, half_ulp_4 in U, L.
  apply Qabs_Qle_condition.
  setoid_replace ((1 # 200) + (1 # 20000) * (/ S * 100))
    with ((1 # 200) * (1 + / S)) in U by ring.
  setoid_replace ((1 # 200) + (1 # 20000) * (/ S * 100))
    with ((1 # 200) * (1 + / S)) in L by ring.
  split; lra.
Qed.

End StakeFacts.
Import StakeFacts.

(* ================================================================= *)
(** ** The product generator *)

Module CombinatoricsFacts.

Section Product.
Context {T : Type}.

Lemma total_product (arrays : list (list T)) (a : nat) :
  fold_left (fun acc curr => (acc * List.length curr)%nat) arrays a
  = (a * product (sizes arrays))%nat.
Proof.
  revert a. induction arrays as [|l arrays IH]; intros a; cbn [fold_left sizes map product fold_right].
  - lia.
  - rewrite IH. unfold sizes, product. lia.
Qed.

Lemma extend_length (acc : list (list T)) (curr : list T) :
  List.length (extend acc curr) = (List.length acc * List.length curr)%nat.
Proof.
  unfold extend. induction acc as [|a acc IH]; cbn [flat_map List.length].
  - reflexivity.
  - rewrite length_app, length_map, IH. lia.
Qed.

Lemma extend_In (acc : list (list T)) (curr : list T) (c : list T) :
  In c (extend acc curr) <-> exists a b, In a acc /\ In b curr /\ c = (a ++ [b])%list.
Proof.
  unfold extend. rewrite in_flat_map. split.
  - intros (a & Ha & Hc). apply in_map_iff in Hc. destruct Hc as (b & <- & Hb).
    now exists a, b.
  - intros (a & b & Ha & Hb & ->). exists a. split; [exact Ha|].
    apply in_map_iff. now exists b.
Qed.

Lemma cross_length (arrays : list (list T)) (acc : list (list T)) :
  List.length (fold_left extend arrays acc)
  = (List.length acc * product (sizes arrays))%nat.
Proof.
  revert acc. induction arrays as [|l arrays IH]; intros acc;
    cbn [fold_left sizes map product fold_right].
  - lia.
  - rewrite IH, extend_length. unfold sizes, product. lia.
Qed.

Lemma cross_In (arrays : list (list T)) (acc : list (list T)) (c : list T) :
  In c (fold_left extend arrays acc) <->
  exists a t, In a acc /\ choice t arrays /\ c = (a ++ t)%list.
Proof.
  revert acc. induction arrays as [|l arrays IH]; intros acc; cbn [fold_left].
  - split.
    + intros H. exists c, []. repeat split; [exact H | constructor | now rewrite app_nil_r].
    + intros (a & t & Ha & Ht & ->). inversion Ht; subst. now rewrite app_nil_r.
  - rewrite IH. split.
    + intros (a & t & Ha & Ht & ->). apply extend_In in Ha.
      destruct Ha as (a0 & b & Ha0 & Hb & ->).
      exists a0, (b :: t). repeat split; [exact Ha0 | now constructor |].
      now rewrite <- app_assoc.
    + intros (a & t & Ha & Ht & ->). inversion Ht as [|b l' t' arrays' Hb Ht']; subst.
      exists (a ++ [b])%list, t'. repeat split; [|exact Ht'|now rewrite <- app_assoc].
      apply extend_In. now exists a, b.
Qed.

Lemma generate_unfold (arrays : list (list T)) (cap : Z) :
  Core.generateCombinations arrays cap
  = if (cap <? Z.of_nat (product (sizes arrays)))%Z then []
    else fold_left extend arrays [[]].
Proof.
  unfold Core.generateCombinations. cbv zeta. rewrite total_product.
  rewrite Nat.mul_1_l. reflexivity.
Qed.

End Product.

End CombinatoricsFacts.
Import CombinatoricsFacts.

(* ================================================================= *)
(** ** The catalogue and the entry points *)

Module EntryFacts.

(** No market is found when no listed bookmaker carries one. *)
Lemma getAllMarkets_without_markets (oddsData : OddsData) (names : list string) :
  Forall (fun e => markets (snd e) = []) (bookmakerOdds oddsData) ->
  Forall (fun n => get n (bookmakerOdds oddsData) <> None) names ->
  Core.getAllMarkets oddsData names = Ok [].
Proof.
  intros Hempty Hknown. unfold Core.getAllMarkets.
  induction Hknown as [|n names Hn _ IH]; cbn [forEach]; [reflexivity|].
  unfold Core.marketsOf at 1.
  destruct (get n (bookmakerOdds oddsData)) as [b|] eqn:E; [|congruence].
  assert (Hb : markets b = []).
  { clear - E Hempty. induction Hempty as [|[k v] rest Hv _ IH]; cbn [get] in E.
    - discriminate.
    - destruct (String.eqb n k); [injection E as <-; exact Hv | now apply IH]. }
  cbn [bind]. rewrite Hb. cbn [keys map fold_left]. exact IH.
Qed.

Lemma get_of_key {V : Type} (o : obj V) (k : string) :
  In k (keys o) -> get k o <> None.
Proof.
  unfold keys. induction o as [|[k' v] rest IH]; cbn [map In get fst].
  - intros [].
  - intros [->|H].
    + now rewrite String.eqb_refl.
    + destruct (String.eqb k k'); [discriminate | now apply IH].
Qed.

Lemma active_are_known (oddsData : OddsData) :
  Forall (fun n => get n (bookmakerOdds oddsData) <> None)
    (Core.getActiveBookmakers oddsData).
Proof.
  apply Forall_forall. intros n Hn. apply get_of_key.
  unfold Core.getActiveBookmakers in Hn. unfold keys.
  apply in_map_iff in Hn. destruct Hn as (e & <- & He).
  apply filter_In in He. apply in_map, He.
Qed.

Lemma single_outcome_single_best (marketId outcomeId : string) (oddsData : OddsData)
  (activeBookmakers : list string) :
  Core.getMarketOutcomes marketId oddsData activeBookmakers = Ok [outcomeId] ->
  Core.analyzeMarket marketId oddsData activeBookmakers = Ok None.
Proof.
  intros H. unfold Core.analyzeMarket. rewrite H. reflexivity.
Qed.

Lemma topk_10_as_3 (marketId : string) (oddsData : OddsData)
  (activeBookmakers : list string) (r : option Z) (v b : bool) :
  Core.analyzeMarketTopK marketId oddsData activeBookmakers (mkOptions (Some 10%Z) r v b)
  = Core.analyzeMarketTopK marketId oddsData activeBookmakers (mkOptions (Some 3%Z) r v b).
Proof. reflexivity. Qed.

Lemma maxResults_0_as_5 (marketId : string) (oddsData : OddsData)
  (activeBookmakers : list string) (k : option Z) (v b : bool) :
  Core.analyzeMarketTopK marketId oddsData activeBookmakers (mkOptions k (Some 0%Z) v b)
  = Core.analyzeMarketTopK marketId oddsData activeBookmakers (mkOptions k (Some 5%Z) v b).
Proof. reflexivity. Qed.

Lemma firstn_singleton {A : Type} (n : nat) (x : A) :
  (1 <= n)%nat -> firstn n [x] = [x].
Proof. destruct n; [lia|]. intros _. cbn. now rewrite firstn_nil. Qed.

Lemma slice0_nonneg {A : Type} (n : Z) (xs : list A) :
  (0 <= n)%Z -> slice0 n xs = firstn (Z.to_nat n) xs.
Proof. intros H. unfold slice0. destruct (Z.ltb_spec n 0); [lia | reflexivity]. Qed.

Lemma slice0_singleton {A : Type} (n : Z) (x : A) :
  (1 <= n)%Z -> slice0 n [x] = [x].
Proof. intros H. rewrite slice0_nonneg by lia. apply firstn_singleton. lia. Qed.

End EntryFacts.
Import EntryFacts.

(* ================================================================= *)
(** ** The claims of the specification *)




(** C2 (failing input).  On the single-outcome fixture of the test suite
    the market has exactly one outcome; single-best mode returns nothing,
    but top-K mode returns an opportunity of 50%, and the entry point run
    with K = 3 reports it. *)
Theorem C2_single_outcome_top_k_emits :
  Core.getMarketOutcomes "101" singleOutcomeData
    (Core.getActiveBookmakers singleOutcomeData) = Ok ["101"] /\
  Core.analyzeMarket "101" singleOutcomeData
    (Core.getActiveBookmakers singleOutcomeData) = Ok None /\
  Core.analyzeMarketTopK "101" singleOutcomeData
    (Core.getActiveBookmakers singleOutcomeData) Core.defaultOptions
  = Ok [mkOpportunity "101"
          [mkOutcomeQuote (Some "101") "bookmaker1" (3 # 2) (Fin (6667 # 10000))]
          (Fin (6667 # 10000)) (Fin 50) []] /\
  (exists r, IndexTopK.calculateArbitrage singleOutcomeData (Some 3%Z) = Ok r /\
             totalOpportunities (analysis r) = 1%nat).
Proof.
  split; [reflexivity|]. split; [reflexivity|]. split; [vm_compute; reflexivity|].
  eexists. split; vm_compute; reflexivity.
Qed.

(** C3 (failing input).  An active quote of 0.9 is the only one on its
    outcome: single-best selection keeps it, the top-K candidate list does
    not. *)
Theorem C3_single_best_keeps_price_below_one :
  Core.findBestOdds "101" ["101"; "102"] belowEvens ["bookmaker1"]
  = Ok [("101", mkOddsOption "bookmaker1" (9 # 10));
        ("102", mkOddsOption "bookmaker1" (5 # 2))] /\
  Core.buildTopOutcomeOddsMap "101" belowEvens ["bookmaker1"] 3
  = Ok [("101", []); ("102", [mkOddsOption "bookmaker1" (5 # 2)])].
Proof. split; vm_compute; reflexivity. Qed.

(** C4 (as amended).  For candidate lists of sizes [a, b, c, ...],
    [generateCombinations] returns exactly the [a * b * c * ...] assignments
    of the cross product when that product is at most the cap, and no
    assignment at all when the product is above the cap. *)
Theorem C4_cross_product_up_to_cap (T : Type) (arrays : list (list T)) (cap : Z) :
  ((Z.of_nat (product (sizes arrays)) <= cap)%Z ->
   List.length (Core.generateCombinations arrays cap) = product (sizes arrays) /\
   forall c, In c (Core.generateCombinations arrays cap) <-> choice c arrays) /\
  ((cap < Z.of_nat (product (sizes arrays)))%Z ->
   Core.generateCombinations arrays cap = []).
Proof.
  rewrite generate_unfold. split; intros H.
  - destruct (Z.ltb_spec cap (Z.of_nat (product (sizes arrays)))) as [L|_]; [lia|].
    split.
    + rewrite cross_length. cbn [List.length]. lia.
    + intros c. rewrite cross_In. split.
      * intros (a & t & [<-|[]] & Ht & ->). exact Ht.
      * intros Hc. exists [], c. repeat split; [now left | exact Hc].
  - destruct (Z.ltb_spec cap (Z.of_nat (product (sizes arrays)))) as [_|G]; [reflexivity|lia].
Qed.

Lemma C4_cross_product_up_to_cap_witness :
  List.length (Core.generateCombinations [[1; 2]; [3; 4; 5]]%nat 10000) = 6%nat /\
  Core.generateCombinations [[1; 2]; [3; 4; 5]]%nat 5 = [].
Proof.
  pose proof (C4_cross_product_up_to_cap nat [[1; 2]; [3; 4; 5]]%nat 10000) as [A _].
  pose proof (C4_cross_product_up_to_cap nat [[1; 2]; [3; 4; 5]]%nat 5) as [_ B].
  split.
  - apply A. vm_compute. discriminate.
  - apply B. vm_compute. reflexivity.
Defined.

(** C4 (counterexample).  Lists of sizes 2 and 3 with a cap of exactly 6:
    the product is at the cap and all 6 assignments are returned. *)
Lemma C4_counterexample :
  product (sizes [[1; 2]; [3; 4; 5]]%nat) = 6%nat /\
  Core.generateCombinations [[1; 2]; [3; 4; 5]]%nat 6
  = [[1; 3]; [1; 4]; [1; 5]; [2; 3]; [2; 4]; [2; 5]]%nat.
Proof. split; reflexivity. Qed.




(** C6 (as amended).  On positive prices with a non-zero total: in
    single-best mode the stake percentages of an opportunity with [n]
    outcomes add up to 100 within [0.005 * n], hence within 0.05 for up to
    10 outcomes; in top-K mode the stake distribution is empty unless it is
    asked for, and when asked for it adds up to 100 within
    [0.005 * n * (1 + 1 / S)], [S] being the exact total implied
    probability. *)
Theorem C6_stake_sum_drift (marketId : string) (bestOdds : obj OddsOption)
  (outcomeIds : list string) (combo : list OddsOption) :
  positive (pricesOfBest bestOdds) ->
  positive (pricesOf combo) ->
  (forall o, Core.calculateArbitrageForMarket marketId bestOdds = Some o ->
     0 < roundedTotal (reportedOdds o) ->
     exists s, is_fin (stakeSum o) s /\
       Qabs (s - 100) <= count (List.length (opp_outcomes o)) * (1 # 200)) /\
  (forall o, Core.evaluateCombination marketId outcomeIds combo false = Some o ->
     betDistribution o = []) /\
  (forall o, Core.evaluateCombination marketId outcomeIds combo true = Some o ->
     0 < impliedTotal (reportedOdds o) ->
     exists s, is_fin (stakeSum o) s /\
       Qabs (s - 100) <=
       count (List.length (opp_outcomes o))
       * ((1 # 200) * (1 + / impliedTotal (reportedOdds o)))).
Proof.
  intros Hbest Hcombo. split; [|split].
  - intros o Ho.
    destruct (SingleBest.calculate_spec marketId bestOdds Hbest)
      as [[_ Hnone] | (_ & o' & Hsome & Hodds & _ & _ & Hst)]; [congruence|].
    rewrite Hsome in Ho. injection Ho as <-.
    assert (Hlen : List.length (opp_outcomes o') = List.length (pricesOfBest bestOdds)).
    { rewrite <- Hodds. unfold reportedOdds. now rewrite length_map. }
    rewrite Hodds, Hlen. intros HT. eexists. split.
    + apply sumNum_fin, Hst, HT.
    + now apply single_best_drift.
  - intros o Ho.
    destruct (TopK.evaluate_spec marketId outcomeIds combo false Hcombo)
      as [[_ Hnone] | (_ & o' & Hsome & _ & _ & _ & Hoff & _)]; [congruence|].
    rewrite Hsome in Ho. injection Ho as <-. now apply Hoff.
  - intros o Ho.
    destruct (TopK.evaluate_spec marketId outcomeIds combo true Hcombo)
      as [[_ Hnone] | (_ & o' & Hsome & Hodds & _ & _ & _ & Hst)]; [congruence|].
    rewrite Hsome in Ho. injection Ho as <-.
    assert (Hlen : List.length (opp_outcomes o') = List.length (pricesOf combo)).
    { rewrite <- Hodds. unfold reportedOdds. now rewrite length_map. }
    rewrite Hodds, Hlen. intros HS. eexists. split.
    + apply sumNum_fin, Hst; [reflexivity | exact HS].
    + now apply top_k_drift.
Qed.

Lemma C6_stake_sum_drift_witness :
  exists o, Core.calculateArbitrageForMarket "101" twoThrees = Some o /\
    exists s, is_fin (stakeSum o) s /\ Qabs (s - 100) <= 2 * (1 # 200).
Proof.
  assert (P1 : positive (pricesOfBest twoThrees)) by (repeat constructor).
  assert (P2 : positive (pricesOf twoThreesCombo)) by (repeat constructor).
  eexists. split; [vm_compute; reflexivity|].
  refine (proj1 (C6_stake_sum_drift "101" twoThrees ["1"; "2"] twoThreesCombo P1 P2)
            _ _ _); vm_compute; reflexivity.
Defined.

(** C6 (counterexample).  Eighteen outcomes at 20.0 give, in single-best
    mode, eighteen stakes of 5.56 that add up to 100.08; two outcomes at
    30.0 give, in top-K mode with the distribution asked for, two stakes of
    49.95 that add up to 99.90; and without asking for it the distribution
    is empty and adds up to 0. *)
Lemma C6_counterexample :
  (exists o, Core.calculateArbitrageForMarket "101" eighteenAtTwenty = Some o /\
     stakeSum o = Fin (2502 # 25) /\ ~ Qabs ((2502 # 25) - 100) <= 5 # 100) /\
  (exists o, Core.evaluateCombination "101" ["1"; "2"] twoThirties true = Some o /\
     stakeSum o = Fin (999 # 10) /\ ~ Qabs ((999 # 10) - 100) <= 5 # 100) /\
  (exists o, Core.evaluateCombination "101" ["1"; "2"] twoThirties false = Some o /\
     stakeSum o = Fin 0 /\ ~ Qabs (0 - 100) <= 5 # 100).
Proof.
  split; [|split]; eexists; (split; [vm_compute; reflexivity|]);
    (split; [vm_compute; reflexivity | vm_compute; intros H; now apply H]).
Qed.

(** C7 (failing input).  With two bookmakers pricing both outcomes above
    2, four combinations are opportunities: [maxResults = 0] returns all
    four, as [maxResults = 5] does, and [maxResults = 1] returns one. *)
Theorem C7_maxResults_zero_is_five :
  (exists found,
     Core.analyzeMarketTopK "101" generous (Core.getActiveBookmakers generous)
       (withLimits (Some 3%Z) (Some 0%Z)) = Ok found /\
     Core.analyzeMarketTopK "101" generous (Core.getActiveBookmakers generous)
       (withLimits (Some 3%Z) (Some 5%Z)) = Ok found /\
     List.length found = 4%nat) /\
  (exists found,
     Core.analyzeMarketTopK "101" generous (Core.getActiveBookmakers generous)
       (withLimits (Some 3%Z) (Some 1%Z)) = Ok found /\
     List.length found = 1%nat).
Proof.
  split; eexists.
  - split; [vm_compute; reflexivity|]. split; vm_compute; reflexivity.
  - split; vm_compute; reflexivity.
Qed.

(** C8 (as amended).  With a non-empty bookmaker mapping, both entry
    points complete without an exception: when no bookmaker is active the
    report counts zero markets, zero active bookmakers and zero
    opportunities; when no bookmaker carries any market it counts zero
    markets and zero opportunities, and the active bookmakers there are.
    With an empty bookmaker mapping both raise "Arbitrage calculation
    failed: No bookmaker odds data available...". *)
Theorem C8_empty_input (oddsData : OddsData) (topk : option Z) :
  (bookmakerOdds oddsData <> [] ->
   Core.getActiveBookmakers oddsData = [] ->
   Index.calculateArbitrage oddsData = Ok (report oddsData [] [] []) /\
   IndexTopK.calculateArbitrage oddsData topk = Ok (report oddsData [] [] [])) /\
  (bookmakerOdds oddsData <> [] ->
   Forall (fun e => markets (snd e) = []) (bookmakerOdds oddsData) ->
   Index.calculateArbitrage oddsData
   = Ok (report oddsData [] (Core.getActiveBookmakers oddsData) []) /\
   IndexTopK.calculateArbitrage oddsData topk
   = Ok (report oddsData [] (Core.getActiveBookmakers oddsData) [])) /\
  (bookmakerOdds oddsData = [] ->
   Index.calculateArbitrage oddsData
   = Throw ("Arbitrage calculation failed: " ++ noBookmakerOdds) /\
   IndexTopK.calculateArbitrage oddsData topk
   = Throw ("Arbitrage calculation failed: " ++ noBookmakerOdds)).
Proof.
  unfold Index.calculateArbitrage, IndexTopK.calculateArbitrage.
  split; [|split].
  - intros Hne Hnone. rewrite Hnone.
    destruct (bookmakerOdds oddsData) as [|e rest]; [congruence|].
    cbn [keys map List.length Nat.eqb]. cbn [Core.getAllMarkets forEach bind].
    destruct (IndexTopK.useTopK topk); split; reflexivity.
  - intros Hne Hempty.
    rewrite (getAllMarkets_without_markets oddsData _ Hempty (active_are_known oddsData)).
    destruct (bookmakerOdds oddsData) as [|e rest]; [congruence|].
    cbn [keys map List.length Nat.eqb]. cbn [forEach bind].
    destruct (IndexTopK.useTopK topk); split; reflexivity.
  - intros ->. split; reflexivity.
Qed.

Lemma C8_empty_input_witness :
  (Index.calculateArbitrage inactiveOnly = Ok (report inactiveOnly [] [] []) /\
   IndexTopK.calculateArbitrage inactiveOnly (Some 3%Z)
   = Ok (report inactiveOnly [] [] [])) /\
  (Index.calculateArbitrage activeWithoutMarkets
   = Ok (report activeWithoutMarkets [] ["bookmaker1"] [])) /\
  (Index.calculateArbitrage emptySnapshot
   = Throw ("Arbitrage calculation failed: " ++ noBookmakerOdds)).
Proof.
  split; [|split].
  - apply (proj1 (C8_empty_input inactiveOnly (Some 3%Z))); [discriminate | reflexivity].
  - apply (proj1 (proj2 (C8_empty_input activeWithoutMarkets None))); [discriminate|].
    repeat constructor.
  - apply (proj2 (proj2 (C8_empty_input emptySnapshot None))). reflexivity.
Defined.

(** C8 (counterexample).  A snapshot whose bookmaker mapping is empty
    makes both entry points raise an exception; and a snapshot with no
    market at all but one active bookmaker is reported with one active
    bookmaker, not zero. *)
Lemma C8_counterexample :
  Index.calculateArbitrage emptySnapshot
  = Throw "Arbitrage calculation failed: No bookmaker odds data available. The fixture may have finished or not started yet." /\
  IndexTopK.calculateArbitrage emptySnapshot None
  = Throw "Arbitrage calculation failed: No bookmaker odds data available. The fixture may have finished or not started yet." /\
  (exists r, Index.calculateArbitrage activeWithoutMarkets = Ok r /\
             analyzedMarkets (analysis r) = 0%nat /\
             totalActiveBookmakers (analysis r) = 1%nat).
Proof.
  split; [reflexivity|]. split; [reflexivity|].
  eexists. split; [reflexivity|]. split; reflexivity.
Qed.

(** C9 (as amended).  The two evaluators are not equivalent.  On positive
    prices for [n] outcomes they agree on whether an opportunity exists as
    soon as the exact total [S] is not within [n * 0.0001] of 1: both
    produce one when [S < 1 - n * 0.0001], neither does when
    [S >= 1 + n * 0.0001].  Nothing is said of totals nearer to 1, nor of
    the percentages. *)
Theorem C9_variants_agree_off_the_threshold (marketId : string)
  (bestOdds : obj OddsOption) :
  positive (pricesOfBest bestOdds) ->
  let S := impliedTotal (pricesOfBest bestOdds) in
  (S < 1 - band (List.length bestOdds) ->
   exists o o',
     Core.calculateArbitrageForMarket marketId bestOdds = Some o /\
     Legacy.calculateArbitrageForMarket marketId bestOdds = Some o') /\
  (1 + band (List.length bestOdds) <= S ->
   Core.calculateArbitrageForMarket marketId bestOdds = None /\
   Legacy.calculateArbitrageForMarket marketId bestOdds = None).
Proof.
  intros Hpos S. set (T := roundedTotal (pricesOfBest bestOdds)).
  destruct (roundedTotal_close (pricesOfBest bestOdds)) as [U L].
  fold S T in U, L. unfold pricesOfBest in U, L.
  rewrite length_map, half_ulp_4 in U, L.
  pose proof (half_band (List.length bestOdds)) as Hband.
  split.
  - intros Hlow.
    destruct (SingleBest.calculate_spec marketId bestOdds Hpos)
      as [[Hge _] | (_ & o & Hsome & _)]; [fold T in Hge; lra|].
    destruct (LegacyFacts.legacy_calculate_spec marketId bestOdds Hpos)
      as [[Hge _] | (_ & o' & Hsome' & _)];
      [fold S in Hge; lra|].
    exists o, o'. split; assumption.
  - intros Hhigh.
    destruct (SingleBest.calculate_spec marketId bestOdds Hpos)
      as [[_ Hnone] | (Hlt & _)]; [|fold T in Hlt; lra].
    destruct (LegacyFacts.legacy_calculate_spec marketId bestOdds Hpos)
      as [[_ Hnone'] | (Hlt & _)]; [|fold S in Hlt; lra].
    split; assumption.
Qed.

Lemma C9_variants_agree_off_the_threshold_witness :
  exists o o',
    Core.calculateArbitrageForMarket "101" twoThrees = Some o /\
    Legacy.calculateArbitrageForMarket "101" twoThrees = Some o'.
Proof.
  assert (P : positive (pricesOfBest twoThrees)) by (repeat constructor).
  assert (L : impliedTotal (pricesOfBest twoThrees) < 1 - band (List.length twoThrees))
    by (vm_compute; reflexivity).
  exact (proj1 (C9_variants_agree_off_the_threshold "101" twoThrees P) L).
Defined.

(** C9 (counterexample).  On three outcomes at 3.0 the current evaluator
    produces an opportunity and the earlier one produces none; on two
    outcomes at 3.0 both produce one, the current evaluator with a
    percentage of 50.02 and the earlier one with a percentage below
    50.01. *)
Lemma C9_counterexample :
  ((exists o, Core.calculateArbitrageForMarket "101" threeThrees = Some o) /\
   Legacy.calculateArbitrageForMarket "101" threeThrees = None) /\
  (exists o o',
     Core.calculateArbitrageForMarket "101" twoThrees = Some o /\
     Legacy.calculateArbitrageForMarket "101" twoThrees = Some o' /\
     arbitragePercentage o = Fin (2501 # 50) /\
     nlt (arbitragePercentage o') (Fin (5001 # 100)) = true).
Proof.
  split.
  - split; [eexists|]; vm_compute; reflexivity.
  - do 2 eexists.
    split; [vm_compute; reflexivity|].
    split; [vm_compute; reflexivity|].
    split; vm_compute; reflexivity.
Qed.

(** C10.  [generateCombinations] on no candidate list at all returns the
    one empty assignment (for any cap of at least 1); the sum of its implied
    probabilities is 0; and for a market whose outcome set is empty
    [analyzeMarketTopK] returns one opportunity with no outcomes and a total
    implied probability of 0 (its percentage is infinite). *)
Theorem C10_empty_market_emits (cap : Z) (marketId : string) (oddsData : OddsData)
  (activeBookmakers : list string) (options : AnalyzeOptions) :
  (1 <= cap)%Z ->
  Core.getMarketOutcomes marketId oddsData activeBookmakers = Ok [] ->
  Core.generateCombinations (@nil (list OddsOption)) cap = [[]] /\
  Core.impliedSumOf [] = Fin 0 /\
  Core.analyzeMarketTopK marketId oddsData activeBookmakers options
  = Ok [emptyOpportunity marketId].
Proof.
  intros Hcap H. split; [|split].
  - unfold Core.generateCombinations. cbn [fold_left].
    destruct (Z.ltb_spec cap (Z.of_nat 1)); [lia | reflexivity].
  - reflexivity.
  - unfold Core.analyzeMarketTopK, Core.buildTopOutcomeOddsMap. rewrite H.
    cbn [bind forEach keys map].
    change (Core.generateCombinations [] 10000) with [@nil OddsOption].
    destruct (includeBetDistribution options);
      (unfold Core.evaluateCombinations; cbn [fold_left];
       change (Core.evaluateCombination marketId [] [] _)
         with (Some (emptyOpportunity marketId));
       cbn [app sort fold_right insert];
       rewrite slice0_singleton; [reflexivity | unfold Core.clamp; lia]).
Qed.

Lemma C10_empty_market_emits_witness :
  Core.generateCombinations (@nil (list OddsOption)) 10000 = [[]] /\
  Core.impliedSumOf [] = Fin 0 /\
  Core.analyzeMarketTopK "101" inactiveOnly (Core.getActiveBookmakers inactiveOnly)
    Core.defaultOptions
  = Ok [emptyOpportunity "101"].
Proof.
  apply (C10_empty_market_emits 10000 "101" inactiveOnly
           (Core.getActiveBookmakers inactiveOnly) Core.defaultOptions).
  - vm_compute. discriminate.
  - reflexivity.
Defined.

(* ================================================================= *)
(** ** Beyond the claims: the catalogue, the selections, the analyzers *)

Module JsFacts.

Lemma mem_In (x : string) (s : list string) : mem x s = true <-> In x s.
Proof.
  unfold mem. rewrite existsb_exists. split.
  - intros (y & Hy & E). apply String.eqb_eq in E. now subst.
  - intros H. exists x. split; [exact H | apply String.eqb_refl].
Qed.

Lemma mem_false (x : string) (s : list string) : mem x s = false <-> ~ In x s.
Proof.
  rewrite <- mem_In. destruct (mem x s); split; intros H; congruence.
Qed.

Lemma add_In (s : list string) (x y : string) :
  In y (add s x) <-> In y s \/ y = x.
Proof.
  unfold add. destruct (mem x s) eqn:E.
  - apply mem_In in E. split; [now left | intros [H | ->]; assumption].
  - rewrite in_app_iff. cbn [In]. split.
    + intros [H | [H | []]]; [now left | now right].
    + intros [H | ->]; [now left | right; now left].
Qed.

Lemma add_NoDup (s : list string) (x : string) : NoDup s -> NoDup (add s x).
Proof.
  intros H. unfold add. destruct (mem x s) eqn:E; [exact H|].
  apply NoDup_app; [exact H | repeat constructor; intros [] |].
  intros y Hy [<- | []]. apply mem_In in Hy. congruence.
Qed.

Lemma fold_add_In (l s : list string) (y : string) :
  In y (fold_left add l s) <-> In y s \/ In y l.
Proof.
  revert s. induction l as [|x l IH]; intros s; cbn [fold_left In].
  - tauto.
  - rewrite IH, add_In. split.
    + intros [[H | ->] | H]; auto.
    + intros [H | [<- | H]]; auto.
Qed.

Lemma fold_add_NoDup (l s : list string) : NoDup s -> NoDup (fold_left add l s).
Proof.
  revert s. induction l as [|x l IH]; intros s H; cbn [fold_left].
  - exact H.
  - now apply IH, add_NoDup.
Qed.

Lemma plain_not_proto (k : string) : plain k -> k <> "__proto__".
Proof. intros H ->. vm_compute in H. discriminate. Qed.

Section Objects.
Context {V : Type}.

Lemma get_In (o : obj V) (k : string) (v : V) : get k o = Some v -> In (k, v) o.
Proof.
  induction o as [|[k' v'] rest IH]; cbn [get]; [discriminate|].
  destruct (String.eqb_spec k k') as [->|N].
  - intros [= ->]. now left.
  - intros H. right. now apply IH.
Qed.

Lemma get_None (o : obj V) (k : string) : get k o = None <-> ~ In k (keys o).
Proof.
  unfold keys. induction o as [|[k' v'] rest IH]; cbn [get map In fst].
  - tauto.
  - destruct (String.eqb_spec k k') as [->|N].
    + split; [discriminate | intros H; exfalso; apply H; now left].
    + rewrite IH. split; intros H; [intros [E | K]; [congruence | tauto] | tauto].
Qed.

(** Looking up a key of an object without repeated keys gives the value
    stored with it. *)
Lemma In_get (o : obj V) (k : string) (v : V) :
  NoDup (keys o) -> In (k, v) o -> get k o = Some v.
Proof.
  unfold keys. induction o as [|[k' v'] rest IH]; cbn [map fst get In]; [tauto|].
  intros Hnd [E | H]; inversion Hnd as [|? ? Hk Hrest]; subst.
  - injection E as -> ->. now rewrite String.eqb_refl.
  - destruct (String.eqb_spec k k') as [->|N].
    + exfalso. apply Hk. change k' with (fst (k', v)). now apply in_map.
    + now apply IH.
Qed.

Lemma In_keys (o : obj V) (k : string) (v : V) : In (k, v) o -> In k (keys o).
Proof. intros H. unfold keys. change k with (fst (k, v)). now apply in_map. Qed.

(** Reading a key that is not the name of a member of [Object.prototype]
    gives the own property or [undefined]. *)
Lemma lookup_plain (o : obj V) (k : string) :
  plain k ->
  lookup k o = match get k o with Some v => Own v | None => Missing end.
Proof. unfold plain, lookup. intros ->. reflexivity. Qed.

Lemma lookup_Own (o : obj V) (k : string) (v : V) :
  lookup k o = Own v <-> get k o = Some v.
Proof.
  unfold lookup. destruct (get k o) as [w|].
  - split; intros [= ->]; reflexivity.
  - destruct (mem k prototypeMembers); split; discriminate.
Qed.

(** *** Assignment *)

Lemma overwrite_keys (o : obj V) (k : string) (v : V) :
  keys (overwrite k v o) = keys o.
Proof.
  unfold keys. induction o as [|[k' v'] rest IH]; cbn [overwrite map fst]; [reflexivity|].
  destruct (String.eqb_spec k k') as [->|N]; cbn [map fst]; [reflexivity|].
  now rewrite IH.
Qed.

Lemma overwrite_In (o : obj V) (k k' : string) (v v' : V) :
  In (k', v') (overwrite k v o) -> (k', v') = (k, v) \/ In (k', v') o.
Proof.
  induction o as [|[k0 v0] rest IH]; cbn [overwrite In]; [tauto|].
  destruct (String.eqb k k0); cbn [In].
  - intros [E | H]; [now left | right; now right].
  - intros [E | H]; [right; now left|].
    destruct (IH H) as [E | K]; [now left | right; now right].
Qed.

Lemma place_Permutation (i : N) (k : string) (v : V) (o : obj V) :
  Permutation (place i k v o) ((k, v) :: o).
Proof.
  induction o as [|[k' v'] rest IH]; cbn [place]; [reflexivity|].
  destruct (arrayIndex k') as [j|]; [|reflexivity].
  destruct (j <? i)%N; [|reflexivity].
  rewrite IH. apply perm_swap.
Qed.

(** A new property joins the own properties. *)
Lemma set_fresh (o : obj V) (k : string) (v : V) :
  k <> "__proto__" -> ~ In k (keys o) -> Permutation (set k v o) ((k, v) :: o).
Proof.
  intros Hk Hnew. unfold set.
  destruct (String.eqb_spec k "__proto__") as [E|_]; [contradiction|].
  apply mem_false in Hnew. rewrite Hnew.
  destruct (arrayIndex k) as [i|]; [apply place_Permutation|].
  symmetry. apply Permutation_cons_append.
Qed.

Lemma set_In (o : obj V) (k k' : string) (v v' : V) :
  In (k', v') (set k v o) -> (k', v') = (k, v) \/ In (k', v') o.
Proof.
  unfold set. destruct (String.eqb_spec k "__proto__") as [E|Hk]; [now right|].
  destruct (mem k (keys o)) eqn:M; [apply overwrite_In|].
  apply mem_false in M. intros H.
  assert (P : Permutation (set k v o) ((k, v) :: o)) by now apply set_fresh.
  unfold set in P. destruct (String.eqb_spec k "__proto__") as [E|_]; [contradiction|].
  apply mem_false in M. rewrite M in P.
  apply (Permutation_in _ P) in H. destruct H as [E | H]; [left; now symmetry | now right].
Qed.

Lemma keys_set (o : obj V) (k : string) (v : V) (x : string) :
  In x (keys (set k v o)) <-> (k <> "__proto__" /\ x = k) \/ In x (keys o).
Proof.
  destruct (String.eqb_spec k "__proto__") as [E|Hk].
  - unfold set. rewrite E. cbn [String.eqb Ascii.eqb Bool.eqb]. cbn.
    split; [now right | intros [[K _] | K]; [now destruct K | exact K]].
  - destruct (mem k (keys o)) eqn:M.
    + unfold set. destruct (String.eqb_spec k "__proto__") as [E|_]; [contradiction|].
      rewrite M, overwrite_keys. apply mem_In in M. split.
      * now right.
      * intros [[_ ->] | K]; assumption.
    + apply mem_false in M.
      pose proof (set_fresh o k v Hk M) as P.
      apply (Permutation_map fst) in P. fold (keys (set k v o)) in P.
      cbn [map fst] in P. fold (keys o) in P. split.
      * intros H. apply (Permutation_in _ P) in H.
        destruct H as [<- | H]; [left; now split | now right].
      * intros H. apply (Permutation_in _ (Permutation_sym P)).
        destruct H as [[_ ->] | H]; [now left | now right].
Qed.

Lemma set_NoDup (o : obj V) (k : string) (v : V) :
  NoDup (keys o) -> NoDup (keys (set k v o)).
Proof.
  intros Hnd. destruct (String.eqb_spec k "__proto__") as [E|Hk].
  - unfold set. rewrite E. exact Hnd.
  - destruct (mem k (keys o)) eqn:M.
    + unfold set. destruct (String.eqb_spec k "__proto__") as [E|_]; [contradiction|].
      now rewrite M, overwrite_keys.
    + apply mem_false in M.
      pose proof (set_fresh o k v Hk M) as P.
      apply (Permutation_map fst) in P. fold (keys (set k v o)) in P.
      apply (Permutation_NoDup (Permutation_sym P)). cbn [map fst].
      now constructor.
Qed.

End Objects.

Lemma marketsOf_known (oddsData : OddsData) (n : string) :
  known oddsData n ->
  exists b, get n (bookmakerOdds oddsData) = Some b /\
            Core.marketsOf oddsData n = Ok (markets b).
Proof.
  unfold known, Core.marketsOf. destruct (get n (bookmakerOdds oddsData)) as [b|].
  - intros _. now exists b.
  - congruence.
Qed.

Lemma marketsOf_unknown (oddsData : OddsData) (n : string) :
  ~ known oddsData n -> Core.marketsOf oddsData n = Throw Core.undefined_markets.
Proof.
  unfold known, Core.marketsOf. destruct (get n (bookmakerOdds oddsData)) as [b|].
  - intros H. exfalso. apply H. discriminate.
  - reflexivity.
Qed.

Lemma marketsOf_Ok (oddsData : OddsData) (n : string) (ms : obj Market) :
  Core.marketsOf oddsData n = Ok ms ->
  exists b, get n (bookmakerOdds oddsData) = Some b /\ ms = markets b.
Proof.
  unfold Core.marketsOf. destruct (get n (bookmakerOdds oddsData)) as [b|]; [|discriminate].
  intros [= <-]. now exists b.
Qed.

Lemma known_dec (oddsData : OddsData) (n : string) :
  {known oddsData n} + {~ known oddsData n}.
Proof.
  unfold known. destruct (get n (bookmakerOdds oddsData)).
  - left. discriminate.
  - right. intros H. now apply H.
Qed.

Lemma known_get (oddsData : OddsData) (n : string) (b : Bookmaker) :
  get n (bookmakerOdds oddsData) = Some b -> known oddsData n.
Proof. unfold known. intros ->. discriminate. Qed.

Section Collect.
Variable oddsData : OddsData.
Variable ids : obj Market -> result (list string).

Lemma collect_inv (names acc found : list string) :
  forEach (collect oddsData ids) names acc = Ok found ->
  Forall (reads oddsData ids) names /\
  (NoDup acc -> NoDup found) /\
  (forall x, In x found <->
     In x acc \/
     exists n b l, In n names /\ get n (bookmakerOdds oddsData) = Some b /\
                   ids (markets b) = Ok l /\ In x l).
Proof.
  revert acc. induction names as [|n names IH]; intros acc; cbn [forEach].
  - intros [= <-]. split; [constructor|]. split; [tauto|].
    intros x. split; [now left | intros [K | (n & b & l & [] & _)]; exact K].
  - unfold collect at 1.
    destruct (Core.marketsOf oddsData n) as [ms|msg] eqn:Em; cbn [bind]; [|discriminate].
    apply marketsOf_Ok in Em. destruct Em as (b & Hb & ->).
    destruct (ids (markets b)) as [l|msg] eqn:El; cbn [bind]; [|discriminate].
    intros H. destruct (IH _ H) as (Hr & Hnd & Hin).
    split; [constructor; [now exists b, l | exact Hr]|]. split.
    + intros K. now apply Hnd, fold_add_NoDup.
    + intros x. rewrite Hin, fold_add_In. split.
      * intros [[K | K] | (n' & b' & l' & Hn' & Hb' & Hl' & K)].
        -- now left.
        -- right. exists n, b, l. repeat split; [now left | exact Hb | exact El | exact K].
        -- right. exists n', b', l'. repeat split; [now right | exact Hb' | exact Hl' | exact K].
      * intros [K | (n' & b' & l' & [<- | Hn'] & Hb' & Hl' & K)].
        -- left. now left.
        -- rewrite Hb in Hb'. injection Hb' as <-. rewrite El in Hl'.
           injection Hl' as <-. left. now right.
        -- right. now exists n', b', l'.
Qed.

Lemma collect_ok (names acc : list string) :
  Forall (reads oddsData ids) names ->
  exists found, forEach (collect oddsData ids) names acc = Ok found.
Proof.
  intros H. revert acc. induction H as [|n names (b & l & Hb & Hl) _ IH]; intros acc;
    cbn [forEach].
  - now exists acc.
  - unfold collect at 1, Core.marketsOf. rewrite Hb. cbn [bind]. rewrite Hl. cbn [bind].
    apply IH.
Qed.

Lemma collect_throw (names acc : list string) :
  Exists (fun n => ~ reads oddsData ids n) names ->
  exists msg, forEach (collect oddsData ids) names acc = Throw msg.
Proof.
  intros H. revert acc. induction names as [|n names IH]; intros acc.
  - inversion H.
  - cbn [forEach]. unfold collect at 1.
    destruct (Core.marketsOf oddsData n) as [ms|msg] eqn:Em; cbn [bind]; [|now exists msg].
    apply marketsOf_Ok in Em. destruct Em as (b & Hb & ->).
    destruct (ids (markets b)) as [l|msg] eqn:El; cbn [bind]; [|now exists msg].
    apply IH. inversion H as [? ? Hn | ? ? Ht]; subst; [|exact Ht].
    exfalso. apply Hn. now exists b, l.
Qed.

Lemma collect_unknown (names acc : list string) :
  (forall ms, exists l, ids ms = Ok l) ->
  Exists (fun n => ~ known oddsData n) names ->
  forEach (collect oddsData ids) names acc = Throw Core.undefined_markets.
Proof.
  intros Hids H. revert acc. induction names as [|n names IH]; intros acc.
  - inversion H.
  - cbn [forEach]. unfold collect at 1.
    destruct (known_dec oddsData n) as [K | K].
    + destruct (marketsOf_known oddsData n K) as (b & _ & ->). cbn [bind].
      destruct (Hids (markets b)) as (l & ->). cbn [bind].
      apply IH. inversion H; subst; [contradiction | assumption].
    + now rewrite (marketsOf_unknown oddsData n K).
Qed.

End Collect.

Lemma getAllMarkets_collect (oddsData : OddsData) (names : list string) :
  Core.getAllMarkets oddsData names
  = forEach (collect oddsData (fun ms => Ok (keys ms))) names [].
Proof. reflexivity. Qed.

Lemma getMarketOutcomes_collect (marketId : string) (oddsData : OddsData)
  (names : list string) :
  Core.getMarketOutcomes marketId oddsData names
  = forEach (collect oddsData (outcomeIdsOf marketId)) names [].
Proof.
  unfold Core.getMarketOutcomes. generalize (@nil string) as acc.
  induction names as [|n names IH]; intros acc; cbn [forEach]; [reflexivity|].
  unfold collect at 1, outcomeIdsOf.
  destruct (Core.marketsOf oddsData n) as [ms|m]; cbn [bind]; [|reflexivity].
  destruct (lookup marketId ms); cbn [bind fold_left]; [apply IH | reflexivity | apply IH].
Qed.

(** Being readable for a market, in terms of the loop. *)
Lemma readable_reads (oddsData : OddsData) (marketId n : string) :
  readable oddsData marketId n <->
  exists b l, get n (bookmakerOdds oddsData) = Some b /\
              outcomeIdsOf marketId (markets b) = Ok l.
Proof.
  unfold readable, outcomeIdsOf. split.
  - intros (b & Hb & Hl). exists b.
    destruct (lookup marketId (markets b)); [now eexists | congruence | now eexists].
  - intros (b & l & Hb & Hl). exists b. split; [exact Hb|].
    destruct (lookup marketId (markets b)); congruence.
Qed.

Lemma readable_known (oddsData : OddsData) (marketId n : string) :
  readable oddsData marketId n -> known oddsData n.
Proof. intros (b & Hb & _). now apply known_get with b. Qed.

Lemma readable_plain (oddsData : OddsData) (marketId n : string) :
  plain marketId -> known oddsData n -> readable oddsData marketId n.
Proof.
  intros Hp K. destruct (marketsOf_known oddsData n K) as (b & Hb & _).
  exists b. split; [exact Hb|]. rewrite lookup_plain by exact Hp.
  destruct (get marketId (markets b)); discriminate.
Qed.

End JsFacts.
Import JsFacts.

Module CatalogueFacts.

Lemma active_known (oddsData : OddsData) :
  Forall (known oddsData) (Core.getActiveBookmakers oddsData).
Proof. exact (active_are_known oddsData). Qed.

Lemma active_In (oddsData : OddsData) (n : string) :
  In n (Core.getActiveBookmakers oddsData) <->
  exists b, In (n, b) (bookmakerOdds oddsData) /\ bookmakerIsActive b = true.
Proof.
  unfold Core.getActiveBookmakers. rewrite in_map_iff. split.
  - intros ([n' b] & <- & H). apply filter_In in H. now exists b.
  - intros (b & H & A). exists (n, b). split; [reflexivity|].
    apply filter_In. now split.
Qed.

Lemma active_NoDup (oddsData : OddsData) :
  NoDup (keys (bookmakerOdds oddsData)) -> NoDup (Core.getActiveBookmakers oddsData).
Proof.
  unfold Core.getActiveBookmakers, keys.
  generalize (bookmakerOdds oddsData) as entries.
  intros entries. induction entries as [|[n b] rest IH]; cbn [map filter fst snd].
  - intros _. constructor.
  - intros Hnd. inversion Hnd as [|? ? Hn Hrest]; subst.
    destruct (bookmakerIsActive b); cbn [map fst]; [|now apply IH].
    constructor; [|now apply IH].
    intros K. apply Hn. apply in_map_iff in K. destruct K as (e & Ee & He).
    apply filter_In in He. apply in_map_iff. exists e. tauto.
Qed.

(** What [getMarketOutcomes] has done when it returns. *)
Lemma market_outcomes_inv (marketId : string) (oddsData : OddsData)
  (names outs : list string) :
  Core.getMarketOutcomes marketId oddsData names = Ok outs ->
  Forall (readable oddsData marketId) names /\ NoDup outs /\
  forall x, In x outs <->
    exists n b m, In n names /\ get n (bookmakerOdds oddsData) = Some b /\
                  get marketId (markets b) = Some m /\
                  In x (keys (outcomes m)).
Proof.
  rewrite getMarketOutcomes_collect. intros H.
  apply collect_inv in H. destruct H as (Hr & Hnd & Hin).
  split; [|split].
  - eapply Forall_impl; [|exact Hr]. intros n. apply readable_reads.
  - apply Hnd. constructor.
  - intros x. rewrite Hin. cbn [In]. unfold outcomeIdsOf. split.
    + intros [[] | (n & b & l & Hn & Hb & Hl & K)].
      destruct (lookup marketId (markets b)) as [m| |] eqn:Em; try discriminate.
      * injection Hl as <-. apply lookup_Own in Em. now exists n, b, m.
      * injection Hl as <-. destruct K.
    + intros (n & b & m & Hn & Hb & Hm & K). right.
      exists n, b, (keys (outcomes m)). apply lookup_Own in Hm. rewrite Hm. tauto.
Qed.

Lemma market_outcomes_ok (marketId : string) (oddsData : OddsData)
  (names : list string) :
  Forall (readable oddsData marketId) names ->
  exists outs, Core.getMarketOutcomes marketId oddsData names = Ok outs.
Proof.
  intros H. rewrite getMarketOutcomes_collect. apply collect_ok.
  eapply Forall_impl; [|exact H]. intros n. apply readable_reads.
Qed.

Lemma market_outcomes_throw (marketId : string) (oddsData : OddsData)
  (names : list string) :
  Exists (fun n => ~ readable oddsData marketId n) names ->
  exists msg, Core.getMarketOutcomes marketId oddsData names = Throw msg.
Proof.
  intros H. rewrite getMarketOutcomes_collect. apply collect_throw.
  eapply Exists_impl; [|exact H]. intros n Hn K. apply Hn. now apply readable_reads.
Qed.

Lemma outcomes_ok_known (marketId : string) (oddsData : OddsData)
  (names outs : list string) :
  Core.getMarketOutcomes marketId oddsData names = Ok outs ->
  Forall (known oddsData) names /\ NoDup outs.
Proof.
  intros H. apply market_outcomes_inv in H. destruct H as (Hr & Hnd & _).
  split; [|exact Hnd]. eapply Forall_impl; [|exact Hr].
  intros n. apply readable_known.
Qed.

(** In a snapshot whose ids are plain, so are the markets and the outcomes
    that the catalogue functions find. *)
Lemma snapshot_market_plain (oddsData : OddsData) (n k : string) (b : Bookmaker) :
  plainSnapshot oddsData ->
  get n (bookmakerOdds oddsData) = Some b -> In k (keys (markets b)) -> plain k.
Proof.
  unfold plainSnapshot. rewrite Forall_forall. intros Hp Hb Hk.
  apply get_In in Hb. specialize (Hp _ Hb). cbn [snd] in Hp.
  rewrite Forall_forall in Hp. unfold keys in Hk. apply in_map_iff in Hk.
  destruct Hk as (me & <- & Hme). now apply Hp.
Qed.

Lemma snapshot_outcome_plain (oddsData : OddsData) (n marketId x : string)
  (b : Bookmaker) (m : Market) :
  plainSnapshot oddsData ->
  get n (bookmakerOdds oddsData) = Some b -> get marketId (markets b) = Some m ->
  In x (keys (outcomes m)) -> plain x.
Proof.
  unfold plainSnapshot. rewrite Forall_forall. intros Hp Hb Hm Hx.
  apply get_In in Hb. specialize (Hp _ Hb). cbn [snd] in Hp.
  rewrite Forall_forall in Hp. apply get_In in Hm. specialize (Hp _ Hm).
  cbn [fst snd] in Hp. destruct Hp as [_ Hp]. rewrite Forall_forall in Hp.
  unfold keys in Hx. apply in_map_iff in Hx. destruct Hx as (oe & <- & Hoe).
  now apply Hp.
Qed.

Lemma outcomes_plain (marketId : string) (oddsData : OddsData)
  (names outs : list string) :
  plainSnapshot oddsData ->
  Core.getMarketOutcomes marketId oddsData names = Ok outs -> Forall plain outs.
Proof.
  intros Hp H. apply market_outcomes_inv in H. destruct H as (_ & _ & Hin).
  apply Forall_forall. intros x Hx. apply Hin in Hx.
  destruct Hx as (n & b & m & _ & Hb & Hm & K).
  exact (snapshot_outcome_plain oddsData n marketId x b m Hp Hb Hm K).
Qed.

End CatalogueFacts.
Import CatalogueFacts.

Lemma active_bookmakers_spec (oddsData : OddsData) :
  NoDup (keys (bookmakerOdds oddsData)) ->
  NoDup (Core.getActiveBookmakers oddsData) /\
  forall n, In n (Core.getActiveBookmakers oddsData) <->
            exists b, get n (bookmakerOdds oddsData) = Some b /\
                      bookmakerIsActive b = true.
Proof.
  intros Hnd. split.
  - now apply active_NoDup.
  - intros n. rewrite active_In. split; intros (b & H & A); exists b; split; auto.
    + now apply In_get.
    + now apply get_In.
Qed.

(** X1.  In a snapshot without repeated bookmaker names,
    [getActiveBookmakers] returns each name once, and a name is returned
    exactly when looking it up gives a bookmaker whose activity flag is
    set. *)
Theorem X1_active_bookmakers (oddsData : OddsData) :
  NoDup (keys (bookmakerOdds oddsData)) ->
  NoDup (Core.getActiveBookmakers oddsData) /\
  forall n, In n (Core.getActiveBookmakers oddsData) <->
            exists b, get n (bookmakerOdds oddsData) = Some b /\
                      bookmakerIsActive b = true.
Proof. exact (active_bookmakers_spec oddsData). Qed.

Lemma X1_active_bookmakers_witness :
  NoDup (Core.getActiveBookmakers mockOddsData) /\
  (In "inactive_bookmaker" (Core.getActiveBookmakers mockOddsData) <->
   exists b, get "inactive_bookmaker" (bookmakerOdds mockOddsData) = Some b /\
             bookmakerIsActive b = true).
Proof.
  assert (H : NoDup (keys (bookmakerOdds mockOddsData))).
  { repeat constructor; cbn; intuition discriminate. }
  destruct (X1_active_bookmakers mockOddsData H) as [A B].
  split; [exact A | apply B].
Defined.

Lemma all_markets_spec (oddsData : OddsData) (names : list string) :
  (Forall (known oddsData) names ->
   exists found,
     Core.getAllMarkets oddsData names = Ok found /\ NoDup found /\
     forall m, In m found <->
       exists n b, In n names /\ get n (bookmakerOdds oddsData) = Some b /\
                   In m (keys (markets b))) /\
  (Exists (fun n => ~ known oddsData n) names ->
   Core.getAllMarkets oddsData names = Throw Core.undefined_markets).
Proof.
  rewrite getAllMarkets_collect. split; intros H.
  - destruct (collect_ok oddsData (fun ms => Ok (keys ms)) names []) as (found & E).
    { eapply Forall_impl; [|exact H]. intros n K.
      destruct (marketsOf_known oddsData n K) as (b & Hb & _). now exists b, (keys (markets b)). }
    exists found. split; [exact E|].
    apply collect_inv in E. destruct E as (_ & Hnd & Hin).
    split; [apply Hnd; constructor|].
    intros m. rewrite Hin. cbn [In]. split.
    + intros [[] | (n & b & l & Hn & Hb & [= <-] & K)]. now exists n, b.
    + intros (n & b & Hn & Hb & K). right. now exists n, b, (keys (markets b)).
  - apply collect_unknown; [|exact H]. intros ms. now eexists.
Qed.

(** X2.  [getAllMarkets] raises a TypeError exactly when one of the
    listed bookmaker names is not in the snapshot; otherwise it returns,
    without repetition, the market ids carried by the listed bookmakers. *)
Theorem X2_all_markets (oddsData : OddsData) (names : list string) :
  (Forall (known oddsData) names ->
   exists found,
     Core.getAllMarkets oddsData names = Ok found /\ NoDup found /\
     forall m, In m found <->
       exists n b, In n names /\ get n (bookmakerOdds oddsData) = Some b /\
                   In m (keys (markets b))) /\
  (Exists (fun n => ~ known oddsData n) names ->
   Core.getAllMarkets oddsData names = Throw Core.undefined_markets).
Proof. exact (all_markets_spec oddsData names). Qed.

Lemma X2_all_markets_witness :
  (exists found,
     Core.getAllMarkets mockOddsData ["bookmaker1"; "inactive_bookmaker"] = Ok found /\
     NoDup found) /\
  Core.getAllMarkets mockOddsData ["bookmaker1"; "nobody"]
  = Throw Core.undefined_markets.
Proof.
  split.
  - destruct (proj1 (X2_all_markets mockOddsData ["bookmaker1"; "inactive_bookmaker"]))
      as (found & E & Hnd & _).
    + repeat constructor; unfold known; cbn; discriminate.
    + now exists found.
  - apply (proj2 (X2_all_markets mockOddsData ["bookmaker1"; "nobody"])).
    apply Exists_cons_tl, Exists_cons_hd. unfold known. cbn. intros H. now apply H.
Defined.

(** X3.  [getMarketOutcomes] raises a TypeError exactly when one of the
    listed bookmakers cannot be read for the market: its name is not in the
    snapshot, or the market id is the name of a member of
    [Object.prototype] ([constructor], [toString], ...) that the bookmaker
    does not carry as a market of its own.  Otherwise it returns, without
    repetition, the outcome ids that the listed bookmakers carry for the
    market (none for a market nobody carries).  For a market id that is no
    such name, a bookmaker can be read exactly when it is in the
    snapshot. *)
Theorem X3_market_outcomes (marketId : string) (oddsData : OddsData)
  (names : list string) :
  (Forall (readable oddsData marketId) names ->
   exists found,
     Core.getMarketOutcomes marketId oddsData names = Ok found /\ NoDup found /\
     forall x, In x found <->
       exists n b m, In n names /\ get n (bookmakerOdds oddsData) = Some b /\
                     get marketId (markets b) = Some m /\
                     In x (keys (outcomes m))) /\
  (Exists (fun n => ~ readable oddsData marketId n) names ->
   exists msg, Core.getMarketOutcomes marketId oddsData names = Throw msg) /\
  (plain marketId ->
   forall n, readable oddsData marketId n <-> known oddsData n).
Proof.
  split; [|split].
  - intros H. destruct (market_outcomes_ok marketId oddsData names H) as (found & E).
    exists found. split; [exact E|].
    destruct (market_outcomes_inv marketId oddsData names found E) as (_ & Hnd & Hin).
    now split.
  - apply market_outcomes_throw.
  - intros Hp n. split; [apply readable_known | now apply readable_plain].
Qed.

Lemma X3_market_outcomes_witness :
  (exists found,
     Core.getMarketOutcomes "101" mockOddsData ["bookmaker1"; "bookmaker2"] = Ok found /\
     NoDup found) /\
  (exists msg, Core.getMarketOutcomes "101" mockOddsData ["nobody"] = Throw msg) /\
  (exists msg,
     Core.getMarketOutcomes "constructor" mockOddsData ["bookmaker1"] = Throw msg).
Proof.
  split; [|split].
  - destruct (proj1 (X3_market_outcomes "101" mockOddsData ["bookmaker1"; "bookmaker2"]))
      as (found & E & Hnd & _).
    + repeat constructor; eexists; (split; [reflexivity | discriminate]).
    + now exists found.
  - apply (proj1 (proj2 (X3_market_outcomes "101" mockOddsData ["nobody"]))).
    apply Exists_cons_hd. intros (b & Hb & _). discriminate.
  - apply (proj1 (proj2 (X3_market_outcomes "constructor" mockOddsData ["bookmaker1"]))).
    apply Exists_cons_hd. intros (b & Hb & Hl). injection Hb as <-. now apply Hl.
Defined.

(** X4.  In a snapshot without repeated bookmaker names, the markets
    found for the active bookmakers are exactly the markets of bookmakers
    whose activity flag is set, and the call never raises: an inactive
    bookmaker contributes nothing. *)
Theorem X4_inactive_contribute_nothing (oddsData : OddsData) :
  NoDup (keys (bookmakerOdds oddsData)) ->
  exists found,
    Core.getAllMarkets oddsData (Core.getActiveBookmakers oddsData) = Ok found /\
    forall m, In m found <->
      exists n b, In (n, b) (bookmakerOdds oddsData) /\
                  bookmakerIsActive b = true /\ In m (keys (markets b)).
Proof.
  intros Hnd.
  destruct (proj1 (all_markets_spec oddsData (Core.getActiveBookmakers oddsData))
              (active_known oddsData)) as (found & E & _ & Hin).
  exists found. split; [exact E|]. intros m. rewrite Hin. split.
  - intros (n & b & Hn & Hb & K). exists n, b.
    apply (proj2 (active_bookmakers_spec oddsData Hnd)) in Hn.
    destruct Hn as (b' & Hb' & A). rewrite Hb in Hb'. injection Hb' as <-.
    repeat split; [now apply get_In | exact A | exact K].
  - intros (n & b & Hb & A & K). exists n, b. repeat split; [|now apply In_get|exact K].
    apply active_In. now exists b.
Qed.

Lemma X4_inactive_contribute_nothing_witness :
  exists found,
    Core.getAllMarkets mockOddsData (Core.getActiveBookmakers mockOddsData) = Ok found /\
    ~ In "202" found.
Proof.
  assert (H : NoDup (keys (bookmakerOdds mockOddsData))).
  { repeat constructor; cbn; intuition discriminate. }
  destruct (X4_inactive_contribute_nothing mockOddsData H) as (found & E & Hin).
  exists found. split; [exact E|]. intros K. apply Hin in K.
  destruct K as (n & b & Hb & A & K). cbn in Hb.
  destruct Hb as [Hb | [Hb | [Hb | []]]]; injection Hb as <- <-; cbn in A, K;
    try discriminate; intuition discriminate.
Defined.

Module SelectionFacts.

Lemma qlt_false (x y : Q) : qlt x y = false <-> y <= x.
Proof.
  pose proof (qlt_true x y) as H. destruct (qlt x y).
  - split; [discriminate|]. intros L. apply Qle_not_lt in L. exfalso. now apply L, H.
  - split; [|reflexivity]. intros _. apply Qnot_lt_le. intros L. apply H in L. discriminate.
Qed.

(** A step of the inner loop that does not raise has compared the
    bookmaker's own quote. *)
Lemma bestStep_inv (oddsData : OddsData) (marketId outcomeId : string)
  (best best' : Q * string) (n : string) :
  Core.bestStep marketId outcomeId oddsData best n = Ok best' ->
  known oddsData n /\ best' = better oddsData marketId outcomeId best n.
Proof.
  unfold Core.bestStep, better, quoteFor, Core.marketsOf, lookup.
  destruct (get n (bookmakerOdds oddsData)) as [b|] eqn:Hb; cbn [bind]; [|discriminate].
  intros H. split; [now apply known_get with b|]. revert H.
  destruct (get marketId (markets b)) as [m|].
  - destruct (get outcomeId (outcomes m)) as [o|].
    + destruct (get "0" (players o)) as [pl|]; [|now intros [= <-]].
      destruct (active pl && qlt (fst best) (price pl)); now intros [= <-].
    + destruct (mem outcomeId prototypeMembers); [discriminate | now intros [= <-]].
  - destruct (mem marketId prototypeMembers); [discriminate | now intros [= <-]].
Qed.

Lemma bestStep_plain (oddsData : OddsData) (marketId outcomeId : string)
  (best : Q * string) (n : string) :
  known oddsData n -> plain marketId -> plain outcomeId ->
  Core.bestStep marketId outcomeId oddsData best n
  = Ok (better oddsData marketId outcomeId best n).
Proof.
  intros K Hm Ho. destruct (marketsOf_known oddsData n K) as (b & Hb & Hmk).
  unfold Core.bestStep, better, quoteFor. rewrite Hmk, Hb. cbn [bind].
  rewrite (lookup_plain _ _ Hm).
  destruct (get marketId (markets b)) as [m|]; [|reflexivity].
  rewrite (lookup_plain _ _ Ho).
  destruct (get outcomeId (outcomes m)) as [o|]; [|reflexivity].
  destruct (get "0" (players o)) as [pl|]; [|reflexivity].
  destruct (active pl && qlt (fst best) (price pl)); reflexivity.
Qed.

Section Best.
Variable oddsData : OddsData.
Variables marketId outcomeId : string.

Lemma leading_nonneg (seen : list string) (best : Q * string) :
  leading oddsData marketId outcomeId seen best -> 0 <= fst best.
Proof.
  intros [_ [-> | (_ & _ & H)]]; cbn [fst]; lra.
Qed.

Lemma leading_step (seen : list string) (best : Q * string) (n : string) :
  leading oddsData marketId outcomeId seen best ->
  leading oddsData marketId outcomeId (seen ++ [n]) (better oddsData marketId outcomeId best n).
Proof.
  intros L. pose proof (leading_nonneg seen best L) as H0.
  destruct L as [Hmax Hsel]. unfold better.
  destruct (quoteFor oddsData marketId outcomeId n) as [pl|] eqn:Q.
  - destruct (active pl) eqn:A; cbn [andb].
    + destruct (qlt (fst best) (price pl)) eqn:C.
      * apply qlt_true in C. split; cbn [fst snd].
        -- intros n' p' Hn' Hoff. apply in_app_iff in Hn'. destruct Hn' as [Hn' | [<- | []]].
           ++ specialize (Hmax n' p' Hn' Hoff). lra.
           ++ destruct Hoff as (pl' & Q' & _ & <-). rewrite Q in Q'.
              injection Q' as <-. lra.
        -- right. split; [apply in_app_iff; right; now left|]. split; [|lra].
           now exists pl.
      * apply qlt_false in C. split.
        -- intros n' p' Hn' Hoff. apply in_app_iff in Hn'. destruct Hn' as [Hn' | [<- | []]].
           ++ now apply (Hmax n' p').
           ++ destruct Hoff as (pl' & Q' & _ & <-). rewrite Q in Q'.
              injection Q' as <-. exact C.
        -- destruct Hsel as [E | (I & O & P)]; [now left|].
           right. split; [apply in_app_iff; now left | now split].
    + split.
      * intros n' p' Hn' Hoff. apply in_app_iff in Hn'. destruct Hn' as [Hn' | [<- | []]].
        -- now apply (Hmax n' p').
        -- destruct Hoff as (pl' & Q' & A' & _). rewrite Q in Q'.
           injection Q' as <-. congruence.
      * destruct Hsel as [E | (I & O & P)]; [now left|].
        right. split; [apply in_app_iff; now left | now split].
  - split.
    + intros n' p' Hn' Hoff. apply in_app_iff in Hn'. destruct Hn' as [Hn' | [<- | []]].
      * now apply (Hmax n' p').
      * destruct Hoff as (pl' & Q' & _). congruence.
    + destruct Hsel as [E | (I & O & P)]; [now left|].
      right. split; [apply in_app_iff; now left | now split].
Qed.

Lemma best_loop_inv (names seen : list string) (best best' : Q * string) :
  forEach (Core.bestStep marketId outcomeId oddsData) names best = Ok best' ->
  leading oddsData marketId outcomeId seen best ->
  leading oddsData marketId outcomeId (seen ++ names) best'.
Proof.
  revert seen best. induction names as [|n names IH]; intros seen best; cbn [forEach].
  - intros [= <-] L. now rewrite app_nil_r.
  - destruct (Core.bestStep marketId outcomeId oddsData best n) as [b|msg] eqn:E;
      cbn [bind]; [|discriminate].
    apply bestStep_inv in E. destruct E as [_ ->]. intros H L.
    pose proof (IH (seen ++ [n])%list _ H (leading_step seen best n L)) as L'.
    now rewrite <- app_assoc in L'.
Qed.

Lemma best_loop_ok (names : list string) (best : Q * string) :
  Forall (known oddsData) names -> plain marketId -> plain outcomeId ->
  exists best', forEach (Core.bestStep marketId outcomeId oddsData) names best = Ok best'.
Proof.
  intros H Hm Ho. revert best. induction H as [|n names Hn _ IH]; intros best;
    cbn [forEach].
  - now exists best.
  - rewrite bestStep_plain by assumption. cbn [bind]. apply IH.
Qed.

End Best.

Lemma findBestOdds_unfold (marketId : string) (outs : list string)
  (oddsData : OddsData) (names : list string) :
  Core.findBestOdds marketId outs oddsData names
  = forEach (selectOutcome oddsData marketId names) outs [].
Proof. reflexivity. Qed.

(** What the outer loop of [findBestOdds] has done when it returns. *)
Lemma select_inv (oddsData : OddsData) (marketId : string)
  (names outs : list string) (acc sel : obj OddsOption) :
  forEach (selectOutcome oddsData marketId names) outs acc = Ok sel ->
  (forall oid s, In (oid, s) acc -> selected oddsData marketId names oid s) ->
  (forall oid s, In (oid, s) sel -> selected oddsData marketId names oid s) /\
  (forall k, In k (keys sel) -> In k (keys acc) \/ In k outs) /\
  (NoDup (keys acc) -> NoDup (keys sel)) /\
  (~ In "" names ->
   forall k, In k outs -> k <> "__proto__" ->
     (exists n p, In n names /\ offers oddsData marketId k n p /\ 0 < p) ->
     In k (keys sel)) /\
  (forall k, In k (keys acc) -> In k (keys sel)).
Proof.
  revert acc. induction outs as [|oid outs IH]; intros acc; cbn [forEach].
  - intros [= <-] Hacc. split; [exact Hacc|].
    split; [intros k H; now left|]. split; [tauto|].
    split; [intros _ k []|]. intros k H; exact H.
  - unfold selectOutcome at 1.
    destruct (forEach (Core.bestStep marketId oid oddsData) names (0, "")) as [best|msg] eqn:E;
      cbn [bind]; [|discriminate].
    assert (L : leading oddsData marketId oid names best).
    { apply (best_loop_inv oddsData marketId oid names [] (0, "") best E).
      split; [intros n p [] | now left]. }
    destruct (String.eqb_spec (snd best) "") as [Eb | Nb]; cbn [bind].
    + intros H Hacc. destruct (IH acc H Hacc) as (Hs & Hkeys & Hnd & Hcov & Hmono).
      split; [exact Hs|]. split.
      * intros k Hin. destruct (Hkeys k Hin); [now left | right; now right].
      * split; [exact Hnd|]. split; [|exact Hmono].
        intros Hno k [<- | Hin] Hk Hex; [|now apply Hcov].
        exfalso. destruct Hex as (n & p & Hn & Hoff & Hp).
        destruct L as [Hmax [-> | (I & _ & _)]].
        -- specialize (Hmax n p Hn Hoff). cbn [fst] in Hmax. lra.
        -- rewrite Eb in I. contradiction.
    + assert (Hsel : selected oddsData marketId names oid
                       (mkOddsOption (snd best) (fst best))).
      { destruct L as [Hmax [-> | (I & O & P)]]; [now cbn in Nb|].
        unfold selected. cbn [bookmaker odds]. repeat split; assumption. }
      intros H Hacc.
      destruct (IH (set oid (mkOddsOption (snd best) (fst best)) acc) H)
        as (Hs & Hkeys & Hnd & Hcov & Hmono).
      { intros k s Hin. apply set_In in Hin. destruct Hin as [[= -> ->] | Hin];
          [exact Hsel | now apply Hacc]. }
      split; [exact Hs|]. split.
      * intros k Hin. destruct (Hkeys k Hin) as [K | K]; [|right; now right].
        apply keys_set in K.
        destruct K as [[_ ->] | K]; [right; now left | now left].
      * split.
        -- intros Hn. now apply Hnd, set_NoDup.
        -- split.
           ++ intros Hno k [<- | Hin] Hk Hex; [|now apply Hcov].
              apply Hmono, keys_set. left. now split.
           ++ intros k Hin. apply Hmono, keys_set. now right.
Qed.

Lemma select_ok (oddsData : OddsData) (marketId : string)
  (names outs : list string) (acc : obj OddsOption) :
  Forall (known oddsData) names -> plain marketId -> Forall plain outs ->
  exists sel, forEach (selectOutcome oddsData marketId names) outs acc = Ok sel.
Proof.
  intros Hk Hm Ho. revert acc. induction Ho as [|oid outs Hoid _ IH]; intros acc;
    cbn [forEach].
  - now exists acc.
  - unfold selectOutcome at 1.
    destruct (best_loop_ok oddsData marketId oid names (0, "") Hk Hm Hoid) as (best & ->).
    cbn [bind]. destruct (String.eqb (snd best) ""); cbn [bind]; apply IH.
Qed.

(** The selection of [findBestOdds], when it returns one. *)
Lemma findBestOdds_inv (marketId : string) (outs : list string)
  (oddsData : OddsData) (names : list string) (sel : obj OddsOption) :
  Core.findBestOdds marketId outs oddsData names = Ok sel ->
  (forall oid s, In (oid, s) sel -> selected oddsData marketId names oid s) /\
  (forall k, In k (keys sel) -> In k outs) /\
  NoDup (keys sel) /\
  (~ In "" names ->
   forall k, In k outs -> k <> "__proto__" ->
     (exists n p, In n names /\ offers oddsData marketId k n p /\ 0 < p) ->
     In k (keys sel)).
Proof.
  rewrite findBestOdds_unfold. intros H.
  destruct (select_inv oddsData marketId names outs [] sel H)
    as (Hs & Hkeys & Hnd & Hcov & _); [intros ? ? []|].
  split; [exact Hs|]. split.
  - intros k Hin. destruct (Hkeys k Hin) as [[] | K]; exact K.
  - split; [apply Hnd; constructor | exact Hcov].
Qed.

Lemma findBestOdds_ok (marketId : string) (outs : list string)
  (oddsData : OddsData) (names : list string) :
  Forall (known oddsData) names -> plain marketId -> Forall plain outs ->
  exists sel, Core.findBestOdds marketId outs oddsData names = Ok sel.
Proof. rewrite findBestOdds_unfold. apply select_ok. Qed.

End SelectionFacts.
Import SelectionFacts.

(** X5.  When every listed bookmaker is in the snapshot and neither the
    market id nor an outcome id is the name of a member of
    [Object.prototype], [findBestOdds] returns a selection, and each entry
    of it names a listed bookmaker (never the one whose name is the empty
    string) whose quote on that outcome is active, has the selected price,
    a price above 0, and no listed bookmaker has an active quote on the
    outcome at a higher price. *)
Theorem X5_best_odds_are_best (marketId : string) (outs : list string)
  (oddsData : OddsData) (names : list string) :
  Forall (known oddsData) names ->
  plain marketId ->
  Forall plain outs ->
  exists sel,
    Core.findBestOdds marketId outs oddsData names = Ok sel /\
    forall oid s, In (oid, s) sel ->
      In oid outs /\ selected oddsData marketId names oid s.
Proof.
  intros Hk Hm Ho.
  destruct (findBestOdds_ok marketId outs oddsData names Hk Hm Ho) as (sel & E).
  exists sel. split; [exact E|].
  destruct (findBestOdds_inv marketId outs oddsData names sel E) as (Hs & Hkeys & _).
  intros oid s Hin. split; [|now apply Hs].
  apply Hkeys. now apply In_keys with s.
Qed.

Lemma X5_best_odds_are_best_witness :
  exists sel,
    Core.findBestOdds "101" ["101"; "102"] mockOddsData ["bookmaker1"; "bookmaker2"]
    = Ok sel /\
    forall oid s, In (oid, s) sel ->
      In oid ["101"; "102"] /\
      selected mockOddsData "101" ["bookmaker1"; "bookmaker2"] oid s.
Proof.
  apply (X5_best_odds_are_best "101" ["101"; "102"] mockOddsData
           ["bookmaker1"; "bookmaker2"]).
  - repeat constructor; unfold known; cbn; discriminate.
  - reflexivity.
  - repeat constructor.
Defined.

(** X6.  Under the same conditions, and when no listed bookmaker is named
    by the empty string, [findBestOdds] selects a price for exactly the
    outcomes on which some listed bookmaker has an active quote above 0,
    each outcome once. *)
Theorem X6_best_odds_coverage (marketId : string) (outs : list string)
  (oddsData : OddsData) (names : list string) :
  Forall (known oddsData) names ->
  plain marketId ->
  Forall plain outs ->
  ~ In "" names ->
  exists sel,
    Core.findBestOdds marketId outs oddsData names = Ok sel /\
    NoDup (keys sel) /\
    forall k, In k (keys sel) <->
      In k outs /\ exists n p, In n names /\ offers oddsData marketId k n p /\ 0 < p.
Proof.
  intros Hk Hm Ho Hno.
  destruct (findBestOdds_ok marketId outs oddsData names Hk Hm Ho) as (sel & E).
  exists sel. split; [exact E|].
  destruct (findBestOdds_inv marketId outs oddsData names sel E)
    as (Hs & Hkeys & Hnd & Hcov).
  split; [exact Hnd|]. intros k. split.
  - intros Hin. split; [now apply Hkeys|].
    unfold keys in Hin. apply in_map_iff in Hin. destruct Hin as ([k' s] & <- & Hin).
    destruct (Hs k' s Hin) as (_ & Hn & Hoff & Hp & _).
    now exists (bookmaker s), (odds s).
  - intros [Hin Hex]. apply Hcov; [exact Hno | exact Hin | | exact Hex].
    rewrite Forall_forall in Ho. now apply plain_not_proto, Ho.
Qed.

Lemma X6_best_odds_coverage_witness :
  exists sel,
    Core.findBestOdds "101" ["101"; "102"] mockOddsData ["bookmaker1"; "bookmaker2"]
    = Ok sel /\ NoDup (keys sel).
Proof.
  destruct (X6_best_odds_coverage "101" ["101"; "102"] mockOddsData
              ["bookmaker1"; "bookmaker2"]) as (sel & E & Hnd & _).
  - repeat constructor; unfold known; cbn; discriminate.
  - reflexivity.
  - repeat constructor.
  - cbn. intuition discriminate.
  - now exists sel.
Defined.

Module RankingFacts.

Section Sorting.
Context {A : Type}.
Variable after : A -> A -> bool.

Lemma insert_In (x y : A) (l : list A) : In y (insert after x l) <-> y = x \/ In y l.
Proof.
  induction l as [|z l IH]; cbn [insert In].
  - intuition.
  - destruct (after x z); cbn [In]; rewrite ?IH; intuition.
Qed.

Lemma sort_In (y : A) (l : list A) : In y (sort after l) <-> In y l.
Proof.
  unfold sort. induction l as [|x l IH]; cbn [fold_right In]; [tauto|].
  rewrite insert_In, IH. intuition.
Qed.

Lemma insert_length (x : A) (l : list A) :
  List.length (insert after x l) = S (List.length l).
Proof.
  induction l as [|z l IH]; cbn [insert List.length]; [reflexivity|].
  destruct (after x z); cbn [List.length]; [now rewrite IH | reflexivity].
Qed.

Lemma sort_length (l : list A) : List.length (sort after l) = List.length l.
Proof.
  unfold sort. induction l as [|x l IH]; cbn [fold_right List.length]; [reflexivity|].
  now rewrite insert_length, IH.
Qed.

Lemma insert_Permutation (x : A) (l : list A) : Permutation (insert after x l) (x :: l).
Proof.
  induction l as [|z l IH]; cbn [insert]; [reflexivity|].
  destruct (after x z); [|reflexivity].
  rewrite IH. apply perm_swap.
Qed.

Lemma sort_Permutation (l : list A) : Permutation (sort after l) l.
Proof.
  unfold sort. induction l as [|x l IH]; cbn [fold_right]; [reflexivity|].
  rewrite insert_Permutation. now constructor.
Qed.

(** The sort puts a list in the order [R] as soon as the comparator
    decides [R] and [R] is transitive. *)
Variable R : A -> A -> Prop.
Hypothesis after_true : forall x y, after x y = true -> R y x.
Hypothesis after_false : forall x y, after x y = false -> R x y.
Hypothesis R_trans : forall x y z, R x y -> R y z -> R x z.

Lemma insert_sorted (x : A) (l : list A) :
  StronglySorted R l -> StronglySorted R (insert after x l).
Proof.
  induction 1 as [|z l Hs IH Hz]; cbn [insert].
  - repeat constructor.
  - destruct (after x z) eqn:E.
    + constructor; [exact IH|]. apply Forall_forall. intros y Hy.
      apply insert_In in Hy. destruct Hy as [-> | Hy].
      * now apply after_true.
      * rewrite Forall_forall in Hz. now apply Hz.
    + apply after_false in E. constructor; [now constructor|].
      constructor; [exact E|]. eapply Forall_impl; [|exact Hz].
      intros y Hy. now apply R_trans with z.
Qed.

Lemma sort_sorted (l : list A) : StronglySorted R (sort after l).
Proof.
  unfold sort. induction l as [|x l IH]; cbn [fold_right]; [constructor|].
  now apply insert_sorted.
Qed.

End Sorting.

Lemma firstn_subset {A : Type} (n : nat) (l : list A) (x : A) :
  In x (firstn n l) -> In x l.
Proof.
  revert l. induction n as [|n IH]; intros [|y l]; cbn [firstn In]; try tauto.
  intros [E | H]; [now left | right; now apply IH].
Qed.

Lemma firstn_sorted {A : Type} (R : A -> A -> Prop) (n : nat) (l : list A) :
  StronglySorted R l -> StronglySorted R (firstn n l).
Proof.
  intros H. revert n. induction H as [|x l Hs IH Hx]; intros n.
  - rewrite firstn_nil. constructor.
  - destruct n; cbn [firstn]; [constructor|].
    constructor; [apply IH|]. rewrite Forall_forall in *.
    intros y Hy. apply Hx. now apply firstn_subset in Hy.
Qed.

(** An element of a sorted list is among its first [n] elements, or there
    are [n] of them and all are before it in the order. *)
Lemma firstn_top {A : Type} (R : A -> A -> Prop) (n : nat) (l : list A) (x : A) :
  StronglySorted R l -> In x l ->
  In x (firstn n l) \/
  (List.length (firstn n l) = n /\ forall y, In y (firstn n l) -> R y x).
Proof.
  intros H. revert n. induction H as [|z l Hs IH Hz]; intros n Hx; [destruct Hx|].
  destruct n; cbn [firstn].
  - right. split; [reflexivity | intros y []].
  - destruct Hx as [-> | Hx]; [left; now left|].
    destruct (IH n Hx) as [K | [Hl Hall]]; [left; now right|].
    right. cbn [List.length]. split; [now rewrite Hl|].
    intros y [<- | Hy]; [|now apply Hall].
    rewrite Forall_forall in Hz. now apply Hz.
Qed.

Lemma oddsDescending_true (x y : OddsOption) :
  Core.oddsDescending x y = true -> odds x <= odds y.
Proof. unfold Core.oddsDescending. intros H. apply qlt_true in H. lra. Qed.

Lemma oddsDescending_false (x y : OddsOption) :
  Core.oddsDescending x y = false -> odds y <= odds x.
Proof. unfold Core.oddsDescending. intros H. apply qlt_false in H. lra. Qed.

Lemma sort_descending (l : list OddsOption) : descending (sort Core.oddsDescending l).
Proof.
  apply (sort_sorted Core.oddsDescending (fun a b => odds b <= odds a)).
  - apply oddsDescending_true.
  - apply oddsDescending_false.
  - intros x y z H1 H2. lra.
Qed.

Lemma candidates_In (oddsData : OddsData) (marketId outcomeId : string)
  (names : list string) (o : OddsOption) :
  In o (candidates oddsData marketId outcomeId names) <->
  In (bookmaker o) names /\
  offers oddsData marketId outcomeId (bookmaker o) (odds o) /\ 1 < odds o.
Proof.
  unfold candidates. rewrite in_flat_map. split.
  - intros (n & Hn & H).
    destruct (quoteFor oddsData marketId outcomeId n) as [pl|] eqn:Q; [|destruct H].
    destruct (active pl) eqn:Ac; cbn [andb] in H; [|destruct H].
    destruct (qlt 1 (price pl)) eqn:C; [|destruct H].
    destruct H as [<- | []]. cbn [bookmaker odds]. apply qlt_true in C.
    split; [exact Hn|]. split; [now exists pl | exact C].
  - intros (Hn & (pl & Q & Ac & E) & C). exists (bookmaker o). split; [exact Hn|].
    rewrite Q, Ac. cbn [andb]. apply qlt_true in C. rewrite E, C.
    left. now destruct o.
Qed.


Lemma slice0_subset {A : Type} (n : Z) (l : list A) (x : A) :
  In x (slice0 n l) -> In x l.
Proof. unfold slice0. destruct (n <? 0)%Z; apply firstn_subset. Qed.

(** The quote that the inner loop of [buildTopOutcomeOddsMap] reads, for
    ids that are not names of members of [Object.prototype]. *)
Lemma quoteOf_plain (oddsData : OddsData) (marketId outcomeId n : string)
  (b : Bookmaker) :
  plain marketId -> plain outcomeId ->
  get n (bookmakerOdds oddsData) = Some b ->
  Core.quoteOf (markets b) marketId outcomeId
  = Ok (quoteFor oddsData marketId outcomeId n).
Proof.
  intros Hm Ho Hb. unfold Core.quoteOf, quoteFor. rewrite Hb.
  rewrite (lookup_plain _ _ Hm).
  destruct (get marketId (markets b)) as [m|]; [|reflexivity].
  rewrite (lookup_plain _ _ Ho).
  destruct (get outcomeId (outcomes m)); reflexivity.
Qed.

Lemma candidates_loop (oddsData : OddsData) (marketId outcomeId : string)
  (names : list string) (acc : list OddsOption) :
  Forall (known oddsData) names -> plain marketId -> plain outcomeId ->
  forEach (collectQuote oddsData marketId outcomeId) names acc
  = Ok (acc ++ candidates oddsData marketId outcomeId names)%list.
Proof.
  intros H Hm Ho. revert acc. induction H as [|n names Hn _ IH]; intros acc;
    cbn [forEach candidates flat_map].
  - now rewrite app_nil_r.
  - destruct (marketsOf_known oddsData n Hn) as (b & Hb & Hmk).
    unfold collectQuote at 1. rewrite Hmk. cbn [bind].
    rewrite (quoteOf_plain oddsData marketId outcomeId n b Hm Ho Hb). cbn [bind].
    fold (candidates oddsData marketId outcomeId names).
    destruct (quoteFor oddsData marketId outcomeId n) as [pl|].
    + destruct (active pl && qlt 1 (price pl)); cbn [bind]; rewrite IH.
      * now rewrite <- app_assoc.
      * reflexivity.
    + cbn [bind]. now rewrite IH.
Qed.

Lemma ranking_loop (oddsData : OddsData) (marketId : string) (names : list string)
  (topK : Z) (outs : list string) (acc : obj (list OddsOption)) :
  Forall (known oddsData) names -> plain marketId -> Forall plain outs ->
  (forall oid l, In (oid, l) acc -> l = ranked oddsData marketId names topK oid) ->
  exists m,
    forEach (rankOutcome oddsData marketId names topK) outs acc = Ok m /\
    (forall k, In k (keys m) <-> In k (keys acc) \/ In k outs) /\
    (NoDup (keys acc) -> NoDup (keys m)) /\
    (forall oid l, In (oid, l) m -> l = ranked oddsData marketId names topK oid).
Proof.
  intros Hk Hm Ho. revert acc. induction Ho as [|oid outs Hoid _ IH]; intros acc Hacc;
    cbn [forEach].
  - exists acc. split; [reflexivity|]. split; [cbn [In]; tauto|]. split; [tauto | exact Hacc].
  - unfold rankOutcome at 1. rewrite candidates_loop by assumption. cbn [bind app].
    destruct (IH (set oid (ranked oddsData marketId names topK oid) acc))
      as (m & E & Hkeys & Hnd & Hr).
    { intros k l Hin. apply set_In in Hin.
      destruct Hin as [[= -> ->] | Hin]; [reflexivity | now apply Hacc]. }
    exists m. split; [exact E|]. split; [|split; [|exact Hr]].
    + intros k. rewrite Hkeys, keys_set. cbn [In].
      pose proof (plain_not_proto oid Hoid). intuition.
    + intros Hn. now apply Hnd, set_NoDup.
Qed.

Lemma buildTop_unfold (marketId : string) (oddsData : OddsData)
  (names : list string) (topK : Z) :
  Core.buildTopOutcomeOddsMap marketId oddsData names topK
  = (marketOutcomes <- Core.getMarketOutcomes marketId oddsData names ;;
     forEach (rankOutcome oddsData marketId names topK) marketOutcomes []).
Proof. reflexivity. Qed.

(** The candidate map of a market whose outcomes can be read. *)
Lemma buildTop_spec (marketId : string) (oddsData : OddsData)
  (names : list string) (topK : Z) (outs : list string) :
  Core.getMarketOutcomes marketId oddsData names = Ok outs ->
  plain marketId -> Forall plain outs ->
  exists m,
    Core.buildTopOutcomeOddsMap marketId oddsData names topK = Ok m /\
    NoDup (keys m) /\
    Permutation (keys m) outs /\
    (forall oid, In oid outs ->
       get oid m = Some (ranked oddsData marketId names topK oid)).
Proof.
  intros H Hm Ho. destruct (outcomes_ok_known marketId oddsData names outs H) as [Hk Hnd].
  rewrite buildTop_unfold, H. cbn [bind].
  destruct (ranking_loop oddsData marketId names topK outs [] Hk Hm Ho)
    as (m & E & Hkeys & Hndm & Hr); [intros ? ? []|].
  exists m. split; [exact E|].
  assert (Hn : NoDup (keys m)) by (apply Hndm; constructor).
  split; [exact Hn|]. split.
  - apply NoDup_Permutation; [exact Hn | exact Hnd|].
    intros k. rewrite Hkeys. cbn [keys map In]. tauto.
  - intros oid Hin.
    assert (Hin' : In oid (keys m)) by (apply Hkeys; now right).
    destruct (get oid m) as [l|] eqn:G.
    + apply get_In in G. now rewrite (Hr oid l G).
    + apply get_None in G. contradiction.
Qed.

End RankingFacts.
Import RankingFacts.

(** X7.  When the market's outcomes can be read, neither the market id
    nor an outcome id is the name of a member of [Object.prototype], and K
    is not negative, [buildTopOutcomeOddsMap] returns one candidate list per
    outcome of the market (the outcomes in the enumeration order of the
    object's keys, which need not be the order in which they were met), and
    each list: has at most K entries; is in descending order of price;
    holds only active quotes of listed bookmakers priced above 1; and leaves
    out such a quote only when it already holds K quotes that are priced at
    least as high. *)
Theorem X7_top_k_candidates (marketId : string) (oddsData : OddsData)
  (names : list string) (topK : Z) (outs : list string) :
  Core.getMarketOutcomes marketId oddsData names = Ok outs ->
  plain marketId ->
  Forall plain outs ->
  (0 <= topK)%Z ->
  exists m,
    Core.buildTopOutcomeOddsMap marketId oddsData names topK = Ok m /\
    NoDup (keys m) /\
    Permutation (keys m) outs /\
    forall oid l, In (oid, l) m ->
      (List.length l <= Z.to_nat topK)%nat /\
      descending l /\
      (forall o, In o l ->
         In (bookmaker o) names /\
         offers oddsData marketId oid (bookmaker o) (odds o) /\ 1 < odds o) /\
      (forall n p, In n names -> offers oddsData marketId oid n p -> 1 < p ->
         In (mkOddsOption n p) l \/
         (List.length l = Z.to_nat topK /\ forall o, In o l -> p <= odds o)).
Proof.
  intros H Hm Ho HK.
  destruct (buildTop_spec marketId oddsData names topK outs H Hm Ho)
    as (m & E & Hnd & Hperm & Hget).
  exists m. split; [exact E|]. split; [exact Hnd|]. split; [exact Hperm|].
  intros oid l Hin.
  assert (Hl : l = ranked oddsData marketId names topK oid).
  { assert (Hk : In oid outs).
    { apply (Permutation_in _ Hperm). now apply In_keys with l. }
    apply (In_get m oid l Hnd) in Hin. rewrite (Hget oid Hk) in Hin. congruence. }
  rewrite Hl. unfold ranked. rewrite slice0_nonneg by exact HK.
  set (all := candidates oddsData marketId oid names).
  split; [apply firstn_le_length|].
  split; [apply firstn_sorted, sort_descending|]. split.
  - intros o Hin'. apply firstn_subset, sort_In in Hin'. now apply candidates_In in Hin'.
  - intros n p Hn Hoff Hp.
    assert (Hc : In (mkOddsOption n p) (sort Core.oddsDescending all)).
    { apply sort_In, candidates_In. cbn [bookmaker odds]. tauto. }
    destruct (firstn_top _ (Z.to_nat topK) _ _ (sort_descending all) Hc) as [K | [L Hall]].
    + now left.
    + right. split; [exact L|]. intros o Hin'. exact (Hall o Hin').
Qed.

Lemma X7_top_k_candidates_witness :
  Core.getMarketOutcomes "101" unordered ["bookmaker1"; "bookmaker2"] = Ok ["102"; "101"] /\
  exists m,
    Core.buildTopOutcomeOddsMap "101" unordered ["bookmaker1"; "bookmaker2"] 1 = Ok m /\
    Permutation (keys m) ["102"; "101"] /\
    keys m = ["101"; "102"].
Proof.
  split; [reflexivity|].
  destruct (X7_top_k_candidates "101" unordered ["bookmaker1"; "bookmaker2"] 1
              ["102"; "101"]) as (m & E & _ & K & _).
  - reflexivity.
  - reflexivity.
  - repeat constructor.
  - discriminate.
  - exists m. split; [exact E|]. split; [exact K|].
    vm_compute in E. injection E as <-. reflexivity.
Defined.

Module ProductFacts.

Section Product.
Context {T : Type}.

Lemma product_zero (arrays : list (list T)) :
  In [] arrays -> product (sizes arrays) = 0%nat.
Proof.
  unfold product, sizes. induction arrays as [|l arrays IH]; cbn [In map fold_right].
  - intros [].
  - intros [-> | H]; [reflexivity|]. rewrite IH by exact H. lia.
Qed.

Lemma extend_NoDup (acc : list (list T)) (curr : list T) :
  NoDup acc -> NoDup curr -> NoDup (extend acc curr).
Proof.
  intros Hacc Hcurr. unfold extend.
  induction Hacc as [|a acc Ha Hacc IH]; cbn [flat_map]; [constructor|].
  apply NoDup_app.
  - clear - Hcurr. induction Hcurr as [|b curr Hb _ IH]; cbn [map]; constructor.
    + intros K. apply in_map_iff in K. destruct K as (b' & E & Hb').
      apply app_inj_tail in E. destruct E as [_ ->]. contradiction.
    + exact IH.
  - exact IH.
  - intros c Hc K. apply in_map_iff in Hc. destruct Hc as (b & <- & _).
    apply in_flat_map in K. destruct K as (a' & Ha' & K).
    apply in_map_iff in K. destruct K as (b' & E & _).
    apply app_inj_tail in E. destruct E as [-> _]. contradiction.
Qed.

Lemma cross_NoDup (arrays : list (list T)) (acc : list (list T)) :
  NoDup acc -> Forall (@NoDup T) arrays -> NoDup (fold_left extend arrays acc).
Proof.
  intros Hacc H. revert acc Hacc.
  induction H as [|l arrays Hl _ IH]; intros acc Hacc; cbn [fold_left].
  - exact Hacc.
  - now apply IH, extend_NoDup.
Qed.

End Product.

End ProductFacts.
Import ProductFacts.

(** X8.  As soon as one of the candidate lists is empty,
    [generateCombinations] returns no assignment, whatever the cap. *)
Theorem X8_empty_factor (T : Type) (arrays : list (list T)) (cap : Z) :
  In [] arrays -> Core.generateCombinations arrays cap = [].
Proof.
  intros H. rewrite generate_unfold.
  destruct (cap <? Z.of_nat (product (sizes arrays)))%Z; [reflexivity|].
  apply length_zero_iff_nil. rewrite cross_length, (product_zero arrays H). lia.
Qed.

Lemma X8_empty_factor_witness :
  Core.generateCombinations [[1; 2]; []; [3]]%nat 10000 = [].
Proof.
  apply (X8_empty_factor nat [[1; 2]; []; [3]]%nat 10000). right. now left.
Defined.

(** X9.  Every assignment returned by [generateCombinations] has one entry
    per candidate list, and when no candidate list repeats an element no
    assignment is returned twice. *)
Theorem X9_assignments_distinct (T : Type) (arrays : list (list T)) (cap : Z) :
  (forall c, In c (Core.generateCombinations arrays cap) ->
     List.length c = List.length arrays) /\
  (Forall (@NoDup T) arrays -> NoDup (Core.generateCombinations arrays cap)).
Proof.
  rewrite generate_unfold.
  destruct (cap <? Z.of_nat (product (sizes arrays)))%Z.
  - split; [intros c [] | intros _; constructor].
  - split.
    + intros c Hc. apply cross_In in Hc. destruct Hc as (a & t & [<- | []] & Ht & ->).
      cbn [app]. unfold choice in Ht. now apply Forall2_length in Ht.
    + intros H. apply cross_NoDup; [repeat constructor; intros [] | exact H].
Qed.

Lemma X9_assignments_distinct_witness :
  NoDup (Core.generateCombinations [[1; 2]; [3; 4; 5]]%nat 10000).
Proof.
  apply (X9_assignments_distinct nat [[1; 2]; [3; 4; 5]]%nat 10000).
  repeat constructor; cbn; intuition discriminate.
Defined.

Module EvaluatorFacts2.

Lemma round_half_up_one (d : nat) : round_half_up d 1 == 1.
Proof.
  assert (M : 1 == inject_Z (pow10 d) * / unit10 d).
  { unfold unit10. pose proof (unit10_pos d) as Hc. unfold unit10 in Hc.
    field. lra. }
  rewrite (round_half_up_compat d _ _ M), round_half_up_multiple.
  now rewrite <- M.
Qed.

(** The implied probability of a price of at most 1 is at least 1, also
    after rounding. *)
Lemma impliedAt4_ge_1 (p : Q) : 0 < p -> p <= 1 -> 1 <= impliedAt4 p.
Proof.
  intros H0 H1. unfold impliedAt4.
  assert (Hi : 1 <= / p).
  { apply Qle_shift_inv_l; [exact H0 | lra]. }
  rewrite roundQ_nonneg_eq by lra.
  rewrite <- (round_half_up_one 4). now apply round_half_up_mono.
Qed.

Lemma Qsum_ge_member (l : list Q) (x : Q) :
  Forall (fun y => 0 <= y) l -> In x l -> x <= Qsum l.
Proof.
  unfold Qsum. induction 1 as [|y l Hy Hl IH]; cbn [In fold_right]; [tauto|].
  pose proof (Qsum_nonneg l Hl) as Hs. unfold Qsum in Hs. cbv beta in Hy.
  intros [-> | H]; [lra | specialize (IH H); lra].
Qed.

Lemma roundedTotal_ge_1 (prices : list Q) (p : Q) :
  positive prices -> In p prices -> p <= 1 -> 1 <= roundedTotal prices.
Proof.
  intros Hpos Hin Hp. unfold positive in Hpos. rewrite Forall_forall in Hpos.
  apply Qle_trans with (impliedAt4 p); [apply impliedAt4_ge_1; auto|].
  apply Qsum_ge_member; [|now apply in_map].
  apply Forall_map, Forall_forall. intros q Hq. cbv beta.
  apply multiple_nonneg with 4%nat, impliedAt4_multiple. auto.
Qed.

Lemma impliedTotal_ge_1 (prices : list Q) (p : Q) :
  positive prices -> In p prices -> p <= 1 -> 1 <= impliedTotal prices.
Proof.
  intros Hpos Hin Hp. unfold positive in Hpos. rewrite Forall_forall in Hpos.
  apply Qle_trans with (/ p).
  - apply Qle_shift_inv_l; [auto | lra].
  - apply Qsum_ge_member; [|now apply in_map].
    apply Forall_map, Forall_forall. intros q Hq. cbv beta.
    pose proof (Qinv_lt_0_compat _ (Hpos q Hq)). lra.
Qed.

(** A rounded total below 1 is at most 0.9999. *)
Lemma multiple_below_one (q : Q) : multiple 4 q -> q < 1 -> q <= 9999 # 10000.
Proof.
  intros (z & Hz & E) H. rewrite E in *.
  assert (Hu : / unit10 4 == 1 # 10000) by (vm_compute; reflexivity).
  rewrite Hu in *.
  assert (z < 10000)%Z.
  { apply Z.lt_nge. intros K. rewrite Zle_Qle in K.
    change (inject_Z 10000) with 10000 in K. lra. }
  assert (inject_Z z <= 9999).
  { change 9999 with (inject_Z 9999). rewrite <- Zle_Qle. lia. }
  lra.
Qed.

Lemma profit_at_least (T : Q) : 0 < T -> T <= 9999 # 10000 -> 1 # 100 <= profitPercent T.
Proof.
  intros H0 H1. unfold profitPercent.
  assert (1 # 10000 <= (1 - T) / T).
  { apply Qle_shift_div_l; [exact H0 | lra]. }
  lra.
Qed.

Lemma round_cent_mono (x : Q) : 1 # 100 <= x -> 1 # 100 <= roundQ 2 x.
Proof.
  intros H. rewrite roundQ_nonneg_eq by lra.
  assert (E : round_half_up 2 (1 # 100) == 1 # 100) by (vm_compute; reflexivity).
  rewrite <- E at 1. now apply round_half_up_mono.
Qed.

End EvaluatorFacts2.
Import EvaluatorFacts2.

(** X10.  Among positive prices, one price of at most 1 is enough to rule
    an opportunity out: [calculateArbitrageForMarket] returns none for such
    a selection, and the loop of [evaluateCombinations] pushes none for such
    a combination. *)
Theorem X10_price_at_most_one_rejected (marketId : string)
  (bestOdds : obj OddsOption) (outcomeIds : list string)
  (combo : list OddsOption) (flag : bool) :
  (positive (pricesOfBest bestOdds) ->
   (exists p, In p (pricesOfBest bestOdds) /\ p <= 1) ->
   Core.calculateArbitrageForMarket marketId bestOdds = None) /\
  (positive (pricesOf combo) ->
   (exists p, In p (pricesOf combo) /\ p <= 1) ->
   Core.evaluateCombination marketId outcomeIds combo flag = None).
Proof.
  split; intros Hpos (p & Hin & Hp).
  - destruct (SingleBest.calculate_spec marketId bestOdds Hpos)
      as [[_ Hnone] | (Hlt & _)]; [exact Hnone|].
    pose proof (roundedTotal_ge_1 _ p Hpos Hin Hp). lra.
  - destruct (TopK.evaluate_spec marketId outcomeIds combo flag Hpos)
      as [[_ Hnone] | (Hlt & _)]; [exact Hnone|].
    pose proof (impliedTotal_ge_1 _ p Hpos Hin Hp). lra.
Qed.

Lemma X10_price_at_most_one_rejected_witness :
  Core.calculateArbitrageForMarket "101"
    [("101", at_ "bookmaker1" (9 # 10)); ("102", at_ "bookmaker1" 50)] = None.
Proof.
  apply (proj1 (X10_price_at_most_one_rejected "101"
                  [("101", at_ "bookmaker1" (9 # 10)); ("102", at_ "bookmaker1" 50)]
                  [] [] false)).
  - repeat constructor.
  - exists (9 # 10). split; [now left | discriminate].
Defined.

(** X11.  In single-best mode, on positive prices with a non-zero rounded
    total, every opportunity reports a percentage of at least 0.01: the
    rounded total is a multiple of 0.0001 below 1, hence at most 0.9999. *)
Theorem X11_single_best_profit_at_least_a_cent (marketId : string)
  (bestOdds : obj OddsOption) (o : ArbitrageOpportunity) :
  positive (pricesOfBest bestOdds) ->
  0 < roundedTotal (pricesOfBest bestOdds) ->
  Core.calculateArbitrageForMarket marketId bestOdds = Some o ->
  exists a, arbitragePercentage o = Fin a /\ 1 # 100 <= a.
Proof.
  intros Hpos HT Ho.
  destruct (SingleBest.calculate_spec marketId bestOdds Hpos)
    as [[_ Hnone] | (Hlt & o' & Hsome & _ & _ & Harb & _)]; [congruence|].
  rewrite Hsome in Ho. injection Ho as <-.
  destruct (Harb HT) as (a & Ha & Ea). exists a. split; [exact Ha|].
  rewrite Ea. apply round_cent_mono, profit_at_least; [exact HT|].
  apply multiple_below_one; [now apply roundedTotal_multiple | exact Hlt].
Qed.

Lemma X11_single_best_profit_at_least_a_cent_witness :
  exists o a,
    Core.calculateArbitrageForMarket "101" threeThrees = Some o /\
    arbitragePercentage o = Fin a /\ 1 # 100 <= a.
Proof.
  assert (P : positive (pricesOfBest threeThrees)) by (repeat constructor).
  assert (T : 0 < roundedTotal (pricesOfBest threeThrees)) by (vm_compute; reflexivity).
  assert (E : exists o, Core.calculateArbitrageForMarket "101" threeThrees = Some o)
    by (eexists; vm_compute; reflexivity).
  destruct E as (o & E).
  destruct (X11_single_best_profit_at_least_a_cent "101" threeThrees o P T E)
    as (a & Ha & La).
  exists o, a. split; [exact E | now split].
Defined.

Module ShapeFacts.

Lemma evaluateCombination_shape (marketId : string) (outcomeIds : list string)
  (combo : list OddsOption) (flag : bool) (o : ArbitrageOpportunity) :
  Core.evaluateCombination marketId outcomeIds combo flag = Some o ->
  nlt (Core.impliedSumOf combo) (Fin 1) = true /\
  market o = marketId /\
  opp_outcomes o = Core.mapi_from (quoteAt outcomeIds) 0 combo /\
  arbitragePercentage o
  = toFixed 2 (nmul (ndiv (nsub (Fin 1) (Core.impliedSumOf combo))
                          (Core.impliedSumOf combo)) (Fin 100)) /\
  (flag = false -> betDistribution o = []) /\
  (flag = true -> map b_bookmaker (betDistribution o) = map bookmaker combo).
Proof.
  unfold Core.evaluateCombination. cbv zeta. unfold Core.mapi. fold (quoteAt outcomeIds).
  destruct (nlt (Core.impliedSumOf combo) (Fin 1)); [|discriminate].
  intros [= <-]. cbn [market opp_outcomes arbitragePercentage betDistribution].
  repeat split.
  - intros ->. reflexivity.
  - intros ->. rewrite map_map. cbn [b_bookmaker].
    apply mapi_from_map. reflexivity.
Qed.

Lemma evaluateCombinations_app (marketId : string) (outcomeIds : list string)
  (c1 c2 : list (list OddsOption)) (flag : bool) :
  Core.evaluateCombinations marketId outcomeIds (c1 ++ c2) flag
  = (Core.evaluateCombinations marketId outcomeIds c1 flag
     ++ Core.evaluateCombinations marketId outcomeIds c2 flag)%list.
Proof. rewrite !evaluateCombinations_flat. apply flat_map_app. Qed.

Lemma evaluateCombinations_length (marketId : string) (outcomeIds : list string)
  (combos : list (list OddsOption)) (flag : bool) :
  (List.length (Core.evaluateCombinations marketId outcomeIds combos flag)
   <= List.length combos)%nat.
Proof.
  rewrite evaluateCombinations_flat.
  induction combos as [|c combos IH]; cbn [flat_map List.length]; [lia|].
  rewrite length_app. unfold pushed at 1.
  destruct (Core.evaluateCombination marketId outcomeIds c flag); cbn [List.length]; lia.
Qed.

Lemma impliedSum_comparable (combo : list OddsOption) :
  comparable (Core.impliedSumOf combo).
Proof.
  unfold Core.impliedSumOf.
  assert (G : forall a, comparable a ->
            comparable (fold_left
                          (fun sum option => nadd sum (ndiv (Fin 1) (Fin (odds option))))
                          combo a)).
  { induction combo as [|o combo IH]; intros a Ha; cbn [fold_left]; [exact Ha|].
    apply IH. cbn [ndiv]. destruct (odds o ?= 0); cbn [signed_inf];
      destruct a; try destruct Ha; cbn; try exact I.
    all: try (change (1 ?= 0) with Gt; cbn; exact I). }
  apply G. exact I.
Qed.

(** The percentage of an opportunity is never NaN nor [-Infinity]. *)
Lemma percentage_comparable (s : num) :
  comparable s -> nlt s (Fin 1) = true ->
  comparable (toFixed 2 (nmul (ndiv (nsub (Fin 1) s) s) (Fin 100))).
Proof.
  destruct s as [q| | |]; cbn [comparable nlt]; try tauto; try discriminate.
  intros _ H. assert (L : q < 1).
  { apply Qlt_alt. destruct (q ?= 1); congruence. }
  cbn [nsub nneg nadd ndiv].
  destruct (Qcompare_spec q 0) as [E | Lt0 | Gt0]; try (cbn; exact I).
  unfold signed_inf.
  assert (G : (Qred (1 + Qred (- q)) ?= 0) = Gt).
  { apply Qgt_alt. rewrite !Qred_correct. lra. }
  rewrite G. cbn. exact I.
Qed.

Lemma opportunity_comparable (marketId : string) (outcomeIds : list string)
  (combos : list (list OddsOption)) (flag : bool) (o : ArbitrageOpportunity) :
  In o (Core.evaluateCombinations marketId outcomeIds combos flag) ->
  comparable (arbitragePercentage o).
Proof.
  intros H. apply In_evaluateCombinations in H. destruct H as (combo & _ & H).
  apply evaluateCombination_shape in H. destruct H as (L & _ & _ & -> & _).
  apply percentage_comparable; [apply impliedSum_comparable | exact L].
Qed.

Lemma nge_trans (a b c : num) :
  comparable a -> comparable b -> comparable c ->
  nge a b = true -> nge b c = true -> nge a c = true.
Proof.
  destruct a as [x| | |], b as [y| | |], c as [z| | |]; cbn; try tauto; try discriminate.
  intros _ _ _ H1 H2.
  assert (y <= x) by (apply Qge_alt; destruct (x ?= y); congruence).
  assert (z <= y) by (apply Qge_alt; destruct (y ?= z); congruence).
  assert (L : z <= x) by lra. apply Qge_alt in L. destruct (x ?= z); congruence.
Qed.

Lemma descending_true (a b : ArbitrageOpportunity) :
  comparable (arbitragePercentage a) -> comparable (arbitragePercentage b) ->
  Core.arbitrageDescending a b = true ->
  nge (arbitragePercentage b) (arbitragePercentage a) = true.
Proof.
  unfold Core.arbitrageDescending.
  destruct (arbitragePercentage a) as [x| | |], (arbitragePercentage b) as [y| | |];
    cbn [comparable nsub nneg nadd nlt nge]; try tauto; intros _ _ H;
    try reflexivity; try discriminate.
  assert (L : 0 < Qred (y + Qred (- x))).
  { apply Qlt_alt. destruct (0 ?= Qred (y + Qred (- x))); congruence. }
  rewrite !Qred_correct in L.
  assert (G : x <= y) by lra. apply Qge_alt in G. destruct (y ?= x); congruence.
Qed.

Lemma descending_false (a b : ArbitrageOpportunity) :
  comparable (arbitragePercentage a) -> comparable (arbitragePercentage b) ->
  Core.arbitrageDescending a b = false ->
  nge (arbitragePercentage a) (arbitragePercentage b) = true.
Proof.
  unfold Core.arbitrageDescending.
  destruct (arbitragePercentage a) as [x| | |], (arbitragePercentage b) as [y| | |];
    cbn [comparable nsub nneg nadd nlt nge]; try tauto; intros _ _ H;
    try reflexivity; try discriminate.
  assert (L : Qred (y + Qred (- x)) <= 0).
  { destruct (Qcompare_spec 0 (Qred (y + Qred (- x)))) as [E | L | G];
      [rewrite <- E; lra | discriminate | lra]. }
  rewrite !Qred_correct in L.
  assert (G : y <= x) by lra. apply Qge_alt in G. destruct (x ?= y); congruence.
Qed.

Section SortingOn.
Context {A : Type}.
Variable after : A -> A -> bool.
Variable P : A -> Prop.
Variable R : A -> A -> Prop.
Hypothesis after_true : forall x y, P x -> P y -> after x y = true -> R y x.
Hypothesis after_false : forall x y, P x -> P y -> after x y = false -> R x y.
Hypothesis R_trans : forall x y z, P x -> P y -> P z -> R x y -> R y z -> R x z.

Lemma insert_sorted_on (x : A) (l : list A) :
  P x -> Forall P l -> StronglySorted R l -> StronglySorted R (insert after x l).
Proof.
  intros Hx Hl Hs. induction Hs as [|z l Hs IH Hz]; cbn [insert].
  - repeat constructor.
  - inversion Hl as [|? ? Pz Pl]; subst. destruct (after x z) eqn:E.
    + constructor; [now apply IH|]. apply Forall_forall. intros y Hy.
      apply insert_In in Hy. destruct Hy as [-> | Hy].
      * now apply after_true.
      * rewrite Forall_forall in Hz. now apply Hz.
    + apply after_false in E; [|assumption..]. constructor; [now constructor|].
      constructor; [exact E|]. rewrite Forall_forall in *.
      intros y Hy. apply R_trans with z; auto.
Qed.

Lemma sort_sorted_on (l : list A) : Forall P l -> StronglySorted R (sort after l).
Proof.
  unfold sort. induction 1 as [|x l Hx Hl IH]; cbn [fold_right]; [constructor|].
  apply insert_sorted_on; [exact Hx | | exact IH].
  apply Forall_forall. intros y Hy. change (In y (sort after l)) in Hy.
  rewrite sort_In in Hy. rewrite Forall_forall in Hl. now apply Hl.
Qed.

End SortingOn.

Lemma sort_bestFirst (l : list ArbitrageOpportunity) :
  Forall (fun o => comparable (arbitragePercentage o)) l ->
  bestFirst (sort Core.arbitrageDescending l).
Proof.
  apply (sort_sorted_on Core.arbitrageDescending
           (fun o => comparable (arbitragePercentage o))).
  - intros x y. apply descending_true.
  - intros x y. apply descending_false.
  - intros x y z Hx Hy Hz. now apply nge_trans.
Qed.

End ShapeFacts.
Import ShapeFacts.

(** X13.  [evaluateCombinations] goes through the combinations in order
    and pushes at most one opportunity for each: the result over two lists
    of combinations put end to end is the two results put end to end; it is
    never longer than the list of combinations; and every opportunity
    carries the given market id and the bookmakers and odds, in order, of
    one of the combinations, with a stake per entry when the distribution
    is asked for and none otherwise. *)
Theorem X13_evaluation_follows_combinations (marketId : string)
  (outcomeIds : list string) (c1 c2 : list (list OddsOption)) (flag : bool) :
  Core.evaluateCombinations marketId outcomeIds (c1 ++ c2) flag
  = (Core.evaluateCombinations marketId outcomeIds c1 flag
     ++ Core.evaluateCombinations marketId outcomeIds c2 flag)%list /\
  (List.length (Core.evaluateCombinations marketId outcomeIds c1 flag)
   <= List.length c1)%nat /\
  forall o, In o (Core.evaluateCombinations marketId outcomeIds c1 flag) ->
    market o = marketId /\
    exists combo,
      In combo c1 /\
      reportedOdds o = pricesOf combo /\
      map q_bookmaker (opp_outcomes o) = map bookmaker combo /\
      (flag = false -> betDistribution o = []) /\
      (flag = true -> map b_bookmaker (betDistribution o) = map bookmaker combo).
Proof.
  split; [apply evaluateCombinations_app|].
  split; [apply evaluateCombinations_length|].
  intros o Ho. apply In_evaluateCombinations in Ho. destruct Ho as (combo & Hin & Ho).
  apply evaluateCombination_shape in Ho.
  destruct Ho as (_ & Hm & Hout & _ & Hoff & Hon).
  split; [exact Hm|]. exists combo. split; [exact Hin|].
  unfold reportedOdds, pricesOf. rewrite Hout.
  split; [now apply mapi_from_map|]. split; [now apply mapi_from_map|].
  split; assumption.
Qed.

Lemma X13_evaluation_follows_combinations_witness :
  exists o,
    In o (Core.evaluateCombinations "101" ["1"; "2"] [twoThreesCombo] true) /\
    market o = "101".
Proof.
  assert (E : exists o,
             In o (Core.evaluateCombinations "101" ["1"; "2"] [twoThreesCombo] true))
    by (eexists; vm_compute; left; reflexivity).
  destruct E as (o & E). exists o. split; [exact E|].
  exact (proj1 (proj2 (proj2 (X13_evaluation_follows_combinations "101" ["1"; "2"]
                                [twoThreesCombo] [] true)) o E)).
Defined.

Module AnalyzerFacts.

Lemma calculate_shape (marketId : string) (bestOdds : obj OddsOption)
  (o : ArbitrageOpportunity) :
  Core.calculateArbitrageForMarket marketId bestOdds = Some o ->
  market o = marketId /\
  opp_outcomes o = bestQuotes bestOdds /\
  map b_outcomeId (betDistribution o) = map q_outcomeId (opp_outcomes o).
Proof.
  unfold Core.calculateArbitrageForMarket. cbv zeta. fold (bestQuotes bestOdds).
  destruct (nge _ (Fin 1)); [discriminate|].
  intros [= <-]. cbn [market opp_outcomes betDistribution].
  repeat split. rewrite map_map. reflexivity.
Qed.

Lemma analyzeMarket_unfold (marketId : string) (oddsData : OddsData)
  (names outs : list string) :
  Core.getMarketOutcomes marketId oddsData names = Ok outs ->
  Core.analyzeMarket marketId oddsData names
  = if (List.length outs <? 2)%nat then Ok None
    else
      bestOdds <- Core.findBestOdds marketId outs oddsData names ;;
      if negb (List.length (keys bestOdds) =? List.length outs)%nat then Ok None
      else Ok (Core.calculateArbitrageForMarket marketId bestOdds).
Proof. intros H. unfold Core.analyzeMarket. rewrite H. reflexivity. Qed.

Lemma clamp_to_nat (lo hi x : Z) :
  (0 <= lo <= hi)%Z ->
  (Z.to_nat lo <= Z.to_nat (Core.clamp lo hi x) <= Z.to_nat hi)%nat.
Proof. unfold Core.clamp. lia. Qed.

Lemma analyzeMarketTopK_unfold (marketId : string) (oddsData : OddsData)
  (names : list string) (options : AnalyzeOptions) :
  Core.analyzeMarketTopK marketId oddsData names options
  = (outcomeOdds <-
       Core.buildTopOutcomeOddsMap marketId oddsData names
         (Core.clamp 1 3 (Core.orDefault (topk options) 3)) ;;
     Ok (firstn (Z.to_nat (Core.clamp 1 5 (Core.orDefault (maxResults options) 5)))
           (sort Core.arbitrageDescending
              (Core.evaluateCombinations marketId (keys outcomeOdds)
                 (Core.generateCombinations
                    (map (fun oId =>
                            match get oId outcomeOdds with Some l => l | None => [] end)
                         (keys outcomeOdds))
                    10000)
                 (includeBetDistribution options))))).
Proof.
  unfold Core.analyzeMarketTopK. cbv zeta.
  destruct (Core.buildTopOutcomeOddsMap _ _ _ _) as [m|msg]; cbn [bind]; [|reflexivity].
  rewrite slice0_nonneg by (unfold Core.clamp; lia). reflexivity.
Qed.

(** The quotes of an opportunity, position by position, against the
    outcome ids and the candidate lists the combination was drawn from. *)
Lemma quoteAt_paired (Rel : OddsOption -> string -> Prop) (pre ids : list string)
  (combo : list OddsOption) :
  Forall2 Rel combo ids ->
  Forall2
    (fun oid q =>
       q_outcomeId q = Some oid /\
       Rel (mkOddsOption (q_bookmaker q) (q_odds q)) oid)
    ids (Core.mapi_from (quoteAt (pre ++ ids)) (List.length pre) combo).
Proof.
  intros H. revert pre. induction H as [|c i combo ids Hc _ IH]; intros pre;
    cbn [Core.mapi_from]; constructor.
  - cbn [quoteAt q_outcomeId q_bookmaker q_odds]. split.
    + rewrite nth_error_app2 by lia. now rewrite Nat.sub_diag.
    + now destruct c.
  - specialize (IH (pre ++ [i])%list).
    rewrite <- app_assoc, length_app in IH. cbn [app List.length] in IH.
    now rewrite Nat.add_1_r in IH.
Qed.

Lemma Forall2_map_r {A B C : Type} (R : A -> C -> Prop) (f : B -> C)
  (l : list A) (l' : list B) :
  Forall2 R l (map f l') -> Forall2 (fun a b => R a (f b)) l l'.
Proof.
  revert l. induction l' as [|b l' IH]; intros l H; cbn [map] in H;
    inversion H; subst; constructor; auto.
Qed.

End AnalyzerFacts.
Import AnalyzerFacts.

(** X14.  An opportunity returned by [analyzeMarket] covers its market:
    the market has at least two outcomes; the opportunity has exactly one
    quote and one stake per outcome and every outcome is quoted; each quote
    is an active quote of a listed bookmaker, priced above 0 and not beaten
    by any active quote of a listed bookmaker on that outcome; and the
    recorded total implied probability is below 1. *)
Theorem X14_single_best_covers_market (marketId : string) (oddsData : OddsData)
  (names : list string) (o : ArbitrageOpportunity) :
  Core.analyzeMarket marketId oddsData names = Ok (Some o) ->
  exists outs,
    Core.getMarketOutcomes marketId oddsData names = Ok outs /\
    (2 <= List.length outs)%nat /\
    market o = marketId /\
    List.length (opp_outcomes o) = List.length outs /\
    (forall oid, In oid outs <-> In (Some oid) (map q_outcomeId (opp_outcomes o))) /\
    (forall q, In q (opp_outcomes o) ->
       exists oid, q_outcomeId q = Some oid /\
         selected oddsData marketId names oid (mkOddsOption (q_bookmaker q) (q_odds q))) /\
    map b_outcomeId (betDistribution o) = map q_outcomeId (opp_outcomes o) /\
    exists t, totalImpliedProbability o = Fin t /\ t < 1.
Proof.
  intros H.
  destruct (Core.getMarketOutcomes marketId oddsData names) as [outs|msg] eqn:E;
    [|unfold Core.analyzeMarket in H; rewrite E in H; discriminate].
  rewrite (analyzeMarket_unfold _ _ _ _ E) in H.
  destruct (outcomes_ok_known _ _ _ _ E) as [Hk Hnd].
  destruct (Nat.ltb_spec (List.length outs) 2) as [|Hlen]; [discriminate|].
  destruct (Core.findBestOdds marketId outs oddsData names) as [sel|msg] eqn:Es;
    cbn [bind] in H; [|discriminate].
  destruct (findBestOdds_inv marketId outs oddsData names sel Es)
    as (Hsel & Hkeys & Hnds & _).
  destruct (Nat.eqb_spec (List.length (keys sel)) (List.length outs)) as [Hl|];
    [|discriminate].
  cbn [negb] in H. injection H as H.
  destruct (calculate_shape _ _ _ H) as (Hm & Hout & Hbets).
  assert (Hids : map q_outcomeId (opp_outcomes o) = map Some (keys sel)).
  { rewrite Hout. unfold bestQuotes, keys. rewrite !map_map. reflexivity. }
  exists outs. split; [reflexivity|]. split; [exact Hlen|]. split; [exact Hm|].
  split; [|split; [|split; [|split]]].
  - rewrite <- Hl, Hout. unfold bestQuotes, keys. now rewrite !length_map.
  - intros oid. rewrite Hids. split.
    + intros Hin. apply in_map.
      apply (@NoDup_length_incl string (keys sel) outs Hnds); [lia | exact Hkeys | exact Hin].
    + intros Hin. apply in_map_iff in Hin. destruct Hin as (k & [= ->] & Hin).
      now apply Hkeys.
  - intros q Hq. rewrite Hout in Hq. unfold bestQuotes in Hq.
    apply in_map_iff in Hq. destruct Hq as ([k s] & <- & Hin).
    exists k. cbn [q_outcomeId q_bookmaker q_odds fst snd]. split; [reflexivity|].
    specialize (Hsel k s Hin). now destruct s.
  - exact Hbets.
  - assert (Hpos : positive (pricesOfBest sel)).
    { unfold positive, pricesOfBest. apply Forall_map, Forall_forall.
      intros [k s] Hin. cbn [snd]. now destruct (Hsel k s Hin) as (_ & _ & _ & Hp & _). }
    destruct (SingleBest.calculate_spec marketId sel Hpos)
      as [[_ Hnone] | (Hlt & o' & Hsome & _ & (t & Ht & Et) & _)]; [congruence|].
    rewrite Hsome in H. injection H as <-. exists t. split; [exact Ht | lra].
Qed.

Lemma X14_single_best_covers_market_witness :
  exists o outs,
    Core.analyzeMarket "101" generous ["bookmaker1"; "bookmaker2"] = Ok (Some o) /\
    Core.getMarketOutcomes "101" generous ["bookmaker1"; "bookmaker2"] = Ok outs /\
    List.length (opp_outcomes o) = List.length outs.
Proof.
  assert (E : exists o,
             Core.analyzeMarket "101" generous ["bookmaker1"; "bookmaker2"] = Ok (Some o))
    by (eexists; vm_compute; reflexivity).
  destruct E as (o & E).
  destruct (X14_single_best_covers_market "101" generous
              ["bookmaker1"; "bookmaker2"] o E) as (outs & A & _ & _ & B & _).
  exists o, outs. split; [exact E | now split].
Defined.

Lemma top_k_results_spec (marketId : string) (oddsData : OddsData)
  (names : list string) (options : AnalyzeOptions) (outs : list string) :
  Core.getMarketOutcomes marketId oddsData names = Ok outs ->
  plain marketId ->
  Forall plain outs ->
  exists found ids,
    Core.analyzeMarketTopK marketId oddsData names options = Ok found /\
    (List.length found <= 5)%nat /\
    bestFirst found /\
    NoDup ids /\
    Permutation ids outs /\
    forall o, In o found ->
      market o = marketId /\
      Forall2 (quoted oddsData marketId names) ids (opp_outcomes o).
Proof.
  intros H Hm Ho.
  rewrite analyzeMarketTopK_unfold.
  set (K := Core.clamp 1 3 (Core.orDefault (topk options) 3)).
  set (N := Z.to_nat (Core.clamp 1 5 (Core.orDefault (maxResults options) 5))).
  destruct (buildTop_spec marketId oddsData names K outs H Hm Ho)
    as (m & E & Hnd & Hperm & Hget).
  rewrite E. cbn [bind].
  assert (Harr : map (fun oId => match get oId m with Some l => l | None => [] end) (keys m)
                 = map (ranked oddsData marketId names K) (keys m)).
  { apply map_ext_in. intros oid Hin. apply (Permutation_in _ Hperm) in Hin.
    now rewrite (Hget oid Hin). }
  rewrite Harr.
  set (combos := Core.generateCombinations
                   (map (ranked oddsData marketId names K) (keys m)) 10000).
  set (opps := Core.evaluateCombinations marketId (keys m) combos
                 (includeBetDistribution options)).
  exists (firstn N (sort Core.arbitrageDescending opps)), (keys m).
  split; [reflexivity|]. split; [|split; [|split; [exact Hnd | split; [exact Hperm|]]]].
  - rewrite firstn_le_length.
    pose proof (clamp_to_nat 1 5 (Core.orDefault (maxResults options) 5)) as Hc.
    fold N in Hc. lia.
  - apply firstn_sorted, sort_bestFirst, Forall_forall.
    intros o Hin. now apply opportunity_comparable in Hin.
  - intros o Hin. apply firstn_subset, sort_In in Hin.
    apply In_evaluateCombinations in Hin. destruct Hin as (combo & Hin & Hev).
    apply evaluateCombination_shape in Hev. destruct Hev as (_ & Hmk & Hout & _).
    split; [exact Hmk|]. rewrite Hout.
    assert (Hch : Forall2 (fun c oid => In c (ranked oddsData marketId names K oid))
                    combo (keys m)).
    { unfold combos in Hin. rewrite generate_unfold in Hin.
      destruct (10000 <? _)%Z; [destruct Hin|].
      apply cross_In in Hin. destruct Hin as (a & t & [<- | []] & Ht & ->).
      cbn [app]. unfold choice in Ht. now apply Forall2_map_r in Ht. }
    pose proof (quoteAt_paired _ [] (keys m) combo Hch) as HF. cbn [app List.length] in HF.
    eapply Forall2_impl; [|exact HF]. intros oid q [Hid Hr]. cbv beta in Hr.
    unfold quoted. split; [exact Hid|]. unfold ranked in Hr.
    apply slice0_subset, sort_In, candidates_In in Hr. exact Hr.
Qed.

(** X15.  When the market's outcomes can be read and neither the market
    id nor an outcome id is the name of a member of [Object.prototype],
    [analyzeMarketTopK] returns at most 5 opportunities, whatever
    [maxResults] is, with the best percentage first; each carries the market
    id and exactly one quote per outcome of the market, all opportunities
    listing the outcomes in the same order (the enumeration order of the
    candidate map), and that quote is an active quote of a listed bookmaker
    on that outcome priced above 1. *)
Theorem X15_top_k_results (marketId : string) (oddsData : OddsData)
  (names : list string) (options : AnalyzeOptions) (outs : list string) :
  Core.getMarketOutcomes marketId oddsData names = Ok outs ->
  plain marketId ->
  Forall plain outs ->
  exists found ids,
    Core.analyzeMarketTopK marketId oddsData names options = Ok found /\
    (List.length found <= 5)%nat /\
    bestFirst found /\
    NoDup ids /\
    Permutation ids outs /\
    forall o, In o found ->
      market o = marketId /\
      Forall2 (quoted oddsData marketId names) ids (opp_outcomes o).
Proof. exact (top_k_results_spec marketId oddsData names options outs). Qed.

Lemma X15_top_k_results_witness :
  exists found,
    Core.analyzeMarketTopK "101" generous ["bookmaker1"; "bookmaker2"]
      (withLimits (Some 3%Z) (Some 20%Z)) = Ok found /\
    (List.length found <= 5)%nat /\ bestFirst found.
Proof.
  destruct (X15_top_k_results "101" generous ["bookmaker1"; "bookmaker2"]
              (withLimits (Some 3%Z) (Some 20%Z)) ["101"; "102"])
    as (found & ids & A & B & C & _).
  - vm_compute. reflexivity.
  - reflexivity.
  - repeat constructor.
  - exists found. split; [exact A | now split].
Defined.

Lemma analyzeMarket_returns (marketId : string) (oddsData : OddsData)
  (names : list string) :
  Forall (known oddsData) names -> plainSnapshot oddsData -> plain marketId ->
  exists r, Core.analyzeMarket marketId oddsData names = Ok r.
Proof.
  intros H Hp Hm.
  destruct (market_outcomes_ok marketId oddsData names) as (outs & E).
  { eapply Forall_impl; [|exact H]. intros n. now apply readable_plain. }
  rewrite (analyzeMarket_unfold _ _ _ _ E).
  destruct (List.length outs <? 2)%nat; [now eexists|].
  destruct (findBestOdds_ok marketId outs oddsData names H Hm
              (outcomes_plain _ _ _ _ Hp E)) as (sel & Es).
  rewrite Es. cbn [bind]. destruct (negb _); now eexists.
Qed.

Lemma analyzeMarketTopK_returns (marketId : string) (oddsData : OddsData)
  (names : list string) (options : AnalyzeOptions) :
  Forall (known oddsData) names -> plainSnapshot oddsData -> plain marketId ->
  exists found,
    Core.analyzeMarketTopK marketId oddsData names options = Ok found /\
    (List.length found <= 5)%nat /\
    forall o, In o found -> market o = marketId.
Proof.
  intros H Hp Hm.
  destruct (market_outcomes_ok marketId oddsData names) as (outs & E).
  { eapply Forall_impl; [|exact H]. intros n. now apply readable_plain. }
  destruct (top_k_results_spec marketId oddsData names options outs E Hm
              (outcomes_plain _ _ _ _ Hp E)) as (found & ids & A & B & _ & _ & _ & C).
  exists found. split; [exact A|]. split; [exact B|]. intros o Ho. now apply C.
Qed.

(** X16.  [analyzeMarket] and [analyzeMarketTopK] raise a TypeError as
    soon as one of the listed bookmaker names is not in the snapshot; when
    all of them are, and no market id or outcome id is the name of a member
    of [Object.prototype], both return. *)
Theorem X16_analyzers_raise_on_unknown_bookmaker (marketId : string)
  (oddsData : OddsData) (names : list string) (options : AnalyzeOptions) :
  (Forall (known oddsData) names ->
   plainSnapshot oddsData ->
   plain marketId ->
   (exists r, Core.analyzeMarket marketId oddsData names = Ok r) /\
   (exists found, Core.analyzeMarketTopK marketId oddsData names options = Ok found)) /\
  (Exists (fun n => ~ known oddsData n) names ->
   (exists msg, Core.analyzeMarket marketId oddsData names = Throw msg) /\
   (exists msg, Core.analyzeMarketTopK marketId oddsData names options = Throw msg)).
Proof.
  split.
  - intros H Hp Hm. split; [now apply analyzeMarket_returns|].
    destruct (analyzeMarketTopK_returns marketId oddsData names options H Hp Hm)
      as (found & A & _).
    now exists found.
  - intros H.
    destruct (market_outcomes_throw marketId oddsData names) as (msg & E).
    { eapply Exists_impl; [|exact H]. intros n Hn K. now apply Hn, readable_known with marketId. }
    split; exists msg.
    + unfold Core.analyzeMarket. now rewrite E.
    + rewrite analyzeMarketTopK_unfold, buildTop_unfold, E. reflexivity.
Qed.

Lemma X16_analyzers_raise_on_unknown_bookmaker_witness :
  (exists r, Core.analyzeMarket "101" mockOddsData ["bookmaker1"; "bookmaker2"] = Ok r) /\
  (exists msg,
     Core.analyzeMarketTopK "101" mockOddsData ["bookmaker1"; "nobody"] Core.defaultOptions
     = Throw msg).
Proof.
  split.
  - apply (proj1 (X16_analyzers_raise_on_unknown_bookmaker "101" mockOddsData
                    ["bookmaker1"; "bookmaker2"] Core.defaultOptions)).
    + repeat constructor; unfold known; cbn; discriminate.
    + repeat constructor.
    + reflexivity.
  - apply (proj2 (X16_analyzers_raise_on_unknown_bookmaker "101" mockOddsData
                    ["bookmaker1"; "nobody"] Core.defaultOptions)).
    apply Exists_cons_tl, Exists_cons_hd. unfold known. cbn. intros H. now apply H.
Defined.

Module EntryFacts2.

Lemma index_unfold (oddsData : OddsData) :
  Index.calculateArbitrage oddsData
  = rethrow
      (if (List.length (keys (bookmakerOdds oddsData)) =? 0)%nat
       then Throw noBookmakerOdds
       else
         allMarkets <- Core.getAllMarkets oddsData (Core.getActiveBookmakers oddsData) ;;
         found <- forEach (collectSingle oddsData (Core.getActiveBookmakers oddsData))
                    allMarkets [] ;;
         Ok (report oddsData allMarkets (Core.getActiveBookmakers oddsData) found)).
Proof. reflexivity. Qed.

Lemma index_topk_unfold (oddsData : OddsData) (topk : option Z) :
  IndexTopK.calculateArbitrage oddsData topk
  = rethrow
      (if (List.length (keys (bookmakerOdds oddsData)) =? 0)%nat
       then Throw noBookmakerOdds
       else
         allMarkets <- Core.getAllMarkets oddsData (Core.getActiveBookmakers oddsData) ;;
         found <-
           (if IndexTopK.useTopK topk
            then forEach (collectTopK oddsData (Core.getActiveBookmakers oddsData) topk)
                   allMarkets []
            else forEach (collectSingle oddsData (Core.getActiveBookmakers oddsData))
                   allMarkets []) ;;
         Ok (report oddsData allMarkets (Core.getActiveBookmakers oddsData) found)).
Proof. reflexivity. Qed.

Lemma nonempty_keys {V : Type} (o : obj V) :
  o <> [] -> (List.length (keys o) =? 0)%nat = false.
Proof. destruct o; [congruence | reflexivity]. Qed.

Lemma analyzeMarket_market (marketId : string) (oddsData : OddsData)
  (names : list string) (o : ArbitrageOpportunity) :
  Core.analyzeMarket marketId oddsData names = Ok (Some o) -> market o = marketId.
Proof.
  intros H.
  destruct (Core.getMarketOutcomes marketId oddsData names) as [outs|msg] eqn:E;
    [|unfold Core.analyzeMarket in H; rewrite E in H; discriminate].
  rewrite (analyzeMarket_unfold _ _ _ _ E) in H.
  destruct (List.length outs <? 2)%nat; [discriminate|].
  destruct (Core.findBestOdds marketId outs oddsData names) as [sel|]; [|discriminate].
  cbn [bind] in H. destruct (negb _); [discriminate|].
  injection H as H. now apply calculate_shape in H.
Qed.

Lemma markets_plain (oddsData : OddsData) (names markets : list string) :
  plainSnapshot oddsData ->
  Core.getAllMarkets oddsData names = Ok markets -> Forall plain markets.
Proof.
  intros Hp H. rewrite getAllMarkets_collect in H. apply collect_inv in H.
  destruct H as (_ & _ & Hin). apply Forall_forall. intros m Hm. apply Hin in Hm.
  destruct Hm as [[] | (n & b & l & _ & Hb & [= <-] & K)].
  exact (snapshot_market_plain oddsData n m b Hp Hb K).
Qed.

Lemma active_markets (oddsData : OddsData) :
  exists markets,
    Core.getAllMarkets oddsData (Core.getActiveBookmakers oddsData) = Ok markets /\
    NoDup markets.
Proof.
  destruct (proj1 (all_markets_spec oddsData (Core.getActiveBookmakers oddsData))
              (active_known oddsData)) as (markets & E & Hnd & _).
  now exists markets.
Qed.

(** The single-best loop: at most one opportunity per market, filed under
    that market. *)
Lemma single_loop (oddsData : OddsData) (names : list string)
  (markets done : list string) (acc : list ArbitrageOpportunity) :
  Forall (known oddsData) names ->
  plainSnapshot oddsData ->
  Forall plain markets ->
  NoDup (done ++ markets) ->
  NoDup (map market acc) ->
  (forall o, In o acc -> In (market o) done) ->
  exists found,
    forEach (collectSingle oddsData names) markets acc = Ok found /\
    (List.length found <= List.length acc + List.length markets)%nat /\
    NoDup (map market found) /\
    (forall o, In o found -> In (market o) (done ++ markets)).
Proof.
  intros Hk Hp Hpl. revert done acc.
  induction Hpl as [|m markets Hm _ IH]; intros done acc Hnd Hacc Hin; cbn [forEach].
  - exists acc. rewrite app_nil_r. split; [reflexivity|]. split; [lia|]. now split.
  - unfold collectSingle at 1.
    destruct (analyzeMarket_returns m oddsData names Hk Hp Hm) as (r & Er).
    rewrite Er. cbn [bind].
    assert (Hnd' : NoDup ((done ++ [m]) ++ markets)) by now rewrite <- app_assoc.
    destruct r as [o|].
    + pose proof (analyzeMarket_market _ _ _ _ Er) as Hmk.
      destruct (IH (done ++ [m])%list (acc ++ [o])%list Hnd') as (found & E & Hl & Hn & Hi).
      * rewrite map_app. cbn [map]. apply NoDup_app; [exact Hacc | repeat constructor; intros [] |].
        intros k Hk1 [<- | []]. rewrite Hmk in Hk1.
        apply in_map_iff in Hk1. destruct Hk1 as (o' & Eo & Ho').
        apply Hin in Ho'. rewrite Eo in Ho'.
        apply NoDup_remove_2 in Hnd. apply Hnd, in_app_iff. now left.
      * intros o' Ho'. apply in_app_iff in Ho'. apply in_app_iff.
        destruct Ho' as [Ho' | [<- | []]]; [left; now apply Hin | right; left; now rewrite Hmk].
      * exists found. split; [exact E|]. rewrite length_app in Hl. cbn [List.length] in *.
        split; [lia|]. split; [exact Hn|]. intros o' Ho'. rewrite <- app_assoc in Hi.
        now apply Hi.
    + destruct (IH (done ++ [m])%list acc Hnd' Hacc) as (found & E & Hl & Hn & Hi).
      * intros o' Ho'. apply in_app_iff. left. now apply Hin.
      * exists found. split; [exact E|]. cbn [List.length]. split; [lia|].
        split; [exact Hn|]. intros o' Ho'. rewrite <- app_assoc in Hi. now apply Hi.
Qed.

End EntryFacts2.
Import EntryFacts2.

(** X17.  With a non-empty bookmaker mapping in which no market id or
    outcome id is the name of a member of [Object.prototype], the
    single-best entry point never raises: it reports the markets of the
    active bookmakers, the active bookmakers, and at most one opportunity
    per market, each under the id of the market it was found in. *)
Theorem X17_single_best_report (oddsData : OddsData) :
  bookmakerOdds oddsData <> [] ->
  plainSnapshot oddsData ->
  exists markets found,
    Core.getAllMarkets oddsData (Core.getActiveBookmakers oddsData) = Ok markets /\
    Index.calculateArbitrage oddsData
    = Ok (report oddsData markets (Core.getActiveBookmakers oddsData) found) /\
    (List.length found <= List.length markets)%nat /\
    NoDup (map market found) /\
    (forall o, In o found -> In (market o) markets).
Proof.
  intros Hne Hp. pose proof (active_known oddsData) as Hk.
  destruct (active_markets oddsData) as (markets & E & Hnd).
  destruct (single_loop oddsData (Core.getActiveBookmakers oddsData) markets [] [] Hk Hp)
    as (found & Ef & Hl & Hn & Hi);
    [exact (markets_plain _ _ _ Hp E) | exact Hnd | constructor | intros ? [] |].
  exists markets, found. split; [exact E|]. split.
  - rewrite index_unfold, (nonempty_keys _ Hne), E. cbn [bind]. rewrite Ef. reflexivity.
  - split; [exact Hl|]. now split.
Qed.

Lemma X17_single_best_report_witness :
  exists markets found,
    Index.calculateArbitrage generous
    = Ok (report generous markets (Core.getActiveBookmakers generous) found) /\
    (List.length found <= List.length markets)%nat.
Proof.
  destruct (X17_single_best_report generous) as (markets & found & _ & A & B & _).
  - discriminate.
  - repeat constructor.
  - exists markets, found. split; [exact A | exact B].
Defined.

(** X18.  The entry point with the top-K switch runs the single-best
    analysis, with the same result as the entry point without the switch,
    whenever K is missing or at most 1 (0 and negative values included). *)
Theorem X18_single_best_unless_k_above_one (oddsData : OddsData) (topk : option Z) :
  (topk = None \/ exists k, topk = Some k /\ (k <= 1)%Z) ->
  IndexTopK.calculateArbitrage oddsData topk = Index.calculateArbitrage oddsData.
Proof.
  intros H. rewrite index_topk_unfold, index_unfold.
  assert (E : IndexTopK.useTopK topk = false).
  { destruct H as [-> | (k & -> & Hk)]; [reflexivity|]. unfold IndexTopK.useTopK.
    destruct (Z.ltb_spec 1 k); [lia|]. apply andb_false_r. }
  now rewrite E.
Qed.

Lemma X18_single_best_unless_k_above_one_witness :
  IndexTopK.calculateArbitrage generous (Some 1%Z) = Index.calculateArbitrage generous.
Proof.
  apply (X18_single_best_unless_k_above_one generous (Some 1%Z)).
  right. exists 1%Z. split; [reflexivity | discriminate].
Defined.

Module EntryFacts3.


End EntryFacts3.
Import EntryFacts3.



(** X20.  An opportunity pushed by [evaluateCombinations] for a
    combination of positive prices never reports a negative percentage, nor
    one that is not a number: the percentage compares as at least 0 (it is
    0.00 for a sum just below 1, and infinite for the empty combination). *)
Theorem X20_top_k_percentage_not_negative (marketId : string)
  (outcomeIds : list string) (combo : list OddsOption) (flag : bool)
  (o : ArbitrageOpportunity) :
  positive (pricesOf combo) ->
  Core.evaluateCombination marketId outcomeIds combo flag = Some o ->
  nge (arbitragePercentage o) (Fin 0) = true.
Proof.
  intros Hpos Ho. destruct combo as [|c combo].
  - destruct flag; injection Ho as <-; reflexivity.
  - assert (HS : 0 < impliedTotal (pricesOf (c :: combo))).
    { apply impliedTotal_pos; [discriminate | exact Hpos]. }
    destruct (TopK.evaluate_spec marketId outcomeIds (c :: combo) flag Hpos)
      as [[_ Hnone] | (Hlt & o' & Hsome & _ & _ & Harb & _)]; [congruence|].
    rewrite Hsome in Ho. injection Ho as <-.
    destruct (Harb HS) as (a & Ha & Ea). rewrite Ha. cbn [nge].
    assert (La : 0 <= a).
    { rewrite Ea. apply roundQ_nonneg. unfold profitPercent.
      assert (0 <= (1 - impliedTotal (pricesOf (c :: combo)))
                   / impliedTotal (pricesOf (c :: combo))).
      { apply Qle_shift_div_l; [exact HS | lra]. }
      lra. }
    apply Qge_alt in La. destruct (a ?= 0); [reflexivity | congruence | reflexivity].
Qed.

Lemma X20_top_k_percentage_not_negative_witness :
  exists o,
    Core.evaluateCombination "101" ["1"; "2"] nearEvenCombo false = Some o /\
    nge (arbitragePercentage o) (Fin 0) = true.
Proof.
  assert (P : positive (pricesOf nearEvenCombo)) by (repeat constructor).
  assert (E : exists o,
             Core.evaluateCombination "101" ["1"; "2"] nearEvenCombo false = Some o)
    by (eexists; vm_compute; reflexivity).
  destruct E as (o & E). exists o. split; [exact E|].
  exact (X20_top_k_percentage_not_negative "101" ["1"; "2"] nearEvenCombo false o P E).
Defined.

Module GuardFacts.

Lemma NoDup_strict_subset (l l' : list string) (x : string) :
  NoDup l -> incl l l' -> In x l' -> ~ In x l ->
  (List.length l < List.length l')%nat.
Proof.
  intros Hnd Hincl Hx Hnot.
  assert (H : (List.length (x :: l) <= List.length l')%nat).
  { apply NoDup_incl_length; [now constructor|].
    intros y [<- | Hy]; [exact Hx | now apply Hincl]. }
  cbn [List.length] in H. lia.
Qed.

End GuardFacts.
Import GuardFacts.

(** X21.  [analyzeMarket] returns no opportunity for a market with fewer
    than two outcomes; and, when neither the market id nor an outcome id is
    the name of a member of [Object.prototype], none either as soon as one
    outcome of the market has no active quote above 0 from a listed
    bookmaker: the market is skipped as a whole. *)
Theorem X21_single_best_skips_uncovered_market (marketId : string)
  (oddsData : OddsData) (names outs : list string) :
  Core.getMarketOutcomes marketId oddsData names = Ok outs ->
  (List.length outs < 2)%nat \/
  (plain marketId /\ Forall plain outs /\
   exists oid, In oid outs /\
     forall n p, In n names -> offers oddsData marketId oid n p -> p <= 0) ->
  Core.analyzeMarket marketId oddsData names = Ok None.
Proof.
  intros E H. rewrite (analyzeMarket_unfold _ _ _ _ E).
  destruct (Nat.ltb_spec (List.length outs) 2) as [|Hlen]; [reflexivity|].
  destruct H as [H | (Hm & Ho & oid & Hin & Hno)]; [lia|].
  destruct (outcomes_ok_known _ _ _ _ E) as [Hk _].
  destruct (findBestOdds_ok marketId outs oddsData names Hk Hm Ho) as (sel & Es).
  destruct (findBestOdds_inv marketId outs oddsData names sel Es)
    as (Hsel & Hkeys & Hnds & _).
  rewrite Es. cbn [bind].
  assert (Hnot : ~ In oid (keys sel)).
  { intros K. unfold keys in K. apply in_map_iff in K. destruct K as ([k s] & <- & K).
    destruct (Hsel k s K) as (_ & Hn & Hoff & Hp & _). cbn [fst] in Hno.
    specialize (Hno _ _ Hn Hoff). lra. }
  pose proof (NoDup_strict_subset (keys sel) outs oid Hnds Hkeys Hin Hnot) as Hlt.
  destruct (Nat.eqb_spec (List.length (keys sel)) (List.length outs)); [lia | reflexivity].
Qed.

Lemma X21_single_best_skips_uncovered_market_witness :
  Core.analyzeMarket "101" singleOutcomeData ["bookmaker1"] = Ok None.
Proof.
  apply (X21_single_best_skips_uncovered_market "101" singleOutcomeData
           ["bookmaker1"] ["101"]).
  - reflexivity.
  - left. cbn. lia.
Defined.

Module SingleOutcomeFacts.

Lemma nonempty_length {A : Type} (l : list A) : l <> [] <-> (1 <= List.length l)%nat.
Proof. destruct l; cbn [List.length]; split; intros; try congruence; lia. Qed.

Lemma single_price_below_one (p : Q) : 1 < p -> impliedTotal [p] < 1.
Proof.
  intros H. unfold impliedTotal, Qsum. cbn [map fold_right].
  assert (/ p < 1).
  { setoid_replace (/ p) with (1 / p) by (unfold Qdiv; ring).
    apply Qlt_shift_div_r; lra. }
  lra.
Qed.

End SingleOutcomeFacts.
Import SingleOutcomeFacts.

(** X22.  [analyzeMarketTopK] has no minimum number of outcomes: for a
    market with a single outcome on which some listed bookmaker has an
    active quote above 1 (neither id being the name of a member of
    [Object.prototype]), it returns at least one opportunity. *)
Theorem X22_top_k_single_outcome_emits (marketId : string) (oddsData : OddsData)
  (names : list string) (options : AnalyzeOptions) (oid : string) :
  Core.getMarketOutcomes marketId oddsData names = Ok [oid] ->
  plain marketId ->
  plain oid ->
  (exists n p, In n names /\ offers oddsData marketId oid n p /\ 1 < p) ->
  exists o found,
    Core.analyzeMarketTopK marketId oddsData names options = Ok (o :: found).
Proof.
  intros H Hm Hoid (n & p & Hn & Hoff & Hp).
  assert (Ho : Forall plain [oid]) by (repeat constructor; exact Hoid).
  rewrite analyzeMarketTopK_unfold.
  set (K := Core.clamp 1 3 (Core.orDefault (topk options) 3)).
  set (N := Z.to_nat (Core.clamp 1 5 (Core.orDefault (maxResults options) 5))).
  assert (HK : (1 <= K <= 3)%Z) by (unfold K, Core.clamp; lia).
  assert (HN : (1 <= N)%nat).
  { pose proof (clamp_to_nat 1 5 (Core.orDefault (maxResults options) 5)) as Hc.
    fold N in Hc. lia. }
  destruct (buildTop_spec marketId oddsData names K [oid] H Hm Ho)
    as (m & E & Hnd & Hperm & Hget).
  rewrite E. cbn [bind].
  apply Permutation_sym, Permutation_length_1_inv in Hperm. rewrite Hperm. cbn [map].
  rewrite (Hget oid) by now left.
  set (l0 := ranked oddsData marketId names K oid).
  assert (Hl0 : (1 <= List.length l0)%nat).
  { unfold l0, ranked. rewrite slice0_nonneg by lia. rewrite length_firstn, sort_length.
    assert (In (mkOddsOption n p) (candidates oddsData marketId oid names)) as Hc
      by (apply candidates_In; cbn [bookmaker odds]; tauto).
    assert (1 <= List.length (candidates oddsData marketId oid names))%nat
      by (apply nonempty_length; intros Z0; rewrite Z0 in Hc; destruct Hc).
    lia. }
  assert (Hl3 : (List.length l0 <= 3)%nat).
  { unfold l0, ranked. rewrite slice0_nonneg by lia. rewrite length_firstn. lia. }
  destruct l0 as [|c rest] eqn:El0; [cbn in Hl0; lia|].
  assert (Hc1 : 1 < odds c).
  { assert (Hin : In c l0) by (rewrite El0; now left).
    unfold l0, ranked in Hin. apply slice0_subset, sort_In, candidates_In in Hin. tauto. }
  set (combos := Core.generateCombinations [c :: rest] 10000).
  assert (Hcombo : In [c] combos).
  { unfold combos. rewrite generate_unfold.
    assert (Hp10 : product (sizes [c :: rest]) = List.length (c :: rest))
      by (unfold product, sizes; cbn [map fold_right]; lia).
    rewrite Hp10. destruct (Z.ltb_spec 10000 (Z.of_nat (List.length (c :: rest)))); [lia|].
    apply cross_In. exists [], [c]. split; [now left|]. split; [|reflexivity].
    repeat constructor. }
  set (opps := Core.evaluateCombinations marketId [oid] combos (includeBetDistribution options)).
  assert (Hopp : (1 <= List.length opps)%nat).
  { assert (Hpos : positive (pricesOf [c])) by (repeat constructor; cbn; lra).
    destruct (TopK.evaluate_spec marketId [oid] [c] (includeBetDistribution options) Hpos)
      as [[Hge _] | (_ & o & Hev & _)].
    - pose proof (single_price_below_one (odds c) Hc1) as Hlt.
      cbn [pricesOf map] in Hge. lra.
    - apply nonempty_length. intros Z0.
      assert (Hin : In o opps) by (apply In_evaluateCombinations; now exists [c]).
      rewrite Z0 in Hin. destruct Hin. }
  assert (Hres : (1 <= List.length (firstn N (sort Core.arbitrageDescending opps)))%nat).
  { rewrite length_firstn, sort_length. lia. }
  destruct (firstn N (sort Core.arbitrageDescending opps)) as [|o found];
    [cbn in Hres; lia|].
  now exists o, found.
Qed.

Lemma X22_top_k_single_outcome_emits_witness :
  exists o found,
    Core.analyzeMarketTopK "101" singleOutcomeData ["bookmaker1"] Core.defaultOptions
    = Ok (o :: found).
Proof.
  apply (X22_top_k_single_outcome_emits "101" singleOutcomeData ["bookmaker1"]
           Core.defaultOptions "101").
  - reflexivity.
  - reflexivity.
  - reflexivity.
  - exists "bookmaker1", (3 # 2). split; [now left|]. split; [|reflexivity].
    eexists. split; [reflexivity|]. split; reflexivity.
Defined.

